(** * CalorieTracker: the ingredient resolution and scaling engine

    A shallow embedding of [search.py] (class [IngredientNutritionSearch])
    together with the parts of the Python run time it relies on
    ([str.lower], [round], [dict], [difflib.get_close_matches]).

    Conventions of the embedding.
    - Python [float] values that flow through the nutrition arithmetic are
      IEEE 754 binary64 numbers ([PrimFloat.float]); the arithmetic is the
      hardware arithmetic, nothing is idealised.
    - A weight is a [float].  A JSON integer of magnitude below 2^53 behaves
      in [search] exactly like the float of the same value (same comparison
      with 0, same quotient by 100.0); larger integers are not covered.
    - Similarity scores ([difflib]'s ratio and the cosine scores) are kept as
      exact rationals: [difflib] computes [2.0 * M / T] from two machine
      integers, and the comparisons made on such quotients are those of the
      rationals for every sequence length that can occur.  The thresholds
      are rationals accordingly.
    - Text is ASCII ([string]); [str.lower] acts on the letters A-Z.
    - The CSV file is read outside the embedding: [_load_data] starts from
      the rows with their numeric cells already converted.  The reading of
      the cells is modelled apart, in [Csv], with [float] on text as a
      parameter; what [open] or the reader raises, other than for a
      missing file, is kept as an opaque description.
    - The sentence encoder and the cosine similarity of its tensors are
      external; the engine receives them as a record of functions.
    - [difflib] and [heapq] are those of CPython 3.11. *)

From Stdlib Require Import ZArith QArith Floats String Ascii List Bool Arith Lia
  Sorted Permutation Lqa.
From Stdlib Require OrderedTypeEx.
Import ListNotations.

Set Warnings "-inexact-float".
Close Scope Q_scope.

(* ================================================================== *)
(** ** Python run-time pieces *)

Module Py.

(** Exceptions that can leave the engine. *)
Inductive exn : Type :=
| ValueError (msg : string)
| AttributeError (msg : string)
| IndexError (msg : string)
| RuntimeError (msg : string).

(** A computation either returns or raises. *)
Inductive result (A : Type) : Type :=
| Ok (a : A)
| Raise (e : exn).
Arguments Ok {A} a.
Arguments Raise {A} e.

Definition bind {A B : Type} (m : result A) (k : A -> result B) : result B :=
  match m with
  | Ok a => k a
  | Raise e => Raise e
  end.

Fixpoint mapM {A B : Type} (f : A -> result B) (l : list A) : result (list B) :=
  match l with
  | [] => Ok []
  | x :: l' =>
      bind (f x) (fun y => bind (mapM f l') (fun ys => Ok (y :: ys)))
  end.

(** [str.lower()] on ASCII text. *)
Definition lower_ascii (c : ascii) : ascii :=
  let n := nat_of_ascii c in
  if (65 <=? n)%nat && (n <=? 90)%nat then ascii_of_nat (n + 32) else c.

Fixpoint lower (s : string) : string :=
  match s with
  | EmptyString => EmptyString
  | String c s' => String (lower_ascii c) (lower s')
  end.

(** Truth value of a [str]: only the empty string is false. *)
Definition truthy (s : string) : bool := negb (String.eqb s EmptyString).

(** An insertion-ordered [dict] with string keys. *)
Definition dict (V : Type) : Type := list (string * V).

Fixpoint dict_get {V : Type} (d : dict V) (k : string) : option V :=
  match d with
  | [] => None
  | (k', v) :: d' => if String.eqb k' k then Some v else dict_get d' k
  end.

(** [d[k] = v]: an existing key keeps its position, a new key goes last. *)
Fixpoint dict_set {V : Type} (d : dict V) (k : string) (v : V) : dict V :=
  match d with
  | [] => [(k, v)]
  | (k', v') :: d' =>
      if String.eqb k' k then (k', v) :: d' else (k', v') :: dict_set d' k v
  end.

Definition keys {V : Type} (d : dict V) : list string := map fst d.

(** Nearest integer to [m / 2^p], ties to the even one. *)
Definition round_half_even (m : Z) (p : Z) : Z :=
  let q := Z.shiftr m p in
  let r := Z.land m (Z.ones p) in
  let half := Z.shiftl 1 (p - 1) in
  if (r <? half)%Z then q
  else if (half <? r)%Z then (q + 1)%Z
  else if Z.even q then q else (q + 1)%Z.

(** [round(x, 0)] on a float: infinities and NaN are returned unchanged, a
    finite value is correctly rounded to an integral float (ties to even),
    and the sign of the argument is kept (so [round(-0.3, 0)] is [-0.0]).
    A float whose exponent is non-negative is already integral; otherwise
    its magnitude is below 2^52 and so is the rounded integer, which
    [of_uint63] converts without error. *)
Definition round0 (x : float) : float :=
  match Prim2SF x with
  | S754_finite s m e =>
      if (0 <=? e)%Z then x
      else
        let r := of_uint63 (Uint63.of_Z (round_half_even (Z.pos m) (- e))) in
        if s then (- r)%float else r
  | _ => x
  end.

End Py.

Notation "x <- m ;; k" := (Py.bind m (fun x => k))
  (at level 61, m at next level, right associativity).

(* ================================================================== *)
(** ** [difflib]: [SequenceMatcher] and [get_close_matches] *)

Module Difflib.

Import Py.

(** The sequences compared are strings, seen as lists of characters. *)
Definition chars (s : string) : list ascii := list_ascii_of_string s.

(** Positions of [elt] in [b], ascending, counted from [i]. *)
Fixpoint indices (b : list ascii) (elt : ascii) (i : nat) : list nat :=
  match b with
  | [] => []
  | c :: b' =>
      if Ascii.eqb c elt then i :: indices b' elt (S i) else indices b' elt (S i)
  end.

(** [__chain_b], the "popular" heuristic ([autojunk] is on): when [b] has
    at least 200 elements, an element that occurs more than
    [len(b) // 100 + 1] times is dropped from [b2j]. *)
Definition popular (b : list ascii) (elt : ascii) : bool :=
  (200 <=? length b)%nat
  && (length b / 100 + 1 <? length (indices b elt 0))%nat.

(** [b2j.get(elt, [])]. *)
Definition b2j (b : list ascii) (elt : ascii) : list nat :=
  if popular b elt then [] else indices b elt 0.

(** No [isjunk] function is given, so the junk set is empty. *)
Definition isbjunk (c : ascii) : bool := false.

(** [j2len]: a dict from positions of [b] to run lengths. *)
Definition j2len_t : Type := list (nat * nat).

Fixpoint j2len_find (m : j2len_t) (j : nat) : option nat :=
  match m with
  | [] => None
  | (j', k) :: m' => if (j' =? j)%nat then Some k else j2len_find m' j
  end.

(** [j2len.get(j - 1, 0)]; position [-1] is never a key. *)
Definition j2lenget_pred (m : j2len_t) (j : nat) : nat :=
  match j with
  | O => 0
  | S j' => match j2len_find m j' with Some k => k | None => 0 end
  end.

Definition best_t : Type := (nat * nat * nat)%type.

Definition elt_at (s : list ascii) (i : nat) : ascii := nth i s Ascii.zero.

(** The inner loop of [find_longest_match]: [for j in b2j.get(a[i], nothing)]. *)
Fixpoint scan_row (i blo bhi : nat) (j2len : j2len_t) (js : list nat)
  (newj2len : j2len_t) (best : best_t) : j2len_t * best_t :=
  match js with
  | [] => (newj2len, best)
  | j :: js' =>
      if (j <? blo)%nat then scan_row i blo bhi j2len js' newj2len best
      else if (bhi <=? j)%nat then (newj2len, best)
      else
        let k := j2lenget_pred j2len j + 1 in
        let best' :=
          let '(_, _, bestsize) := best in
          if (bestsize <? k)%nat then (i + 1 - k, j + 1 - k, k) else best in
        scan_row i blo bhi j2len js' ((j, k) :: newj2len) best'
  end.

(** The outer loop: [for i in range(alo, ahi)]. *)
Fixpoint scan_rows (a b : list ascii) (blo bhi : nat) (rows : list nat)
  (j2len : j2len_t) (best : best_t) : best_t :=
  match rows with
  | [] => best
  | i :: rows' =>
      let '(newj2len, best') :=
        scan_row i blo bhi j2len (b2j b (elt_at a i)) [] best in
      scan_rows a b blo bhi rows' newj2len best'
  end.

(** [while besti > alo and bestj > blo and isbjunk(b[bestj-1]) == junk and
    a[besti-1] == b[bestj-1]]: one step to the left per turn. *)
Fixpoint extend_left (junk : bool) (a b : list ascii) (alo blo : nat)
  (besti bestj bestsize : nat) : best_t :=
  match besti with
  | O => (besti, bestj, bestsize)
  | S i' =>
      if (alo <? besti)%nat && (blo <? bestj)%nat
         && Bool.eqb (isbjunk (elt_at b (bestj - 1))) junk
         && Ascii.eqb (elt_at a i') (elt_at b (bestj - 1))
      then extend_left junk a b alo blo i' (bestj - 1) (bestsize + 1)
      else (besti, bestj, bestsize)
  end.

(** [while besti+bestsize < ahi and bestj+bestsize < bhi and ...]: one step
    to the right per turn; [room] counts the turns that can still be made. *)
Fixpoint extend_right (junk : bool) (a b : list ascii) (ahi bhi : nat)
  (room : nat) (besti bestj bestsize : nat) : best_t :=
  match room with
  | O => (besti, bestj, bestsize)
  | S room' =>
      if (besti + bestsize <? ahi)%nat && (bestj + bestsize <? bhi)%nat
         && Bool.eqb (isbjunk (elt_at b (bestj + bestsize))) junk
         && Ascii.eqb (elt_at a (besti + bestsize)) (elt_at b (bestj + bestsize))
      then extend_right junk a b ahi bhi room' besti bestj (bestsize + 1)
      else (besti, bestj, bestsize)
  end.

Definition find_longest_match (a b : list ascii) (alo ahi blo bhi : nat) : best_t :=
  let '(i0, j0, k0) :=
    scan_rows a b blo bhi (seq alo (ahi - alo)) [] (alo, blo, 0) in
  let '(i1, j1, k1) := extend_left false a b alo blo i0 j0 k0 in
  let '(i2, j2, k2) := extend_right false a b ahi bhi (ahi - (i1 + k1)) i1 j1 k1 in
  let '(i3, j3, k3) := extend_left true a b alo blo i2 j2 k2 in
  extend_right true a b ahi bhi (ahi - (i3 + k3)) i3 j3 k3.

(** A rectangle [(alo, ahi, blo, bhi)] still to be searched. *)
Definition rect_t : Type := (nat * nat * nat * nat)%type.

(** The loop of [get_matching_blocks].  [queue] is the work list, its head
    being the end of the Python list, where [pop] and [append] act.  Each
    turn takes a rectangle away and adds at most two, narrower by the
    block found; [fuel] counts the turns. *)
Fixpoint matching_loop (fuel : nat) (a b : list ascii) (queue : list rect_t)
  (matching_blocks : list best_t) : list best_t :=
  match fuel, queue with
  | S fuel', (alo, ahi, blo, bhi) :: queue' =>
      let '(i, j, k) := find_longest_match a b alo ahi blo bhi in
      if (k =? 0)%nat then matching_loop fuel' a b queue' matching_blocks
      else
        matching_loop fuel' a b
          ((if (i + k <? ahi)%nat && (j + k <? bhi)%nat
            then [(i + k, ahi, j + k, bhi)] else [])
           ++ (if (alo <? i)%nat && (blo <? j)%nat
               then [(alo, i, blo, j)] else [])
           ++ queue')
          (matching_blocks ++ [(i, j, k)])
  | _, _ => matching_blocks
  end.

(** [matching_blocks.sort()]: triples compare lexicographically. *)
Definition block_leb (x y : best_t) : bool :=
  let '(i1, j1, k1) := x in
  let '(i2, j2, k2) := y in
  if (i1 =? i2)%nat then
    if (j1 =? j2)%nat then (k1 <=? k2)%nat else (j1 <? j2)%nat
  else (i1 <? i2)%nat.

Fixpoint insert_block (x : best_t) (l : list best_t) : list best_t :=
  match l with
  | [] => [x]
  | y :: l' => if block_leb x y then x :: l else y :: insert_block x l'
  end.

Definition sort_blocks (l : list best_t) : list best_t :=
  fold_right insert_block [] l.

(** The pass that merges adjacent equal blocks. *)
Fixpoint collapse (cur : best_t) (l : list best_t) : list best_t :=
  let '(i1, j1, k1) := cur in
  match l with
  | [] => if (k1 =? 0)%nat then [] else [cur]
  | (i2, j2, k2) :: l' =>
      if (i1 + k1 =? i2)%nat && (j1 + k1 =? j2)%nat
      then collapse (i1, j1, k1 + k2) l'
      else (if (k1 =? 0)%nat then [] else [cur]) ++ collapse (i2, j2, k2) l'
  end.

Definition get_matching_blocks (a b : list ascii) : list best_t :=
  let la := length a in
  let lb := length b in
  let matching_blocks :=
    matching_loop (2 * la + 1) a b [(0, la, 0, lb)] [] in
  collapse (0, 0, 0) (sort_blocks matching_blocks) ++ [(la, lb, 0)].

(** [_calculate_ratio]: [2.0 * matches / length], and [1.0] for length 0. *)
Definition _calculate_ratio (matches length : nat) : Q :=
  if (length =? 0)%nat then 1%Q
  else (2 * inject_Z (Z.of_nat matches) / inject_Z (Z.of_nat length))%Q.

(** [SequenceMatcher.ratio]. *)
Definition ratio (a b : list ascii) : Q :=
  let matches :=
    fold_left (fun acc t => acc + snd t) (get_matching_blocks a b) 0 in
  _calculate_ratio matches (length a + length b).

(** [SequenceMatcher.quick_ratio]: [avail] maps an element to how many of
    its occurrences in [b] are still unmatched (it may go negative). *)
Fixpoint avail_find (avail : list (ascii * Z)) (elt : ascii) : option Z :=
  match avail with
  | [] => None
  | (c, n) :: avail' => if Ascii.eqb c elt then Some n else avail_find avail' elt
  end.

Definition fullbcount (b : list ascii) (elt : ascii) : Z :=
  Z.of_nat (length (indices b elt 0)).

Fixpoint quick_matches (b : list ascii) (a : list ascii)
  (avail : list (ascii * Z)) (matches : nat) : nat :=
  match a with
  | [] => matches
  | elt :: a' =>
      let numb :=
        match avail_find avail elt with
        | Some n => n
        | None => fullbcount b elt
        end in
      quick_matches b a' ((elt, numb - 1)%Z :: avail)
        (if (0 <? numb)%Z then matches + 1 else matches)
  end.

Definition quick_ratio (a b : list ascii) : Q :=
  _calculate_ratio (quick_matches b a [] 0) (length a + length b).

(** [SequenceMatcher.real_quick_ratio]. *)
Definition real_quick_ratio (a b : list ascii) : Q :=
  _calculate_ratio (Nat.min (length a) (length b)) (length a + length b).

(** Order on the pairs [(score, x)], as Python compares tuples. *)
Definition pair_gt (p q : Q * string) : bool :=
  if Qeq_bool (fst p) (fst q) then String.ltb (snd q) (snd p)
  else negb (Qle_bool (fst p) (fst q)).

(** [max(iterable)]: the first of the largest items. *)
Fixpoint max_from (cur : Q * string) (l : list (Q * string)) : Q * string :=
  match l with
  | [] => cur
  | p :: l' => max_from (if pair_gt p cur then p else cur) l'
  end.

(** [sorted(iterable, reverse=True)], by insertion, stable. *)
Fixpoint insert_desc (p : Q * string) (l : list (Q * string)) : list (Q * string) :=
  match l with
  | [] => [p]
  | q :: l' => if pair_gt p q then p :: l else q :: insert_desc p l'
  end.

Definition sorted_desc (l : list (Q * string)) : list (Q * string) :=
  fold_right insert_desc [] l.

(** [heapq.nlargest(n, iterable)]; [n == 1] takes the short cut through
    [max]. *)
Definition nlargest (n : nat) (l : list (Q * string)) : list (Q * string) :=
  if (n =? 1)%nat then
    match l with
    | [] => []
    | p :: l' => [max_from p l']
    end
  else firstn n (sorted_desc l).

(** The candidates that pass the three tests, with their scores. *)
Definition close_enough (word : string) (cutoff : Q) (x : string) : bool :=
  Qle_bool cutoff (real_quick_ratio (chars x) (chars word))
  && Qle_bool cutoff (quick_ratio (chars x) (chars word))
  && Qle_bool cutoff (ratio (chars x) (chars word)).

Definition scored (word : string) (cutoff : Q) (possibilities : list string)
  : list (Q * string) :=
  map (fun x => (ratio (chars x) (chars word), x))
      (filter (close_enough word cutoff) possibilities).

Definition get_close_matches (word : string) (possibilities : list string)
  (n : nat) (cutoff : Q) : result (list string) :=
  if negb (0 <? n)%nat then Raise (ValueError "n must be > 0")
  else if negb (Qle_bool 0 cutoff && Qle_bool cutoff 1)
  then Raise (ValueError "cutoff must be in [0.0, 1.0]")
  else Ok (map snd (nlargest n (scored word cutoff possibilities))).

End Difflib.

(* ================================================================== *)
(** ** [search.py]: class [IngredientNutritionSearch] *)

Module Search.

Import Py.

(** The nutrition values of one ingredient, per 100 grams. *)
Record NutritionRecord : Type := {
  calories : float;
  fats : float;
  proteins : float;
  carbohydrates : float
}.

(** A row of the CSV file once its cells are read: the name, and the four
    numbers that [float(...)] makes of the cells [calories], [total_fat],
    [protein] and [carbohydrate]. *)
Record Row : Type := {
  name : string;
  row_calories : float;
  total_fat : float;
  protein : float;
  carbohydrate : float
}.

(** The sentence encoder: [encode] may raise; [cos_sim] is the cosine
    score of two of its tensors, as [.item()] reads it. *)
Record SentenceTransformer : Type := {
  tensor : Type;
  encode : string -> result tensor;
  cos_sim : tensor -> tensor -> Q
}.

(** The attributes of an instance. *)
Record IngredientNutritionSearch : Type := {
  encoder : SentenceTransformer;
  data : dict NutritionRecord;
  _ingredients : list string;
  _embeddings : list (tensor encoder)
}.

(** [_load_data]: the dict comprehension over the rows. *)
Definition _load_data (rows : list Row) : dict NutritionRecord :=
  fold_left
    (fun ingredients row =>
       dict_set ingredients (lower (name row))
         {| calories := row_calories row;
            fats := total_fat row;
            proteins := protein row;
            carbohydrates := carbohydrate row |})
    rows [].

(** [__init__]: the table, the list of its keys, their embeddings. *)
Definition __init__ (rows : list Row) (model : SentenceTransformer)
  : result IngredientNutritionSearch :=
  let data := _load_data rows in
  let ingredients := keys data in
  embeddings <- mapM (encode model) ingredients ;;
  Ok {| encoder := model;
        data := data;
        _ingredients := ingredients;
        _embeddings := embeddings |}.

(** The default value of [threshold] in both matchers. *)
Definition default_threshold : Q := 0.6%Q.

(** The default value of [search_type]. *)
Definition default_search_type : string := "fuzzy".

Definition _fuzzy_search (self : IngredientNutritionSearch)
  (ingredient_name : string) (threshold : Q) : result (option string) :=
  matches <- Difflib.get_close_matches
               (lower ingredient_name) (_ingredients self) 1 threshold ;;
  match matches with
  | m :: _ => Ok (Some m)
  | [] => Ok None
  end.

(** [tensor.argmax()]: the position of the first largest score; an empty
    tensor has none. *)
Fixpoint argmax_from (best_index : nat) (best : Q) (i : nat) (l : list Q) : nat :=
  match l with
  | [] => best_index
  | x :: l' =>
      if Qle_bool x best then argmax_from best_index best (S i) l'
      else argmax_from i x (S i) l'
  end.

Definition argmax (scores : list Q) : result nat :=
  match scores with
  | [] => Raise (RuntimeError "argmax of an empty tensor")
  | x :: l => Ok (argmax_from 0 x 1 l)
  end.

Definition _semantic_search (self : IngredientNutritionSearch)
  (ingredient_name : string) (threshold : Q) : result (option string) :=
  ingredient_embedding <- encode (encoder self) (lower ingredient_name) ;;
  let cosine_scores :=
    map (cos_sim (encoder self) ingredient_embedding) (_embeddings self) in
  max_index <- argmax cosine_scores ;;
  let max_score := nth max_index cosine_scores 0%Q in
  if Qle_bool threshold max_score then
    match nth_error (_ingredients self) max_index with
    | Some m => Ok (Some m)
    | None => Raise (IndexError "list index out of range")
    end
  else Ok None.

(** What [search] stores under the raw name: [{}] or the matched record. *)
Inductive result_data : Type :=
| NoMatch
| Matched (match_ : string) (weight : float) (scaled : NutritionRecord).

(** [round(value * (ingredient_weight / 100.0), 0)]. *)
Definition scale (ingredient_weight : float) (value : float) : float :=
  round0 (value * (ingredient_weight / 100))%float.

Definition scale_record (ingredient_weight : float) (d : NutritionRecord)
  : NutritionRecord :=
  {| calories := scale ingredient_weight (calories d);
     fats := scale ingredient_weight (fats d);
     proteins := scale ingredient_weight (proteins d);
     carbohydrates := scale ingredient_weight (carbohydrates d) |}.

(** The matcher call of the loop body; neither matcher is given a threshold. *)
Definition dispatch (self : IngredientNutritionSearch) (search_type : string)
  (ingredient_name : string) : result (option string) :=
  if String.eqb search_type "fuzzy" then
    _fuzzy_search self ingredient_name default_threshold
  else if String.eqb search_type "semantic" then
    _semantic_search self ingredient_name default_threshold
  else Ok None.

(** The loop of [search] over [img_ingredients.items()]. *)
Fixpoint search_loop (self : IngredientNutritionSearch) (search_type : string)
  (items : list (string * float)) (results : list (string * result_data))
  : result (list (string * result_data)) :=
  match items with
  | [] => Ok results
  | (ingredient_name, ingredient_weight) :: items' =>
      if (0 <? ingredient_weight)%float then
        match_ <- dispatch self search_type ingredient_name ;;
        match match_ with
        | Some m =>
            if truthy m then
              match dict_get (data self) m with
              | Some ingredient_data =>
                  search_loop self search_type items'
                    (results ++
                     [(ingredient_name,
                       Matched m ingredient_weight
                         (scale_record ingredient_weight ingredient_data))])
              | None =>
                  Raise (AttributeError "'NoneType' object has no attribute 'items'")
              end
            else search_loop self search_type items'
                   (results ++ [(ingredient_name, NoMatch)])
        | None =>
            search_loop self search_type items'
              (results ++ [(ingredient_name, NoMatch)])
        end
      else search_loop self search_type items' results
  end.

Definition search (self : IngredientNutritionSearch)
  (img_ingredients : list (string * float)) (search_type : string)
  : result (list (string * result_data)) :=
  if negb (String.eqb search_type "fuzzy" || String.eqb search_type "semantic")
  then Raise (ValueError "`search_type` must be either 'fuzzy' or 'semantic'")
  else search_loop self search_type img_ingredients [].

End Search.

(* ================================================================== *)
(** ** Notions used to state and prove the properties *)

Module Notions.

Import Py Difflib Search.

(** *** About [find_longest_match] *)

(** A block inside the rectangle [alo..ahi) x [blo..bhi) whose two sides
    agree element by element. *)
Definition good (a b : list ascii) (alo ahi blo bhi : nat) (t : best_t) : Prop :=
  let '(i, j, k) := t in
  alo <= i /\ i + k <= ahi /\ blo <= j /\ j + k <= bhi /\
  forall t, t < k -> elt_at a (i + t) = elt_at b (j + t).

(** An entry [(j, k)] of the row of [i]: the [k] elements that end at [i]
    in [a] and at [j] in [b] agree, and stay inside the rectangle. *)
Definition run_ok (a b : list ascii) (alo blo bhi : nat) (i : nat)
  (e : nat * nat) : Prop :=
  let '(j, k) := e in
  1 <= k /\ alo + k <= i + 1 /\ blo + k <= j + 1 /\ j < bhi /\
  forall t, t < k -> elt_at a (i - t) = elt_at b (j - t).

(** The row handed to the scan of [i] is the row of [i - 1]. *)
Definition prev_ok (a b : list ascii) (alo blo bhi : nat) (i : nat)
  (m : j2len_t) : Prop :=
  forall e, In e m -> 1 <= i /\ run_ok a b alo blo bhi (i - 1) e.

(** *** About the matching blocks *)

(** The blocks below a rectangle as the recursion that [difflib] unrolls
    into its work list: the longest block, the blocks to its left, the
    blocks to its right.  [blocks] lists them in increasing order,
    [preorder] in the order in which the loop finds them. *)
Fixpoint blocks (fuel : nat) (a b : list ascii) (alo ahi blo bhi : nat)
  : list best_t :=
  match fuel with
  | O => []
  | S fuel' =>
      let '(i, j, k) := find_longest_match a b alo ahi blo bhi in
      if (k =? 0)%nat then []
      else
        (if (alo <? i)%nat && (blo <? j)%nat
         then blocks fuel' a b alo i blo j else [])
        ++ (i, j, k)
        :: (if (i + k <? ahi)%nat && (j + k <? bhi)%nat
            then blocks fuel' a b (i + k) ahi (j + k) bhi else [])
  end.

Fixpoint preorder (fuel : nat) (a b : list ascii) (alo ahi blo bhi : nat)
  : list best_t :=
  match fuel with
  | O => []
  | S fuel' =>
      let '(i, j, k) := find_longest_match a b alo ahi blo bhi in
      if (k =? 0)%nat then []
      else
        (i, j, k)
        :: (if (i + k <? ahi)%nat && (j + k <? bhi)%nat
            then preorder fuel' a b (i + k) ahi (j + k) bhi else [])
        ++ (if (alo <? i)%nat && (blo <? j)%nat
            then preorder fuel' a b alo i blo j else [])
  end.

(** The blocks that the loop finds below one rectangle of its work list. *)
Definition found (a b : list ascii) (r : rect_t) : list best_t :=
  let '(alo, ahi, blo, bhi) := r in
  preorder (S (ahi - alo)) a b alo ahi blo bhi.

(** A bound on the turns that a work list still takes. *)
Definition work (queue : list rect_t) : nat :=
  fold_right (fun r acc => let '(alo, ahi, _, _) := r in 2 * (ahi - alo) + 1 + acc)
    0 queue.

Definition valid_rect (r : rect_t) : Prop :=
  let '(alo, ahi, blo, bhi) := r in alo <= ahi /\ blo <= bhi.

(** Total size of a list of blocks. *)
Definition msum (l : list best_t) : nat :=
  fold_left (fun acc t => acc + snd t) l 0.

(** The number of matches that [ratio] counts, by the recursion. *)
Definition matches (a b : list ascii) : nat :=
  msum (blocks (S (length a)) a b 0 (length a) 0 (length b)).

(** The elements of [s] at positions [lo .. hi - 1]. *)
Definition seg (s : list ascii) (lo hi : nat) : list ascii :=
  firstn (hi - lo) (skipn lo s).

(** The elements of [a] that a list of blocks covers. *)
Definition content (a : list ascii) (bl : list best_t) : list ascii :=
  flat_map (fun t => seg a (fst (fst t)) (fst (fst t) + snd t)) bl.

(** *** About [quick_ratio] *)

(** What the loop of [quick_ratio] counts, with the elements already seen
    in place of the dict [avail]. *)
Fixpoint unseen_matches (b a seen : list ascii) : nat :=
  match a with
  | [] => 0
  | x :: a' =>
      (if count_occ ascii_dec seen x <? count_occ ascii_dec b x then 1 else 0)
      + unseen_matches b a' (x :: seen)
  end.

(** [avail] holds, for every element seen, what is left of it in [b]. *)
Definition avail_rep (b : list ascii) (avail : list (ascii * Z))
  (seen : list ascii) : Prop :=
  forall c,
    avail_find avail c =
    if count_occ ascii_dec seen c =? 0 then None
    else Some (fullbcount b c - Z.of_nat (count_occ ascii_dec seen c))%Z.

(** *** About a sequence compared with itself *)

(** [j2len.get(j, 0)]. *)
Definition lookup (m : j2len_t) (j : nat) : nat :=
  match j2len_find m j with Some k => k | None => 0 end.

(** The cell [(i, j)] of the table is filled: the two elements agree and
    are not popular. *)
Definition cell (s : list ascii) (i j : nat) : bool :=
  (i <? length s) && (j <? length s) && Ascii.eqb (elt_at s i) (elt_at s j)
  && negb (popular s (elt_at s j)).

(** The length of the run of filled cells that ends at [(i, j)]. *)
Fixpoint run (s : list ascii) (i j : nat) : nat :=
  match i with
  | O => if cell s 0 j then 1 else 0
  | S i' =>
      if cell s (S i') j
      then S (match j with O => 0 | S j' => run s i' j' end)
      else 0
  end.

Definition prevrun (s : list ascii) (i j : nat) : nat :=
  match i, j with
  | S i', S j' => run s i' j'
  | _, _ => 0
  end.

(** The row handed to the scan of [i] holds the runs of row [i - 1]. *)
Definition rep_prev (s : list ascii) (i : nat) (m : j2len_t) : Prop :=
  forall j, j2lenget_pred m j = prevrun s i j.

(** The best block lies on the diagonal and is at least as long as every
    run seen so far: all runs of the rows above [i], and the runs of row
    [i] except those at the positions still to be scanned. *)
Definition diag_best (s : list ascii) (i : nat) (rest : list nat)
  (best : best_t) : Prop :=
  let '(bi, bj, bk) := best in
  bi = bj /\
  (forall i' j', i' < i -> run s i' j' <= bk) /\
  (forall j', run s i j' <= bk \/ In j' rest).

(** *** About the engine *)

(** What [__init__] establishes. *)
Record well_formed (self : IngredientNutritionSearch) : Prop := {
  wf_ingredients : _ingredients self = keys (data self);
  wf_embeddings : length (_embeddings self) = length (_ingredients self);
  wf_nodup : NoDup (keys (data self));
  wf_lower : forall k, In k (keys (data self)) -> lower k = k
}.

(** The entry a request item leaves in the result, if any: the body of the
    loop of [search]. *)
Definition turn (self : IngredientNutritionSearch) (search_type : string)
  (item : string * float) : result (list (string * result_data)) :=
  let '(ingredient_name, ingredient_weight) := item in
  if (0 <? ingredient_weight)%float then
    match_ <- dispatch self search_type ingredient_name ;;
    match match_ with
    | Some m =>
        if truthy m then
          match dict_get (data self) m with
          | Some d =>
              Ok [(ingredient_name,
                   Matched m ingredient_weight (scale_record ingredient_weight d))]
          | None =>
              Raise (AttributeError "'NoneType' object has no attribute 'items'")
          end
        else Ok [(ingredient_name, NoMatch)]
    | None => Ok [(ingredient_name, NoMatch)]
    end
  else Ok [].

(** What a turn that returns leaves behind. *)
Definition entry_of (self : IngredientNutritionSearch) (search_type : string)
  (item : string * float) (entry : string * result_data) : Prop :=
  fst entry = fst item /\
  (0 <? snd item)%float = true /\
  exists match_,
    dispatch self search_type (fst item) = Ok match_ /\
    match snd entry with
    | NoMatch => match_ = None \/ match_ = Some EmptyString
    | Matched m w scaled =>
        match_ = Some m /\ m <> EmptyString /\ w = snd item /\
        exists d, dict_get (data self) m = Some d /\ scaled = scale_record w d
    end.

(** *** About [round] *)

(** The float is finite and its value [m * 2^e] is an integer. *)
Definition integral (x : float) : bool :=
  match Prim2SF x with
  | S754_zero _ => true
  | S754_finite _ m e => (0 <=? e)%Z || (Z.pos m mod 2 ^ (- e) =? 0)%Z
  | _ => false
  end.

End Notions.

(* ================================================================== *)
(** ** Concrete engines used to exercise the statements *)

Module Fixtures.

Import Py Search.

Local Open Scope string_scope.

(** A stand-in for the sentence encoder: the embedding of a text is its
    length, and two embeddings score 1 when equal and 0 otherwise. *)
Definition length_model : SentenceTransformer :=
  {| tensor := nat;
     encode := fun s => Ok (String.length s);
     cos_sim := fun x y => if Nat.eqb x y then 1%Q else 0%Q |}.

(** The same encoder, except that it raises on the text "kiwi". *)
Definition fragile_model : SentenceTransformer :=
  {| tensor := nat;
     encode := fun s =>
       if String.eqb s "kiwi" then Raise (RuntimeError "encoder failure")
       else Ok (String.length s);
     cos_sim := fun x y => if Nat.eqb x y then 1%Q else 0%Q |}.

Definition apple : NutritionRecord :=
  {| calories := 52; fats := 0.2; proteins := 0.3; carbohydrates := 13.8 |}.

Definition banana : NutritionRecord :=
  {| calories := 89; fats := 0.3; proteins := 1.1; carbohydrates := 22.8 |}.

Definition fruit_rows : list Row :=
  [ {| name := "apple"; row_calories := 52; total_fat := 0.2;
       protein := 0.3; carbohydrate := 13.8 |};
    {| name := "banana"; row_calories := 89; total_fat := 0.3;
       protein := 1.1; carbohydrate := 22.8 |} ].

Definition fruit_engine : IngredientNutritionSearch :=
  {| encoder := length_model;
     data := [("apple", apple); ("banana", banana)];
     _ingredients := ["apple"; "banana"];
     _embeddings := [5; 6] |}.

Definition fragile_engine : IngredientNutritionSearch :=
  {| encoder := fragile_model;
     data := [("apple", apple); ("banana", banana)];
     _ingredients := ["apple"; "banana"];
     _embeddings := [5; 6] |}.

(** Two names of the same length: the stand-in encoder cannot tell them
    apart. *)
Definition grape_rows : list Row :=
  [ {| name := "apple"; row_calories := 52; total_fat := 0.2;
       protein := 0.3; carbohydrate := 13.8 |};
    {| name := "grape"; row_calories := 69; total_fat := 0.2;
       protein := 0.7; carbohydrate := 18.1 |} ].

Definition grape_engine : IngredientNutritionSearch :=
  {| encoder := length_model;
     data := [("apple", apple);
              ("grape", {| calories := 69; fats := 0.2; proteins := 0.7;
                           carbohydrates := 18.1 |})];
     _ingredients := ["apple"; "grape"];
     _embeddings := [5; 5] |}.

(** A table with 7.5 g of protein per 100 g. *)
Definition ricotta_rows : list Row :=
  [ {| name := "Ricotta"; row_calories := 174; total_fat := 13;
       protein := 7.5; carbohydrate := 7.3 |} ].

Definition ricotta : NutritionRecord :=
  {| calories := 174; fats := 13; proteins := 7.5; carbohydrates := 7.3 |}.

Definition ricotta_engine : IngredientNutritionSearch :=
  {| encoder := length_model;
     data := [("ricotta", ricotta)];
     _ingredients := ["ricotta"];
     _embeddings := [7] |}.

(** A table with a row whose name is empty. *)
Definition nameless_rows : list Row :=
  [ {| name := ""; row_calories := 10; total_fat := 1;
       protein := 1; carbohydrate := 1 |} ].

End Fixtures.

(* ================================================================== *)
(** ** [_load_data], from the cells of the CSV file *)

Module Csv.

Import Py Search.

Local Open Scope string_scope.

(** A row as [csv.DictReader] yields it: a dict from the column names of
    the header to the cells of the line.  The cell of a line that is
    shorter than the header is [None]. *)
Definition csv_row : Type := dict (option string).

(** The file at [dataset_path], as the [try] block of [_load_data] meets
    it.  There is no file; or [open] raises something else than
    [FileNotFoundError] (the path is a directory, permission is denied,
    ...); or the file opens, and the reader yields some rows and then
    either ends or raises (undecodable bytes, [csv.Error], ...). *)
Inductive file : Type :=
| Absent
| Refused (what : string)
| Opened (rows : list csv_row) (failure : option string).

(** What can be raised inside the [try] block of [_load_data]. *)
Inductive raised : Type :=
| FileNotFound                   (* [open]: FileNotFoundError *)
| OpenError (what : string)      (* [open]: any other exception *)
| ReaderError (what : string)    (* the reader, on yielding a row *)
| MissingKey (column : string)   (* [row[column]]: KeyError *)
| NoneCell (column : string)     (* [.lower()], [.strip] or [float] of [None] *)
| BadFloat (text : string).      (* [float(text)]: ValueError *)

(** What leaves [_load_data] after its [except] clauses.  The wording of
    the messages is left out: a [KeyError] carries the column that was
    missing, an [Exception] what it was raised from. *)
Inductive load_exn : Type :=
| FileNotFoundError
| KeyError (column : string)
| Exception (cause : raised).

Inductive outcome (E A : Type) : Type :=
| Returns (a : A)
| Raises (e : E).
Arguments Returns {E A} a.
Arguments Raises {E A} e.

Definition and_then {E A B : Type} (m : outcome E A) (k : A -> outcome E B)
  : outcome E B :=
  match m with
  | Returns a => k a
  | Raises e => Raises e
  end.

Notation "x <~ m ;; k" := (and_then m (fun x => k))
  (at level 61, m at next level, right associativity).

(** [c in chars]. *)
Definition among (chars : string) (c : ascii) : bool :=
  existsb (Ascii.eqb c) (list_ascii_of_string chars).

(** [str.lstrip(chars)], [str.rstrip(chars)] and [str.strip(chars)]: the
    leading and the trailing characters that occur in [chars] go. *)
Fixpoint lstrip (chars : string) (s : string) : string :=
  match s with
  | EmptyString => EmptyString
  | String c s' => if among chars c then lstrip chars s' else s
  end.

Fixpoint rstrip (chars : string) (s : string) : string :=
  match s with
  | EmptyString => EmptyString
  | String c s' =>
      match rstrip chars s' with
      | EmptyString => if among chars c then EmptyString else String c EmptyString
      | r => String c r
      end
  end.

Definition strip (chars : string) (s : string) : string :=
  rstrip chars (lstrip chars s).

Section Loader.

(** [float(text)] on a [str]: [None] when it raises [ValueError]. *)
Variable float_of_str : string -> option float.

(** [row[column]]. *)
Definition getitem (row : csv_row) (column : string)
  : outcome raised (option string) :=
  match dict_get row column with
  | Some cell => Returns cell
  | None => Raises (MissingKey column)
  end.

(** The cell as a [str], for a method call or for [float]. *)
Definition text (column : string) (cell : option string) : outcome raised string :=
  match cell with
  | Some s => Returns s
  | None => Raises (NoneCell column)
  end.

Definition to_float (s : string) : outcome raised float :=
  match float_of_str s with
  | Some x => Returns x
  | None => Raises (BadFloat s)
  end.

(** The key and the value expressions of the comprehension for one row, in
    the order in which they are evaluated. *)
Definition read_row (row : csv_row) : outcome raised Row :=
  n <~ getitem row "name" ;;
  n <~ text "name" n ;;
  c <~ getitem row "calories" ;;
  c <~ text "calories" c ;;
  c <~ to_float c ;;
  f <~ getitem row "total_fat" ;;
  f <~ text "total_fat" f ;;
  f <~ to_float (strip "g" f) ;;
  p <~ getitem row "protein" ;;
  p <~ text "protein" p ;;
  p <~ to_float (strip "g" p) ;;
  h <~ getitem row "carbohydrate" ;;
  h <~ text "carbohydrate" h ;;
  h <~ to_float (strip "g" h) ;;
  Returns {| name := n; row_calories := c; total_fat := f;
             protein := p; carbohydrate := h |}.

(** The dict comprehension over the reader. *)
Fixpoint comprehension (rows : list csv_row) (ingredients : dict NutritionRecord)
  : outcome raised (dict NutritionRecord) :=
  match rows with
  | [] => Returns ingredients
  | row :: rows' =>
      r <~ read_row row ;;
      comprehension rows'
        (dict_set ingredients (lower (name r))
           {| calories := row_calories r;
              fats := total_fat r;
              proteins := protein r;
              carbohydrates := carbohydrate r |})
  end.

(** [_load_data]: the [try] block, then the [except] clauses.  The rows
    are read one by one as the comprehension asks for them, so a row that
    cannot be read is met before a later failure of the reader. *)
Definition _load_data_file (f : file)
  : outcome load_exn (dict NutritionRecord) :=
  let body :=
    match f with
    | Absent => Raises FileNotFound
    | Refused what => Raises (OpenError what)
    | Opened rows failure =>
        ingredients <~ comprehension rows [] ;;
        match failure with
        | None => Returns ingredients
        | Some what => Raises (ReaderError what)
        end
    end in
  match body with
  | Returns ingredients => Returns ingredients
  | Raises FileNotFound => Raises FileNotFoundError
  | Raises (MissingKey column) => Raises (KeyError column)
  | Raises e => Raises (Exception e)
  end.

End Loader.

End Csv.

(* ================================================================== *)
(** ** [utils.py]: the totals of [plot_nutritional_info] *)

Module Utils.

Import Py Search.

Local Open Scope string_scope.

(** What the chart is drawn from: the three sizes of the donut, the
    calories written in its centre, and the lines of the ingredient
    list. *)
Record totals : Type := {
  total_proteins : float;
  total_fats : float;
  total_carbohydrates : float;
  total_calories : float;
  ingredient_details : list string
}.

Section Plot.

(** The text that the f-string makes of [info["weight"]]. *)
Variable str_of_weight : float -> string.

(** The body of the loop for one entry [{name: info}] of the list that
    [search] returns; an empty [info] is skipped. *)
Definition add_ingredient (t : totals) (ingredient : string * result_data)
  : totals :=
  let '(raw, info) := ingredient in
  match info with
  | NoMatch => t
  | Matched _ weight values =>
      {| total_proteins := total_proteins t + proteins values;
         total_fats := total_fats t + fats values;
         total_carbohydrates := total_carbohydrates t + carbohydrates values;
         total_calories := total_calories t + calories values;
         ingredient_details :=
           ingredient_details t ++ [raw ++ ": " ++ str_of_weight weight ++ "g"] |}
  end.

(** [plot_nutritional_info], up to the drawing: the totals start from 0,
    which the first addition turns into a float. *)
Definition plot_nutritional_info (nutritional_info : list (string * result_data))
  : totals :=
  fold_left add_ingredient nutritional_info
    {| total_proteins := 0;
       total_fats := 0;
       total_carbohydrates := 0;
       total_calories := 0;
       ingredient_details := [] |}.

End Plot.

End Utils.

(* ================================================================== *)
(** ** Further notions and engines *)

Module Vocabulary.

Import Py Difflib Search Csv.

Local Open Scope string_scope.

(** The value [_load_data] stores for a row. *)
Definition record_of (r : Row) : NutritionRecord :=
  {| calories := row_calories r;
     fats := total_fat r;
     proteins := protein r;
     carbohydrates := carbohydrate r |}.

(** The key [_load_data] stores a row under. *)
Definition key_of (r : Row) : string := lower (name r).

(** The similarity of a candidate to the query, as [_fuzzy_search] has it. *)
Definition similarity (ingredient_name candidate : string) : Q :=
  ratio (chars candidate) (chars (lower ingredient_name)).

(** The cosine scores [_semantic_search] computes for a query embedding. *)
Definition cosine_scores (self : IngredientNutritionSearch)
  (t : tensor (encoder self)) : list Q :=
  map (cos_sim (encoder self) t) (_embeddings self).

(** The weight passes the test [ingredient_weight > 0]. *)
Definition positive_weight (item : string * float) : bool := (0 <? snd item)%float.

(** The float is not below zero: a zero of either sign, a positive number,
    plus infinity or NaN. *)
Definition not_negative (x : float) : bool := negb (x <? 0)%float.

Definition not_negative_record (d : NutritionRecord) : bool :=
  not_negative (calories d) && not_negative (fats d)
  && not_negative (proteins d) && not_negative (carbohydrates d).

(** The same two notions on the unpacked float: not below zero, and of
    the sign [s] unless NaN. *)
Definition sf_not_negative (r : spec_float) : bool :=
  match r with
  | S754_finite true _ _ | S754_infinity true => false
  | _ => true
  end.

Definition sf_signed (s : bool) (r : spec_float) : bool :=
  match r with
  | S754_nan => true
  | S754_zero s' | S754_infinity s' | S754_finite s' _ _ => Bool.eqb s' s
  end.

(** The entry holds a match: its [info] is not empty. *)
Definition matched (ingredient : string * result_data) : bool :=
  match snd ingredient with
  | NoMatch => false
  | Matched _ _ _ => true
  end.

(** No reported value of the entry is below zero. *)
Definition not_negative_entry (ingredient : string * result_data) : bool :=
  match snd ingredient with
  | NoMatch => true
  | Matched _ _ values => not_negative_record values
  end.

(** No total of the chart is below zero. *)
Definition totals_not_negative (t : Utils.totals) : bool :=
  not_negative (Utils.total_proteins t) && not_negative (Utils.total_fats t)
  && not_negative (Utils.total_carbohydrates t)
  && not_negative (Utils.total_calories t).

(** [y] is what [round(x, 0)] makes of [x].  A finite [x] of value
    [m * 2^e] gives a float that holds an integer: [x] itself when [e] is
    not negative, and otherwise the integer [z] nearest to [m / 2^(-e)],
    the even one of the two when [x] lies half-way between them, with the
    sign of [x].  A zero, an infinity and a NaN are given back as they
    are; the last two hold no integer. *)
Definition rounds_half_even (x y : float) : Prop :=
  y = round0 x /\
  match Prim2SF x with
  | S754_finite s m e =>
      Notions.integral y = true /\
      ((0 <= e)%Z -> y = x) /\
      ((e < 0)%Z ->
       exists z : Z,
         (2 * Z.abs (z * 2 ^ (- e) - Z.pos m) <= 2 ^ (- e))%Z /\
         ((2 * Z.abs (z * 2 ^ (- e) - Z.pos m) = 2 ^ (- e))%Z ->
          Z.even z = true) /\
         y = if s then (- of_uint63 (Uint63.of_Z z))%float
             else of_uint63 (Uint63.of_Z z))
  | S754_zero _ => y = x /\ Notions.integral y = true
  | S754_infinity _ | S754_nan => y = x /\ Notions.integral y = false
  end.

(** The record with each value rounded by [round(value, 0)]. *)
Definition round_record (d : NutritionRecord) : NutritionRecord :=
  {| calories := round0 (calories d);
     fats := round0 (fats d);
     proteins := round0 (proteins d);
     carbohydrates := round0 (carbohydrates d) |}.

(** The same row with the unit written after the three gram cells. *)
Definition with_unit (row : csv_row) : csv_row :=
  map (fun '(column, cell) =>
         if String.eqb column "total_fat" || String.eqb column "protein"
            || String.eqb column "carbohydrate"
         then (column, option_map (fun s => s ++ "g") cell)
         else (column, cell))
      row.

(** The columns [_load_data] reads. *)
Definition columns : list string :=
  ["name"; "calories"; "total_fat"; "protein"; "carbohydrate"].

(** What a row is like when reading it raises [e]: a column is missing, a
    cell is [None], or the text handed to [float] is no number. *)
Definition explains (float_of_str : string -> option float) (row : csv_row)
  (e : raised) : Prop :=
  match e with
  | FileNotFound | OpenError _ | ReaderError _ => False
  | MissingKey column => In column columns /\ dict_get row column = None
  | NoneCell column => In column columns /\ dict_get row column = Some None
  | BadFloat s =>
      float_of_str s = None /\
      exists column cell,
        In column (tl columns) /\ dict_get row column = Some (Some cell) /\
        s = if String.eqb column "calories" then cell else strip "g" cell
  end.

(** A stand-in for [float] on text: it reads unsigned decimal integers
    and rejects everything else. *)
Definition digit_of (c : ascii) : option Z :=
  let n := nat_of_ascii c in
  if (48 <=? n)%nat && (n <=? 57)%nat then Some (Z.of_nat (n - 48)) else None.

Fixpoint digits_value (s : string) (acc : Z) : option Z :=
  match s with
  | EmptyString => Some acc
  | String c s' =>
      match digit_of c with
      | Some d => digits_value s' (10 * acc + d)
      | None => None
      end
  end.

Definition float_of_digits (s : string) : option float :=
  match s with
  | EmptyString => None
  | _ => option_map (fun z => of_uint63 (Uint63.of_Z z)) (digits_value s 0)
  end.

(** The file of a table with one row for "Apple". *)
Definition apple_line : csv_row :=
  [("name", Some "Apple"); ("calories", Some "52"); ("total_fat", Some "0g");
   ("protein", Some "0g"); ("carbohydrate", Some "14g")].

(** A line without its last two cells. *)
Definition short_line : csv_row :=
  [("name", Some "Pear"); ("calories", Some "57"); ("total_fat", Some "0g");
   ("protein", None); ("carbohydrate", None)].

(** The last row of the table below. *)
Definition last_apple : Row :=
  {| name := "APPLE"; row_calories := 60; total_fat := 0.5;
     protein := 0.4; carbohydrate := 15 |}.

(** A table in which "Apple" comes twice, in two spellings. *)
Definition twice_rows : list Row :=
  [ {| name := "Apple"; row_calories := 52; total_fat := 0.2;
       protein := 0.3; carbohydrate := 13.8 |};
    {| name := "banana"; row_calories := 89; total_fat := 0.3;
       protein := 1.1; carbohydrate := 22.8 |};
    last_apple ].

Definition twice_engine : IngredientNutritionSearch :=
  {| encoder := Fixtures.length_model;
     data := [("apple", {| calories := 60; fats := 0.5; proteins := 0.4;
                           carbohydrates := 15 |});
              ("banana", Fixtures.banana)];
     _ingredients := ["apple"; "banana"];
     _embeddings := [5; 6] |}.

(** A table whose scaled values at 100 g lie half-way between two
    integers. *)
Definition halves : NutritionRecord :=
  {| calories := 0.5; fats := 1.5; proteins := 2.5; carbohydrates := 3.5 |}.

Definition halves_engine : IngredientNutritionSearch :=
  {| encoder := Fixtures.length_model;
     data := [("halves", halves)];
     _ingredients := ["halves"];
     _embeddings := [6] |}.

(** A table with a value near the largest float. *)
Definition dense : NutritionRecord :=
  {| calories := 1e308; fats := 0; proteins := 0; carbohydrates := 0 |}.

Definition dense_engine : IngredientNutritionSearch :=
  {| encoder := Fixtures.length_model;
     data := [("dense", dense)];
     _ingredients := ["dense"];
     _embeddings := [5] |}.

(** The engine of the fruit table with its rows in the other order. *)
Definition reversed_fruit_engine : IngredientNutritionSearch :=
  {| encoder := Fixtures.length_model;
     data := [("banana", Fixtures.banana); ("apple", Fixtures.apple)];
     _ingredients := ["banana"; "apple"];
     _embeddings := [6; 5] |}.

End Vocabulary.

(* ================================================================== *)
(** ** Facts about the run-time pieces *)

Module PyFacts.

Import Py.

Lemma lower_ascii_idem (c : ascii) : lower_ascii (lower_ascii c) = lower_ascii c.
Proof.
  destruct c as [[] [] [] [] [] [] [] []]; reflexivity.
Qed.

Lemma lower_idem (s : string) : lower (lower s) = lower s.
Proof.
  induction s as [|c s IH]; simpl.
  - reflexivity.
  - rewrite lower_ascii_idem, IH. reflexivity.
Qed.

Lemma truthy_iff (s : string) : truthy s = true <-> s <> EmptyString.
Proof.
  unfold truthy. destruct (String.eqb_spec s EmptyString); simpl; split;
    congruence.
Qed.

Section Dict.

Context {V : Type}.
Implicit Types (d : dict V) (k : string) (v : V).

Lemma dict_get_some_in d k v : dict_get d k = Some v -> In k (keys d).
Proof.
  induction d as [|[k' v'] d IH]; simpl; [discriminate|].
  destruct (String.eqb_spec k' k); intros H; auto.
Qed.

Lemma dict_get_in d k : In k (keys d) -> exists v, dict_get d k = Some v.
Proof.
  induction d as [|[k' v'] d IH]; simpl; [tauto|].
  intros [->|H].
  - rewrite String.eqb_refl. eauto.
  - destruct (String.eqb k' k); eauto.
Qed.

Lemma keys_dict_set d k v :
  keys (dict_set d k v) = if in_dec string_dec k (keys d) then keys d
                          else keys d ++ [k].
Proof.
  induction d as [|[k' v'] d IH]; simpl; [reflexivity|].
  destruct (String.eqb_spec k' k) as [->|Hne]; simpl.
  - destruct (string_dec k k); [|congruence].
    destruct (in_dec string_dec k (k :: keys d)) as [_|n]; [reflexivity|].
    exfalso; apply n; left; reflexivity.
  - unfold keys in *. rewrite IH.
    destruct (string_dec k' k); [congruence|].
    destruct (in_dec string_dec k (map fst d)) as [i|n'];
      destruct (in_dec string_dec k (k' :: map fst d)) as [i'|n''];
      try reflexivity.
    all: exfalso; simpl in *; intuition congruence.
Qed.

Lemma in_keys_dict_set d k v k0 :
  In k0 (keys (dict_set d k v)) <-> k0 = k \/ In k0 (keys d).
Proof.
  rewrite keys_dict_set.
  destruct (in_dec string_dec k (keys d)) as [i|n].
  - split; [tauto|]. intros [->|H]; assumption.
  - rewrite in_app_iff; simpl. split; intros H.
    + destruct H as [H|[H|[]]]; auto.
    + destruct H as [H|H]; auto.
Qed.

Lemma NoDup_keys_dict_set d k v : NoDup (keys d) -> NoDup (keys (dict_set d k v)).
Proof.
  intros H. rewrite keys_dict_set.
  destruct (in_dec string_dec k (keys d)) as [i|n]; [exact H|].
  apply NoDup_app; [exact H|repeat constructor; simpl; tauto|].
  intros x Hx [<-|[]]. contradiction.
Qed.

End Dict.

(** [mapM] keeps the length. *)
Lemma mapM_length {A B : Type} (f : A -> result B) (l : list A) (ys : list B) :
  mapM f l = Ok ys -> length ys = length l.
Proof.
  revert ys; induction l as [|x l IH]; simpl; intros ys H.
  - injection H as <-. reflexivity.
  - destruct (f x) as [y|e]; simpl in H; [|discriminate].
    destruct (mapM f l) as [ys'|e]; simpl in H; [|discriminate].
    injection H as <-. simpl. f_equal. apply IH. reflexivity.
Qed.

(** A weight that is [<= 0] is not [> 0]. *)
Lemma leb_0_not_gt (w : float) : (w <=? 0)%float = true -> (0 <? w)%float = false.
Proof.
  rewrite leb_spec, ltb_spec.
  change (Prim2SF 0) with (S754_zero false).
  unfold SFleb, SFltb.
  destruct (Prim2SF w) as [s|s| |s m e]; simpl; try reflexivity;
    destruct s; simpl; congruence.
Qed.

End PyFacts.

(* ================================================================== *)
(** ** [find_longest_match] returns a matching block inside its rectangle *)

Module FlmFacts.

Import Py Difflib Notions.

Lemma indices_spec (b : list ascii) (c : ascii) (i0 j : nat) :
  In j (indices b c i0) <-> i0 <= j /\ j - i0 < length b /\ nth (j - i0) b Ascii.zero = c.
Proof.
  revert i0; induction b as [|x b IH]; intros i0; simpl.
  - split; [tauto|]. intros (_ & H & _). lia.
  - assert (Hrec : In j (indices b c (S i0)) <->
              i0 < j /\ j - i0 < S (length b) /\ nth (j - i0) (x :: b) Ascii.zero = c).
    { rewrite IH. split.
      - intros (H1 & H2 & H3). replace (j - i0) with (S (j - S i0)) by lia.
        simpl. repeat split; try lia. exact H3.
      - intros (H1 & H2 & H3). replace (j - i0) with (S (j - S i0)) in H3 by lia.
        simpl in H3. repeat split; try lia. exact H3. }
    destruct (Ascii.eqb_spec x c) as [->|Hne]; simpl; rewrite Hrec.
    + split.
      * intros [<-|(H1 & H2 & H3)].
        -- rewrite Nat.sub_diag. repeat split; try lia.
        -- repeat split; try lia. exact H3.
      * intros (H1 & H2 & H3).
        destruct (Nat.eq_dec i0 j) as [->|Hd]; [left; reflexivity|right].
        repeat split; try lia. exact H3.
    + split.
      * intros (H1 & H2 & H3). repeat split; try lia. exact H3.
      * intros (H1 & H2 & H3).
        destruct (Nat.eq_dec i0 j) as [->|Hd].
        -- rewrite Nat.sub_diag in H3. simpl in H3. congruence.
        -- repeat split; try lia. exact H3.
Qed.

Lemma b2j_spec (b : list ascii) (c : ascii) (j : nat) :
  In j (b2j b c) <-> popular b c = false /\ j < length b /\ elt_at b j = c.
Proof.
  unfold b2j, elt_at. destruct (popular b c).
  - simpl. split; [tauto|]. intros (H & _); discriminate.
  - rewrite indices_spec, Nat.sub_0_r. split.
    + intros (_ & H2 & H3). auto.
    + intros (_ & H2 & H3). repeat split; auto. lia.
Qed.

Lemma j2len_find_in (m : j2len_t) (j k : nat) :
  j2len_find m j = Some k -> In (j, k) m.
Proof.
  induction m as [|[j' k'] m IH]; simpl; [discriminate|].
  destruct (Nat.eqb_spec j' j) as [->|Hne].
  - intros H; injection H as ->. left; reflexivity.
  - intros H; right; auto.
Qed.

Section Rectangle.

Variables a b : list ascii.
Variables alo ahi blo bhi : nat.

Local Abbreviation good := (Notions.good a b alo ahi blo bhi).
Local Abbreviation run_ok := (Notions.run_ok a b alo blo bhi).
Local Abbreviation prev_ok := (Notions.prev_ok a b alo blo bhi).

Lemma run_ok_good (i j k : nat) :
  i < ahi -> run_ok i (j, k) -> good (i + 1 - k, j + 1 - k, k).
Proof.
  intros Hi (H1 & H2 & H3 & H4 & H5). unfold Notions.good.
  repeat split; try lia.
  intros t Ht. specialize (H5 (k - 1 - t) ltac:(lia)).
  replace (i + 1 - k + t) with (i - (k - 1 - t)) by lia.
  replace (j + 1 - k + t) with (j - (k - 1 - t)) by lia.
  exact H5.
Qed.

Lemma scan_row_sound (i : nat) (j2len : j2len_t) :
  alo <= i -> i < ahi -> prev_ok i j2len ->
  forall (js : list nat) (newj2len : j2len_t) (best : best_t),
    (forall j, In j js -> elt_at b j = elt_at a i) ->
    (forall e, In e newj2len -> run_ok i e) ->
    good best ->
    let r := scan_row i blo bhi j2len js newj2len best in
    (forall e, In e (fst r) -> run_ok i e) /\ good (snd r).
Proof.
  intros Hlo Hhi Hprev js.
  induction js as [|j js IH]; intros newj2len best Hjs Hnew Hbest; simpl.
  - split; assumption.
  - destruct (Nat.ltb_spec j blo) as [Hjlo|Hjlo].
    { apply IH; auto. intros j' Hj'; apply Hjs; right; exact Hj'. }
    destruct (Nat.leb_spec bhi j) as [Hjhi|Hjhi].
    { split; assumption. }
    assert (Hk : run_ok i (j, j2lenget_pred j2len j + 1)).
    { assert (H0 : elt_at a i = elt_at b j)
        by (symmetry; apply Hjs; left; reflexivity).
      unfold j2lenget_pred. destruct j as [|j'].
      - simpl. repeat split; try lia.
        intros t Ht. replace t with 0 by lia. rewrite !Nat.sub_0_r. exact H0.
      - destruct (j2len_find j2len j') as [k'|] eqn:Hf.
        + apply j2len_find_in in Hf. destruct (Hprev _ Hf) as (Hi1 & H1 & H2 & H3 & H4 & H5).
          repeat split; try lia.
          intros t Ht. destruct t as [|t].
          * rewrite !Nat.sub_0_r. exact H0.
          * specialize (H5 t ltac:(lia)).
            replace (i - S t) with (i - 1 - t) by lia.
            replace (S j' - S t) with (j' - t) by lia. exact H5.
        + simpl. repeat split; try lia.
          intros t Ht. replace t with 0 by lia. rewrite !Nat.sub_0_r. exact H0. }
    apply IH.
    + intros j' Hj'; apply Hjs; right; exact Hj'.
    + intros e [<-|He]; [exact Hk|auto].
    + destruct best as [[bi bj] bk].
      destruct (Nat.ltb_spec bk (j2lenget_pred j2len j + 1)); [|exact Hbest].
      apply run_ok_good; assumption.
Qed.

Lemma scan_rows_sound (rows : list nat) :
  forall (i0 : nat) (j2len : j2len_t) (best : best_t),
    rows = seq i0 (ahi - i0) -> alo <= i0 ->
    prev_ok i0 j2len -> good best ->
    good (scan_rows a b blo bhi rows j2len best).
Proof.
  induction rows as [|i rows IH]; intros i0 j2len best Hrows Hlo Hprev Hbest; simpl.
  - exact Hbest.
  - destruct (ahi - i0) as [|n] eqn:Hn; [discriminate|].
    simpl in Hrows. injection Hrows as -> ->.
    pose proof (scan_row_sound i0 j2len Hlo ltac:(lia) Hprev
                  (b2j b (elt_at a i0)) [] best) as H.
    destruct (scan_row i0 blo bhi j2len (b2j b (elt_at a i0)) [] best)
      as [newj2len best'] eqn:Hr.
    simpl in H. destruct H as [Hnew Hbest'].
    + intros j Hj. apply b2j_spec in Hj. tauto.
    + intros e [].
    + exact Hbest.
    + apply (IH (S i0)).
      * f_equal. lia.
      * lia.
      * intros e He. split; [lia|]. replace (S i0 - 1) with i0 by lia. auto.
      * exact Hbest'.
Qed.

Lemma extend_left_sound (junk : bool) (besti : nat) :
  forall bestj bestsize,
    good (besti, bestj, bestsize) ->
    good (extend_left junk a b alo blo besti bestj bestsize).
Proof.
  induction besti as [|i' IH]; intros bestj bestsize Hg; cbn [extend_left];
    [exact Hg|].
  destruct ((alo <? S i') && (blo <? bestj)
            && Bool.eqb (isbjunk (elt_at b (bestj - 1))) junk
            && Ascii.eqb (elt_at a i') (elt_at b (bestj - 1)))%bool eqn:Hc;
    [|exact Hg].
  repeat rewrite andb_true_iff in Hc. destruct Hc as [[[H1 H2] _] H4].
  apply Nat.ltb_lt in H1, H2. apply Ascii.eqb_eq in H4.
  apply IH. destruct Hg as (G1 & G2 & G3 & G4 & G5).
  repeat split; try lia.
  intros t Ht. destruct t as [|t].
  - rewrite !Nat.add_0_r. exact H4.
  - specialize (G5 t ltac:(lia)).
    replace (i' + S t) with (S i' + t) by lia.
    replace (bestj - 1 + S t) with (bestj + t) by lia. exact G5.
Qed.

Lemma extend_right_sound (junk : bool) (room : nat) :
  forall besti bestj bestsize,
    good (besti, bestj, bestsize) ->
    good (extend_right junk a b ahi bhi room besti bestj bestsize).
Proof.
  induction room as [|room IH]; intros besti bestj bestsize Hg;
    cbn [extend_right]; [exact Hg|].
  destruct ((besti + bestsize <? ahi) && (bestj + bestsize <? bhi)
            && Bool.eqb (isbjunk (elt_at b (bestj + bestsize))) junk
            && Ascii.eqb (elt_at a (besti + bestsize))
                 (elt_at b (bestj + bestsize)))%bool eqn:Hc;
    [|exact Hg].
  repeat rewrite andb_true_iff in Hc. destruct Hc as [[[H1 H2] _] H4].
  apply Nat.ltb_lt in H1, H2. apply Ascii.eqb_eq in H4.
  apply IH. destruct Hg as (G1 & G2 & G3 & G4 & G5).
  repeat split; try lia.
  intros t Ht. destruct (Nat.eq_dec t bestsize) as [->|Hne].
  - exact H4.
  - apply G5. lia.
Qed.

Theorem find_longest_match_good :
  alo <= ahi -> blo <= bhi ->
  good (find_longest_match a b alo ahi blo bhi).
Proof.
  intros Ha Hb. unfold find_longest_match.
  pose proof (scan_rows_sound (seq alo (ahi - alo)) alo [] (alo, blo, 0)
                eq_refl (le_n _)) as H0.
  destruct (scan_rows a b blo bhi (seq alo (ahi - alo)) [] (alo, blo, 0))
    as [[i0 j0] k0].
  assert (G0 : good (i0, j0, k0)).
  { apply H0.
    - intros e [].
    - unfold Notions.good. repeat split; try lia. }
  pose proof (extend_left_sound false i0 j0 k0 G0) as G1.
  destruct (extend_left false a b alo blo i0 j0 k0) as [[i1 j1] k1].
  pose proof (extend_right_sound false (ahi - (i1 + k1)) i1 j1 k1 G1) as G2.
  destruct (extend_right false a b ahi bhi (ahi - (i1 + k1)) i1 j1 k1)
    as [[i2 j2] k2].
  pose proof (extend_left_sound true i2 j2 k2 G2) as G3.
  destruct (extend_left true a b alo blo i2 j2 k2) as [[i3 j3] k3].
  apply extend_right_sound. exact G3.
Qed.

End Rectangle.

End FlmFacts.

(* ================================================================== *)
(** ** The matching blocks: how many elements they cover *)

Module BlockFacts.

Import Py Difflib Notions FlmFacts.

Lemma fold_sum_acc (l : list best_t) (acc : nat) :
  fold_left (fun acc t => acc + snd t) l acc = acc + msum l.
Proof.
  unfold msum. revert acc; induction l as [|t l IH]; intros acc; simpl.
  - lia.
  - rewrite IH, (IH (snd t)). lia.
Qed.

Lemma msum_cons (t : best_t) (l : list best_t) : msum (t :: l) = snd t + msum l.
Proof. unfold msum at 1. simpl. apply fold_sum_acc. Qed.

Lemma msum_app (l1 l2 : list best_t) : msum (l1 ++ l2) = msum l1 + msum l2.
Proof.
  induction l1 as [|t l1 IH]; simpl; [reflexivity|].
  rewrite !msum_cons, IH. lia.
Qed.

Lemma msum_nil : msum [] = 0.
Proof. reflexivity. Qed.

Ltac msum_nil := change (msum (@nil _)) with 0 in *.

(** Merging adjacent blocks keeps the total. *)
Lemma collapse_msum (l : list best_t) :
  forall cur, msum (collapse cur l) = snd cur + msum l.
Proof.
  induction l as [|[[i2 j2] k2] l IH]; intros [[i1 j1] k1]; simpl.
  - destruct (Nat.eqb_spec k1 0); [subst; reflexivity|].
    rewrite msum_cons. msum_nil. cbn [snd]. lia.
  - destruct ((i1 + k1 =? i2) && (j1 + k1 =? j2))%bool.
    + rewrite IH, msum_cons. cbn [snd]. lia.
    + rewrite msum_app, IH, msum_cons. cbn [snd].
      destruct (Nat.eqb_spec k1 0); [subst; msum_nil; lia|].
      rewrite msum_cons. msum_nil. cbn [snd]. lia.
Qed.

Lemma seg_length (s : list ascii) (lo hi : nat) :
  hi <= length s -> length (seg s lo hi) = hi - lo.
Proof.
  intros H. unfold seg. rewrite length_firstn, length_skipn. lia.
Qed.

Lemma seg_empty (s : list ascii) (lo hi : nat) : hi <= lo -> seg s lo hi = [].
Proof.
  intros H. unfold seg. replace (hi - lo) with 0 by lia. reflexivity.
Qed.

Lemma firstn_add_skipn (A : Type) (m n : nat) (l : list A) :
  firstn (m + n) l = firstn m l ++ firstn n (skipn m l).
Proof.
  revert l; induction m as [|m IH]; intros l; simpl; [reflexivity|].
  destruct l as [|x l]; simpl.
  - rewrite firstn_nil. reflexivity.
  - rewrite IH. reflexivity.
Qed.

Lemma seg_split (s : list ascii) (lo mid hi : nat) :
  lo <= mid -> mid <= hi -> seg s lo hi = seg s lo mid ++ seg s mid hi.
Proof.
  intros H1 H2. unfold seg.
  replace (hi - lo) with ((mid - lo) + (hi - mid)) by lia.
  rewrite firstn_add_skipn, skipn_skipn.
  replace (mid - lo + lo) with mid by lia. reflexivity.
Qed.

Lemma seg_nth (s : list ascii) (lo hi t : nat) :
  t < hi - lo -> nth t (seg s lo hi) Ascii.zero = elt_at s (lo + t).
Proof.
  intros H. unfold seg, elt_at. rewrite nth_firstn, nth_skipn.
  destruct (Nat.ltb_spec t (hi - lo)); [reflexivity|lia].
Qed.

Lemma seg_all (s : list ascii) : seg s 0 (length s) = s.
Proof.
  unfold seg. simpl. rewrite Nat.sub_0_r. apply firstn_all.
Qed.

Lemma seg_eq (a b : list ascii) (i j k : nat) :
  i + k <= length a -> j + k <= length b ->
  (forall t, t < k -> elt_at a (i + t) = elt_at b (j + t)) ->
  seg a i (i + k) = seg b j (j + k).
Proof.
  intros Ha Hb H.
  apply (nth_ext _ _ Ascii.zero Ascii.zero).
  - rewrite !seg_length by assumption. lia.
  - intros t Ht. rewrite seg_length in Ht by assumption.
    rewrite !seg_nth by lia. apply H. lia.
Qed.

Section Blocks.

Variables a b : list ascii.

Local Abbreviation cnt := (count_occ ascii_dec).
Local Abbreviation content := (Notions.content a).

Lemma content_app (l1 l2 : list best_t) :
  content (l1 ++ l2) = content l1 ++ content l2.
Proof. unfold Notions.content. apply flat_map_app. Qed.

(** The blocks under a rectangle cover no more than either side holds. *)
Lemma blocks_bound (fuel : nat) :
  forall alo ahi blo bhi,
    alo <= ahi -> blo <= bhi ->
    msum (blocks fuel a b alo ahi blo bhi) <= ahi - alo /\
    msum (blocks fuel a b alo ahi blo bhi) <= bhi - blo.
Proof.
  induction fuel as [|fuel IH]; intros alo ahi blo bhi Ha Hb; cbn [blocks].
  - msum_nil. lia.
  - pose proof (find_longest_match_good a b alo ahi blo bhi Ha Hb) as G.
    destruct (find_longest_match a b alo ahi blo bhi) as [[i j] k].
    destruct G as (G1 & G2 & G3 & G4 & G5).
    destruct (Nat.eqb_spec k 0); [msum_nil; lia|].
    rewrite msum_app, msum_cons. cbn [snd].
    set (L := if (alo <? i) && (blo <? j) then _ else _).
    set (R := if (i + k <? ahi) && (j + k <? bhi) then _ else _).
    assert (HL : msum L <= i - alo /\ msum L <= j - blo).
    { subst L. destruct ((alo <? i) && (blo <? j))%bool.
      - apply IH; lia.
      - msum_nil. lia. }
    assert (HR : msum R <= ahi - (i + k) /\ msum R <= bhi - (j + k)).
    { subst R. destruct ((i + k <? ahi) && (j + k <? bhi))%bool.
      - apply IH; lia.
      - msum_nil. lia. }
    clearbody L R.
    lia.
Qed.

(** Blocks that cover both sides entirely: the two sides are equal. *)
Lemma blocks_full (fuel : nat) :
  forall alo ahi blo bhi,
    alo <= ahi -> ahi <= length a -> blo <= bhi -> bhi <= length b ->
    msum (blocks fuel a b alo ahi blo bhi) = ahi - alo ->
    msum (blocks fuel a b alo ahi blo bhi) = bhi - blo ->
    seg a alo ahi = seg b blo bhi.
Proof.
  induction fuel as [|fuel IH]; intros alo ahi blo bhi Ha Ha' Hb Hb'; cbn [blocks].
  - msum_nil. intros E1 E2. rewrite !seg_empty by lia. reflexivity.
  - pose proof (find_longest_match_good a b alo ahi blo bhi Ha Hb) as G.
    destruct (find_longest_match a b alo ahi blo bhi) as [[i j] k].
    destruct G as (G1 & G2 & G3 & G4 & G5).
    destruct (Nat.eqb_spec k 0).
    { msum_nil. intros E1 E2. rewrite !seg_empty by lia. reflexivity. }
    rewrite msum_app, msum_cons. cbn [snd]. intros E1 E2.
    pose proof (blocks_bound fuel alo i blo j ltac:(lia) ltac:(lia)) as BL.
    pose proof (blocks_bound fuel (i + k) ahi (j + k) bhi ltac:(lia) ltac:(lia)) as BR.
    rewrite (seg_split a alo i ahi), (seg_split a i (i + k) ahi) by lia.
    rewrite (seg_split b blo j bhi), (seg_split b j (j + k) bhi) by lia.
    f_equal; [|f_equal].
    + destruct ((alo <? i) && (blo <? j))%bool eqn:Hc.
      * destruct ((i + k <? ahi) && (j + k <? bhi))%bool;
          [|msum_nil]; apply IH; lia.
      * msum_nil.
        assert (i = alo /\ j = blo) as [-> ->].
        { destruct ((i + k <? ahi) && (j + k <? bhi))%bool;
            [|msum_nil]; lia. }
        rewrite !seg_empty by lia. reflexivity.
    + apply seg_eq; try lia. exact G5.
    + destruct ((i + k <? ahi) && (j + k <? bhi))%bool eqn:Hc.
      * destruct ((alo <? i) && (blo <? j))%bool;
          [|msum_nil]; apply IH; lia.
      * msum_nil.
        assert (i + k = ahi /\ j + k = bhi) as [E3 E4].
        { destruct ((alo <? i) && (blo <? j))%bool;
            [|msum_nil]; lia. }
        rewrite !seg_empty by lia. reflexivity.
Qed.

(** The covered elements sit in both sides, counted with multiplicity. *)
Lemma blocks_content (fuel : nat) :
  forall alo ahi blo bhi,
    alo <= ahi -> ahi <= length a -> blo <= bhi -> bhi <= length b ->
    let bl := blocks fuel a b alo ahi blo bhi in
    length (content bl) = msum bl /\
    forall c, cnt (content bl) c <= cnt (seg a alo ahi) c /\
              cnt (content bl) c <= cnt (seg b blo bhi) c.
Proof.
  induction fuel as [|fuel IH]; intros alo ahi blo bhi Ha Ha' Hb Hb'; cbn [blocks].
  - split; [reflexivity|]. intros c; simpl; lia.
  - pose proof (find_longest_match_good a b alo ahi blo bhi Ha Hb) as G.
    destruct (find_longest_match a b alo ahi blo bhi) as [[i j] k].
    destruct G as (G1 & G2 & G3 & G4 & G5).
    destruct (Nat.eqb_spec k 0).
    { split; [reflexivity|]. intros c; simpl; lia. }
    set (L := if (alo <? i) && (blo <? j) then _ else _).
    set (R := if (i + k <? ahi) && (j + k <? bhi) then _ else _).
    assert (HL : length (content L) = msum L /\
                 forall c, cnt (content L) c <= cnt (seg a alo i) c /\
                           cnt (content L) c <= cnt (seg b blo j) c).
    { subst L. destruct ((alo <? i) && (blo <? j))%bool.
      - apply IH; lia.
      - split; [reflexivity|]. intros c; simpl; lia. }
    assert (HR : length (content R) = msum R /\
                 forall c, cnt (content R) c <= cnt (seg a (i + k) ahi) c /\
                           cnt (content R) c <= cnt (seg b (j + k) bhi) c).
    { subst R. destruct ((i + k <? ahi) && (j + k <? bhi))%bool.
      - apply IH; lia.
      - split; [reflexivity|]. intros c; simpl; lia. }
    destruct HL as [HL1 HL2], HR as [HR1 HR2].
    change (content (L ++ (i, j, k) :: R))
      with (content (L ++ [(i, j, k)] ++ R)).
    rewrite !content_app, msum_app, msum_cons.
    change (content [(i, j, k)]) with (seg a i (i + k) ++ []).
    rewrite app_nil_r. split.
    + rewrite !length_app, HL1, HR1, seg_length by lia. simpl. lia.
    + intros c.
      rewrite (seg_split a alo i ahi), (seg_split a i (i + k) ahi) by lia.
      rewrite (seg_split b blo j bhi), (seg_split b j (j + k) bhi) by lia.
      rewrite !count_occ_app.
      rewrite <- (seg_eq a b i j k) by (try lia; exact G5).
      specialize (HL2 c). specialize (HR2 c). lia.
Qed.

End Blocks.

(** *** The loop of [get_matching_blocks] *)

Lemma msum_insert_block (x : best_t) (l : list best_t) :
  msum (insert_block x l) = snd x + msum l.
Proof.
  induction l as [|y l IH]; cbn [insert_block].
  - rewrite msum_cons. reflexivity.
  - destruct (block_leb x y).
    + rewrite msum_cons. reflexivity.
    + rewrite !msum_cons, IH. lia.
Qed.

(** Sorting keeps the total. *)
Lemma msum_sort_blocks (l : list best_t) : msum (sort_blocks l) = msum l.
Proof.
  induction l as [|x l IH]; [reflexivity|].
  cbn [sort_blocks fold_right]. fold (sort_blocks l).
  rewrite msum_insert_block, msum_cons, IH. reflexivity.
Qed.

Section Loop.

Variables a b : list ascii.

(** Beyond the width of the rectangle, the amount of fuel does not
    matter. *)
Lemma preorder_fuel (n : nat) :
  forall m alo ahi blo bhi,
    alo <= ahi -> blo <= bhi -> ahi - alo < n -> ahi - alo < m ->
    preorder n a b alo ahi blo bhi = preorder m a b alo ahi blo bhi.
Proof.
  induction n as [|n IH]; intros m alo ahi blo bhi Ha Hb Hn Hm; [lia|].
  destruct m as [|m]; [lia|]. cbn [preorder].
  pose proof (find_longest_match_good a b alo ahi blo bhi Ha Hb) as G.
  destruct (find_longest_match a b alo ahi blo bhi) as [[i j] k].
  destruct G as (G1 & G2 & G3 & G4 & _).
  destruct (Nat.eqb_spec k 0); [reflexivity|].
  f_equal. f_equal.
  - destruct ((i + k <? ahi) && (j + k <? bhi))%bool; [|reflexivity].
    apply IH; lia.
  - destruct ((alo <? i) && (blo <? j))%bool; [|reflexivity].
    apply IH; lia.
Qed.

(** Both listings hold the same blocks. *)
Lemma msum_preorder (fuel : nat) :
  forall alo ahi blo bhi,
    msum (preorder fuel a b alo ahi blo bhi)
    = msum (blocks fuel a b alo ahi blo bhi).
Proof.
  induction fuel as [|fuel IH]; intros alo ahi blo bhi; [reflexivity|].
  cbn [preorder blocks].
  destruct (find_longest_match a b alo ahi blo bhi) as [[i j] k].
  destruct (k =? 0); [reflexivity|].
  rewrite msum_cons, !msum_app, msum_cons. cbn [snd].
  destruct ((alo <? i) && (blo <? j))%bool;
    destruct ((i + k <? ahi) && (j + k <? bhi))%bool;
    rewrite ?IH; msum_nil; lia.
Qed.

Lemma work_app (q1 q2 : list rect_t) : work (q1 ++ q2) = work q1 + work q2.
Proof.
  induction q1 as [|[[[alo ahi] blo] bhi] q1 IH]; [reflexivity|].
  simpl app. unfold work in *. cbn [fold_right]. rewrite IH. lia.
Qed.

(** With fuel for the turns that remain, the loop empties its work list:
    it appends, for each rectangle in turn, the blocks found below it. *)
Lemma matching_loop_found (fuel : nat) :
  forall queue acc,
    Forall valid_rect queue -> work queue <= fuel ->
    matching_loop fuel a b queue acc = acc ++ flat_map (found a b) queue.
Proof.
  induction fuel as [|fuel IH]; intros queue acc Hv Hw.
  - destruct queue as [|[[[alo ahi] blo] bhi] queue].
    + simpl. rewrite app_nil_r. reflexivity.
    + unfold work in Hw. cbn [fold_right] in Hw. lia.
  - destruct queue as [|[[[alo ahi] blo] bhi] queue].
    + simpl. rewrite app_nil_r. reflexivity.
    + cbn [matching_loop flat_map found]. cbn [preorder].
      inversion Hv as [|? ? Hr Hv']; subst.
      unfold valid_rect in Hr. destruct Hr as [Ha Hb].
      change (work ((alo, ahi, blo, bhi) :: queue))
        with (2 * (ahi - alo) + 1 + work queue) in Hw.
      pose proof (find_longest_match_good a b alo ahi blo bhi Ha Hb) as G.
      destruct (find_longest_match a b alo ahi blo bhi) as [[i j] k].
      destruct G as (G1 & G2 & G3 & G4 & _).
      destruct (Nat.eqb_spec k 0) as [Hk|Hk].
      * apply IH; [exact Hv'|lia].
      * assert (EL : preorder (S (i - alo)) a b alo i blo j
                     = preorder (ahi - alo) a b alo i blo j)
          by (destruct (Nat.eq_dec i alo) as [->|];
              [rewrite Nat.sub_diag; apply preorder_fuel; lia
              |apply preorder_fuel; lia]).
        assert (ER : preorder (S (ahi - (i + k))) a b (i + k) ahi (j + k) bhi
                     = preorder (ahi - alo) a b (i + k) ahi (j + k) bhi)
          by (apply preorder_fuel; lia).
        destruct ((alo <? i) && (blo <? j))%bool;
          destruct ((i + k <? ahi) && (j + k <? bhi))%bool;
          cbn [app]; rewrite IH;
          try (unfold work; cbn [fold_right]; fold (work queue); lia);
          try (repeat (constructor; [unfold valid_rect; lia|]); exact Hv');
          cbn [flat_map found]; rewrite ?EL, ?ER, <- ?app_assoc;
          cbn [app]; rewrite <- ?app_assoc; reflexivity.
Qed.

(** The turns allowed by [get_matching_blocks] suffice: more fuel gives
    the same blocks. *)
Theorem matching_loop_enough_fuel (fuel : nat) :
  2 * length a + 1 <= fuel ->
  matching_loop fuel a b [(0, length a, 0, length b)] []
  = matching_loop (2 * length a + 1) a b [(0, length a, 0, length b)] [].
Proof.
  intros H.
  assert (Hv : Forall valid_rect [(0, length a, 0, length b)])
    by (constructor; [unfold valid_rect; lia|constructor]).
  assert (Hw : work [(0, length a, 0, length b)] = 2 * length a + 1)
    by (unfold work; cbn [fold_right]; lia).
  rewrite !matching_loop_found; auto; lia.
Qed.

(** What [ratio] sums over [get_matching_blocks] is the number of
    matches. *)
Lemma matches_spec :
  fold_left (fun acc t => acc + snd t) (get_matching_blocks a b) 0 = matches a b.
Proof.
  fold (msum (get_matching_blocks a b)). unfold get_matching_blocks, matches.
  cbv zeta. rewrite msum_app, collapse_msum, msum_cons, msum_sort_blocks.
  cbn [snd]. unfold msum at 2. cbn [fold_left].
  rewrite matching_loop_found.
  - cbn [app flat_map found]. rewrite app_nil_r, Nat.sub_0_r, msum_preorder. lia.
  - constructor; [unfold valid_rect; lia|constructor].
  - unfold work. cbn [fold_right]. lia.
Qed.

End Loop.

End BlockFacts.

(* ================================================================== *)
(** ** [quick_ratio] counts at least the matches of [ratio] *)

Module QuickFacts.

Import Py Difflib Notions FlmFacts BlockFacts.

Local Abbreviation cnt := (count_occ ascii_dec).

Lemma length_indices (b : list ascii) (c : ascii) (i0 : nat) :
  length (indices b c i0) = cnt b c.
Proof.
  revert i0; induction b as [|x b IH]; intros i0; simpl; [reflexivity|].
  destruct (Ascii.eqb_spec x c) as [He|Hne]; destruct (ascii_dec x c);
    try congruence; simpl; rewrite IH; reflexivity.
Qed.

Section Quick.

Variable b : list ascii.

Local Abbreviation unseen_matches := (Notions.unseen_matches b).
Local Abbreviation avail_rep := (Notions.avail_rep b).

Lemma quick_matches_unseen (a : list ascii) :
  forall seen avail m,
    avail_rep avail seen ->
    quick_matches b a avail m = m + unseen_matches a seen.
Proof.
  induction a as [|x a IH]; intros seen avail m Hrep; simpl; [lia|].
  set (numb := match avail_find avail x with
               | Some n => n
               | None => fullbcount b x
               end).
  assert (Hnumb : numb = (Z.of_nat (cnt b x) - Z.of_nat (cnt seen x))%Z).
  { subst numb. rewrite (Hrep x). unfold fullbcount. rewrite length_indices.
    destruct (Nat.eqb_spec (cnt seen x) 0) as [->|]; lia. }
  rewrite (IH (x :: seen)).
  - destruct (Z.ltb_spec 0 numb); destruct (Nat.ltb_spec (cnt seen x) (cnt b x));
      lia.
  - intros c. simpl. destruct (Ascii.eqb_spec x c) as [->|Hne].
    + destruct (ascii_dec c c); [|congruence]. simpl.
      f_equal. unfold fullbcount. rewrite length_indices. lia.
    + destruct (ascii_dec x c); [congruence|]. apply Hrep.
Qed.

(** Any list that fits, element for element, into [a] and into what is
    left of [b] is no longer than the count. *)
Lemma unseen_matches_ge (a : list ascii) :
  forall seen w,
    (forall c, cnt w c <= cnt a c /\ cnt w c <= cnt b c - cnt seen c) ->
    length w <= unseen_matches a seen.
Proof.
  induction a as [|x a IH]; intros seen w Hw.
  - assert (w = []) as ->; [|simpl; lia].
    apply (count_occ_inv_nil ascii_dec). intros c.
    specialize (Hw c). simpl in Hw. lia.
  - cbn [unseen_matches].
    destruct (in_dec ascii_dec x w) as [Hin|Hnin].
    + apply in_split in Hin. destruct Hin as (l1 & l2 & ->).
      pose proof (Hw x) as Hx.
      rewrite (count_occ_elt_eq ascii_dec l1 l2 eq_refl) in Hx.
      simpl in Hx. destruct (ascii_dec x x); [|congruence].
      destruct (Nat.ltb_spec (cnt seen x) (cnt b x)); [|lia].
      rewrite length_app. simpl. rewrite Nat.add_succ_r, <- length_app.
      apply le_n_S. apply IH. intros c.
      destruct (ascii_dec x c) as [<-|Hne].
      * simpl. destruct (ascii_dec x x); [|congruence]. lia.
      * specialize (Hw c).
        rewrite (count_occ_elt_neq ascii_dec l1 l2 Hne) in Hw.
        simpl in *. destruct (ascii_dec x c); [congruence|]. lia.
    + transitivity (unseen_matches a (x :: seen)); [|lia].
      apply IH. intros c. specialize (Hw c).
      destruct (ascii_dec x c) as [<-|Hne].
      * apply (count_occ_not_In ascii_dec) in Hnin. rewrite Hnin. lia.
      * simpl in *. destruct (ascii_dec x c); [congruence|]. lia.
Qed.

End Quick.

(** The matches of [ratio] are among those of [quick_ratio]. *)
Theorem matches_le_quick (a b : list ascii) :
  matches a b <= quick_matches b a [] 0.
Proof.
  rewrite (quick_matches_unseen b a [] [] 0) by (intros c; reflexivity).
  rewrite Nat.add_0_l. unfold matches.
  destruct (blocks_content a b (S (length a)) 0 (length a) 0 (length b)
              (Nat.le_0_l _) (le_n _) (Nat.le_0_l _) (le_n _)) as [Hlen Hcnt].
  rewrite <- Hlen. apply unseen_matches_ge. intros c.
  specialize (Hcnt c). rewrite !seg_all in Hcnt.
  cbn [count_occ]. rewrite Nat.sub_0_r. exact Hcnt.
Qed.

Theorem matches_le_min (a b : list ascii) :
  matches a b <= Nat.min (length a) (length b).
Proof.
  unfold matches.
  destruct (blocks_bound a b (S (length a)) 0 (length a) 0 (length b)
              (Nat.le_0_l _) (Nat.le_0_l _)).
  lia.
Qed.

(** Sequences whose matches cover both of them are equal. *)
Theorem matches_full_eq (a b : list ascii) :
  matches a b = length a -> matches a b = length b -> a = b.
Proof.
  unfold matches. intros Ea Eb.
  rewrite <- (seg_all a), <- (seg_all b).
  apply (blocks_full a b (S (length a))); lia.
Qed.

End QuickFacts.

(* ================================================================== *)
(** ** A sequence compared with itself: one block covers it *)

Module SelfFacts.

Import Py Difflib Notions FlmFacts BlockFacts.

Lemma indices_sorted (b : list ascii) (c : ascii) :
  forall i0, StronglySorted lt (indices b c i0).
Proof.
  induction b as [|x b IH]; intros i0; simpl; [constructor|].
  destruct (Ascii.eqb x c); [|apply IH].
  constructor; [apply IH|].
  apply Forall_forall. intros j Hj. apply indices_spec in Hj. lia.
Qed.

Lemma b2j_sorted (b : list ascii) (c : ascii) : StronglySorted lt (b2j b c).
Proof.
  unfold b2j. destruct (popular b c); [constructor|apply indices_sorted].
Qed.

Lemma lookup_cons (j k : nat) (m : j2len_t) (j' : nat) :
  lookup ((j, k) :: m) j' = if j =? j' then k else lookup m j'.
Proof. unfold lookup. simpl. destruct (j =? j'); reflexivity. Qed.

Lemma j2lenget_pred_lookup (m : j2len_t) (j : nat) :
  j2lenget_pred m j = match j with O => 0 | S j' => lookup m j' end.
Proof. reflexivity. Qed.

Section Self.

Variable s : list ascii.

Local Abbreviation n := (length s).
Local Abbreviation cell := (Notions.cell s).
Local Abbreviation run := (Notions.run s).
Local Abbreviation prevrun := (Notions.prevrun s).
Local Abbreviation rep_prev := (Notions.rep_prev s).
Local Abbreviation diag_best := (Notions.diag_best s).


Lemma run_unfold (i j : nat) :
  run i j = if cell i j then S (prevrun i j) else 0.
Proof. destruct i, j; reflexivity. Qed.

Lemma cell_b2j (i j : nat) :
  i < n -> (cell i j = true <-> In j (b2j s (elt_at s i))).
Proof.
  intros Hi. rewrite b2j_spec. unfold Notions.cell.
  rewrite !andb_true_iff, negb_true_iff, Nat.ltb_lt, Nat.ltb_lt, Ascii.eqb_eq.
  split.
  - intros (((H1 & H2) & H3) & H4). rewrite H3. auto.
  - intros (H1 & H2 & H3). rewrite H3. auto.
Qed.

(** A run is never longer than the run on the diagonal at its lower end. *)
Lemma run_diag_ge (i : nat) :
  forall j, run i j <= run (Nat.min i j) (Nat.min i j).
Proof.
  induction i as [|i IH]; intros j.
  - simpl (Nat.min 0 j). rewrite (run_unfold 0 j).
    destruct (cell 0 j) eqn:Hc; [|lia].
    rewrite (run_unfold 0 0).
    assert (cell 0 0 = true) as ->; [|simpl; lia].
    unfold Notions.cell in *. rewrite !andb_true_iff in *.
    destruct Hc as (((H1 & H2) & H3) & H4). apply Ascii.eqb_eq in H3.
    rewrite Ascii.eqb_refl, H3. auto.
  - rewrite (run_unfold (S i) j).
    destruct (cell (S i) j) eqn:Hc; [|lia].
    assert (Hm : cell (Nat.min (S i) j) (Nat.min (S i) j) = true).
    { unfold Notions.cell in *. rewrite !andb_true_iff in *.
      destruct Hc as (((H1 & H2) & H3) & H4).
      apply Ascii.eqb_eq in H3. apply Nat.ltb_lt in H1, H2.
      rewrite Ascii.eqb_refl.
      assert (elt_at s (Nat.min (S i) j) = elt_at s j) as ->.
      { destruct (Nat.min_spec (S i) j) as [[_ ->]|[_ ->]]; auto. }
      repeat split; auto; apply Nat.ltb_lt; lia. }
    rewrite (run_unfold (Nat.min (S i) j)), Hm.
    destruct j as [|j]; [simpl; lia|].
    simpl (Nat.min (S i) (S j)). simpl. apply le_n_S. apply IH.
Qed.

Lemma scan_row_self (i : nat) (j2len : j2len_t) :
  i < n -> rep_prev i j2len ->
  forall (js : list nat) (newj2len : j2len_t) (best : best_t),
    StronglySorted lt js ->
    (forall j, In j js -> cell i j = true) ->
    diag_best i js best ->
    let r := scan_row i 0 n j2len js newj2len best in
    (forall j', lookup (fst r) j' =
                if in_dec Nat.eq_dec j' js then run i j' else lookup newj2len j')
    /\ diag_best i [] (snd r).
Proof.
  intros Hi Hprev js.
  induction js as [|j js IH]; intros newj2len best Hsort Hcell Hbest.
  - simpl. split; [reflexivity|exact Hbest].
  - cbn [scan_row].
    assert (Hj : cell i j = true) by (apply Hcell; left; reflexivity).
    assert (Hjn : j < n).
    { unfold Notions.cell in Hj. rewrite !andb_true_iff in Hj.
      destruct Hj as (((_ & H2) & _) & _). apply Nat.ltb_lt in H2. exact H2. }
    replace (j <? 0) with false by reflexivity.
    destruct (Nat.leb_spec n j) as [Hge|_]; [lia|].
    rewrite (Hprev j).
    assert (Hk : prevrun i j + 1 = run i j).
    { rewrite run_unfold, Hj. lia. }
    rewrite Hk.
    inversion Hsort as [|? ? Hsort' Hall]; subst.
    rewrite Forall_forall in Hall.
    set (best' := let '(_, _, bestsize) := best in
                  if bestsize <? run i j then (i + 1 - run i j, j + 1 - run i j, run i j)
                  else best).
    assert (Hbest' : diag_best i js best').
    { subst best'. destruct best as [[bi bj] bk].
      destruct Hbest as (Hd & Hrows & Hrow).
      destruct (Nat.ltb_spec bk (run i j)) as [Hlt|Hle].
      - unfold Notions.diag_best.
        assert (Hij : i = j).
        { destruct (Nat.eq_dec i j) as [|Hne]; [assumption|exfalso].
          pose proof (run_diag_ge i j) as Hdg.
          destruct (Nat.lt_ge_cases i j) as [Hlo|Hhi].
          - rewrite Nat.min_l in Hdg by lia.
            destruct (Hrow i) as [Hr|[Hr|Hr]]; [lia|lia|].
            specialize (Hall _ Hr). lia.
          - rewrite Nat.min_r in Hdg by lia.
            specialize (Hrows j j ltac:(lia)). lia. }
        subst j. repeat split.
        + intros i' j' Hi'. specialize (Hrows i' j' Hi'). lia.
        + intros j'. destruct (Hrow j') as [Hr|[<-|Hr]]; [left; lia|left; lia|right; exact Hr].
      - unfold Notions.diag_best. repeat split; [exact Hd|exact Hrows|].
        intros j'. destruct (Hrow j') as [Hr|[<-|Hr]]; [left; exact Hr|left; exact Hle|right; exact Hr]. }
    specialize (IH ((j, run i j) :: newj2len) best' Hsort'
                  (fun j' H' => Hcell j' (or_intror H')) Hbest').
    destruct IH as [IH1 IH2]. split; [|exact IH2].
    intros j'. rewrite IH1, lookup_cons.
    destruct (in_dec Nat.eq_dec j' js) as [Hin|Hnin];
      destruct (in_dec Nat.eq_dec j' (j :: js)) as [Hin'|Hnin'];
      try reflexivity.
    + exfalso. apply Hnin'. right; exact Hin.
    + destruct Hin' as [<-|Hin']; [|contradiction].
      rewrite Nat.eqb_refl. reflexivity.
    + destruct (Nat.eqb_spec j j') as [<-|_]; [|reflexivity].
      exfalso. apply Hnin'. left; reflexivity.
Qed.

Lemma scan_rows_self (rows : list nat) :
  forall (i0 : nat) (j2len : j2len_t) (best : best_t),
    rows = seq i0 (n - i0) ->
    rep_prev i0 j2len ->
    (let '(bi, bj, bk) := best in
     bi = bj /\ forall i' j', i' < i0 -> run i' j' <= bk) ->
    let '(bi, bj, _) := scan_rows s s 0 n rows j2len best in bi = bj.
Proof.
  induction rows as [|i rows IH]; intros i0 j2len best Hrows Hprev Hbest.
  - simpl. destruct best as [[bi bj] bk]. tauto.
  - destruct (n - i0) as [|d] eqn:Hd; [discriminate|].
    simpl in Hrows. injection Hrows as -> ->.
    cbn [scan_rows].
    assert (Hi : i0 < n) by lia.
    pose proof (scan_row_self i0 j2len Hi Hprev (b2j s (elt_at s i0)) [] best
                  (b2j_sorted _ _)) as H.
    destruct (scan_row i0 0 n j2len (b2j s (elt_at s i0)) [] best)
      as [newj2len best'] eqn:Hr.
    cbn [fst snd] in H. destruct H as [Hlook Hbest'].
    + intros j Hj. apply cell_b2j; assumption.
    + destruct best as [[bi bj] bk]. destruct Hbest as [Hdg Hmax].
      repeat split; [exact Hdg|exact Hmax|].
      intros j'. destruct (in_dec Nat.eq_dec j' (b2j s (elt_at s i0))) as [Hin|Hnin].
      * right; exact Hin.
      * left. rewrite run_unfold.
        destruct (cell i0 j') eqn:Hc; [|lia].
        exfalso. apply Hnin. apply cell_b2j; assumption.
    + apply (IH (S i0)).
      * f_equal. lia.
      * intros j. rewrite j2lenget_pred_lookup. destruct j as [|j]; [reflexivity|].
        rewrite Hlook. simpl.
        destruct (in_dec Nat.eq_dec j (b2j s (elt_at s i0))) as [Hin|Hnin];
          [reflexivity|].
        rewrite run_unfold.
        destruct (cell i0 j) eqn:Hc; [|reflexivity].
        exfalso. apply Hnin. apply cell_b2j; assumption.
      * destruct best' as [[bi' bj'] bk']. destruct Hbest' as (Hd' & Hrows' & Hrow').
        split; [exact Hd'|].
        intros i' j' Hi'. destruct (Nat.eq_dec i' i0) as [->|Hne].
        -- destruct (Hrow' j') as [Hq|[]]. exact Hq.
        -- apply Hrows'. lia.
Qed.

Lemma extend_left_self (i : nat) :
  forall k, extend_left false s s 0 0 i i k = (0, 0, k + i).
Proof.
  induction i as [|i IH]; intros k; cbn [extend_left].
  - rewrite Nat.add_0_r. reflexivity.
  - replace (S i - 1) with i by lia.
    rewrite Ascii.eqb_refl. simpl. rewrite IH. f_equal. lia.
Qed.

Lemma extend_right_self (room : nat) :
  forall k, room = n - k -> k <= n ->
    extend_right false s s n n room 0 0 k = (0, 0, n).
Proof.
  induction room as [|room IH]; intros k Hr Hk; cbn [extend_right].
  - f_equal. lia.
  - rewrite !Nat.add_0_l, Ascii.eqb_refl.
    destruct (Nat.ltb_spec k n) as [_|Hge]; [|lia].
    simpl. apply IH; lia.
Qed.

Theorem find_longest_match_self : find_longest_match s s 0 n 0 n = (0, 0, n).
Proof.
  unfold find_longest_match.
  pose proof (scan_rows_sound s s 0 n 0 n (seq 0 (n - 0)) 0 [] (0, 0, 0)
                eq_refl (le_n _)) as Hg.
  pose proof (scan_rows_self (seq 0 (n - 0)) 0 [] (0, 0, 0) eq_refl) as Hd.
  destruct (scan_rows s s 0 n (seq 0 (n - 0)) [] (0, 0, 0)) as [[i0 j0] k0].
  assert (G : good s s 0 n 0 n (i0, j0, k0)).
  { apply Hg.
    - intros e [].
    - unfold Notions.good. repeat split; lia. }
  assert (i0 = j0) as <-.
  { apply Hd.
    - intros j. destruct j; reflexivity.
    - split; [reflexivity|]. intros i' j' H; lia. }
  destruct G as (_ & G2 & _).
  rewrite extend_left_self.
  rewrite (extend_right_self (n - (0 + (k0 + i0))) (k0 + i0)) by lia.
  cbn [extend_left].
  replace (n - (0 + n)) with 0 by lia. reflexivity.
Qed.

End Self.

(** Comparing a sequence with itself matches all of it. *)
Theorem matches_self (s : list ascii) : matches s s = length s.
Proof.
  unfold matches. cbn [blocks]. rewrite find_longest_match_self.
  destruct (Nat.eqb_spec (length s) 0) as [->|Hne]; [reflexivity|].
  rewrite Nat.ltb_irrefl. simpl (0 + length s).
  rewrite Nat.ltb_irrefl. simpl.
  unfold msum. simpl. reflexivity.
Qed.

End SelfFacts.

(* ================================================================== *)
(** ** The three ratios and [get_close_matches] *)

Module RatioFacts.

Import Py Difflib Notions FlmFacts BlockFacts QuickFacts SelfFacts.

Lemma calculate_ratio_pos (m T : nat) :
  0 < T ->
  (_calculate_ratio m T == (2 * Z.of_nat m) # (Pos.of_nat T))%Q.
Proof.
  intros HT. unfold _calculate_ratio.
  destruct T as [|T']; [lia|].
  rewrite <- Pos.of_nat_succ.
  unfold Qeq, Qdiv, Qmult, Qinv, inject_Z. simpl. lia.
Qed.

Lemma calculate_ratio_mono (m1 m2 T : nat) :
  m1 <= m2 -> (_calculate_ratio m1 T <= _calculate_ratio m2 T)%Q.
Proof.
  intros H. destruct (Nat.eq_dec T 0) as [->|HT].
  - unfold _calculate_ratio. simpl. apply Qle_refl.
  - rewrite !calculate_ratio_pos by lia. unfold Qle. cbn [Qnum Qden]. nia.
Qed.

Lemma calculate_ratio_le_1 (m T : nat) :
  2 * m <= T -> (_calculate_ratio m T <= 1)%Q.
Proof.
  intros H. destruct (Nat.eq_dec T 0) as [->|HT].
  - unfold _calculate_ratio. simpl. apply Qle_refl.
  - rewrite calculate_ratio_pos by lia. unfold Qle. cbn [Qnum Qden]. lia.
Qed.

Lemma calculate_ratio_nonneg (m T : nat) : (0 <= _calculate_ratio m T)%Q.
Proof.
  destruct (Nat.eq_dec T 0) as [->|HT].
  - unfold _calculate_ratio. simpl. discriminate.
  - rewrite calculate_ratio_pos by lia. unfold Qle. cbn [Qnum Qden]. lia.
Qed.

Lemma calculate_ratio_eq_1 (m T : nat) :
  0 < T -> (_calculate_ratio m T == 1)%Q -> 2 * m = T.
Proof.
  intros HT. rewrite calculate_ratio_pos by lia. unfold Qeq. cbn [Qnum Qden]. lia.
Qed.

Lemma calculate_ratio_full (m : nat) : (_calculate_ratio m (m + m) == 1)%Q.
Proof.
  destruct (Nat.eq_dec m 0) as [->|Hm].
  - reflexivity.
  - rewrite calculate_ratio_pos by lia. unfold Qeq. cbn [Qnum Qden]. lia.
Qed.

Lemma ratio_matches (a b : list ascii) :
  ratio a b = _calculate_ratio (matches a b) (length a + length b).
Proof. unfold ratio. rewrite matches_spec. reflexivity. Qed.

Theorem ratio_le_quick_ratio (a b : list ascii) : (ratio a b <= quick_ratio a b)%Q.
Proof.
  rewrite ratio_matches. unfold quick_ratio.
  apply calculate_ratio_mono, matches_le_quick.
Qed.

Theorem ratio_le_real_quick_ratio (a b : list ascii) :
  (ratio a b <= real_quick_ratio a b)%Q.
Proof.
  rewrite ratio_matches. unfold real_quick_ratio.
  apply calculate_ratio_mono, matches_le_min.
Qed.

Theorem ratio_le_1 (a b : list ascii) : (ratio a b <= 1)%Q.
Proof.
  rewrite ratio_matches. apply calculate_ratio_le_1.
  pose proof (matches_le_min a b). lia.
Qed.

Theorem ratio_nonneg (a b : list ascii) : (0 <= ratio a b)%Q.
Proof. rewrite ratio_matches. apply calculate_ratio_nonneg. Qed.

Theorem ratio_self (s : list ascii) : (ratio s s == 1)%Q.
Proof.
  rewrite ratio_matches, matches_self. apply calculate_ratio_full.
Qed.

Theorem ratio_1_eq (a b : list ascii) : (ratio a b == 1)%Q -> a = b.
Proof.
  rewrite ratio_matches. intros H.
  destruct (Nat.eq_dec (length a + length b) 0) as [H0|H0].
  - destruct a, b; simpl in H0; try lia. reflexivity.
  - apply calculate_ratio_eq_1 in H; [|lia].
    pose proof (matches_le_min a b).
    apply matches_full_eq; lia.
Qed.

Lemma chars_inj (x y : string) : chars x = chars y -> x = y.
Proof.
  unfold chars. intros H.
  rewrite <- (string_of_list_ascii_of_string x),
          <- (string_of_list_ascii_of_string y), H.
  reflexivity.
Qed.

(** The two cheap tests never reject what the real test accepts. *)
Lemma close_enough_iff (word : string) (cutoff : Q) (x : string) :
  close_enough word cutoff x = true <->
  (cutoff <= ratio (chars x) (chars word))%Q.
Proof.
  unfold close_enough. rewrite !andb_true_iff, !Qle_bool_iff. split.
  - tauto.
  - intros H. repeat split; [| |exact H].
    + eapply Qle_trans; [exact H|apply ratio_le_real_quick_ratio].
    + eapply Qle_trans; [exact H|apply ratio_le_quick_ratio].
Qed.

Lemma in_scored (word : string) (cutoff : Q) (poss : list string) (p : Q * string) :
  In p (scored word cutoff poss) <->
  In (snd p) poss /\ (cutoff <= ratio (chars (snd p)) (chars word))%Q
  /\ fst p = ratio (chars (snd p)) (chars word).
Proof.
  unfold scored. rewrite in_map_iff. split.
  - intros (x & <- & Hx). apply filter_In in Hx. destruct Hx as [Hx Hc].
    apply close_enough_iff in Hc. simpl. auto.
  - intros (H1 & H2 & H3). exists (snd p). split.
    + destruct p; simpl in *; subst; reflexivity.
    + apply filter_In. split; [exact H1|]. apply close_enough_iff. exact H2.
Qed.

Lemma scored_nil_iff (word : string) (cutoff : Q) (poss : list string) :
  scored word cutoff poss = [] <->
  forall x, In x poss -> (ratio (chars x) (chars word) < cutoff)%Q.
Proof.
  split.
  - intros H x Hx. apply Qnot_le_lt. intros Hle.
    assert (Hin : In (ratio (chars x) (chars word), x) (scored word cutoff poss)).
    { apply in_scored. simpl. auto. }
    rewrite H in Hin. exact Hin.
  - intros H. destruct (scored word cutoff poss) as [|p l] eqn:E; [reflexivity|].
    exfalso. assert (Hin : In p (scored word cutoff poss)) by (rewrite E; left; reflexivity).
    apply in_scored in Hin. destruct Hin as (H1 & H2 & _).
    specialize (H _ H1). apply Qlt_not_le in H. contradiction.
Qed.

(** *** [max] over the scored pairs *)

Lemma pair_gt_true (p q : Q * string) :
  pair_gt p q = true -> (fst q <= fst p)%Q.
Proof.
  unfold pair_gt. destruct (Qeq_bool (fst p) (fst q)) eqn:E.
  - intros _. apply Qeq_bool_eq in E. rewrite E. apply Qle_refl.
  - rewrite negb_true_iff. intros H.
    apply Qlt_le_weak, Qnot_le_lt. intros Hle.
    apply Qle_bool_iff in Hle. congruence.
Qed.

Lemma pair_gt_false (p q : Q * string) :
  pair_gt p q = false -> (fst p <= fst q)%Q.
Proof.
  unfold pair_gt. destruct (Qeq_bool (fst p) (fst q)) eqn:E.
  - intros _. apply Qeq_bool_eq in E. rewrite E. apply Qle_refl.
  - rewrite negb_false_iff. apply Qle_bool_iff.
Qed.

Lemma max_from_spec (l : list (Q * string)) :
  forall cur,
    In (max_from cur l) (cur :: l) /\
    forall q, In q (cur :: l) -> (fst q <= fst (max_from cur l))%Q.
Proof.
  induction l as [|p l IH]; intros cur; simpl.
  - split; [left; reflexivity|]. intros q [<-|[]]. apply Qle_refl.
  - destruct (IH (if pair_gt p cur then p else cur)) as [Hin Hmax].
    split.
    + destruct Hin as [Hin|Hin]; [|right; right; exact Hin].
      rewrite <- Hin. destruct (pair_gt p cur); auto.
    + intros q Hq.
      destruct (pair_gt p cur) eqn:Hgt.
      * destruct Hq as [<-|[<-|Hq]].
        -- eapply Qle_trans; [apply pair_gt_true; exact Hgt|].
           apply Hmax. left; reflexivity.
        -- apply Hmax. left; reflexivity.
        -- apply Hmax. right; exact Hq.
      * destruct Hq as [<-|[<-|Hq]].
        -- apply Hmax. left; reflexivity.
        -- eapply Qle_trans; [apply pair_gt_false; exact Hgt|].
           apply Hmax. left; reflexivity.
        -- apply Hmax. right; exact Hq.
Qed.

Lemma string_ltb_irrefl (s : string) : String.ltb s s = false.
Proof.
  unfold String.ltb.
  assert (String.compare s s = Eq) as ->; [|reflexivity].
  induction s as [|c s IH]; simpl; [reflexivity|].
  destruct (Ascii.compare c c) eqn:E; try exact IH.
  - pose proof (Ascii.compare_antisym c c) as H. rewrite E in H. discriminate.
  - pose proof (Ascii.compare_antisym c c) as H. rewrite E in H. discriminate.
Qed.

(** When one name scores 1 and every other name scores less, [max] picks
    that name. *)
Lemma max_from_top (n : string) (l : list (Q * string)) :
  forall cur,
    (forall p, In p (cur :: l) ->
               if string_dec (snd p) n then (fst p == 1)%Q else (fst p < 1)%Q) ->
    In n (map snd (cur :: l)) ->
    snd (max_from cur l) = n.
Proof.
  induction l as [|p l IH]; intros cur Hall Hin.
  - simpl in *. destruct Hin as [H|[]]. exact H.
  - cbn [max_from]. apply IH.
    + intros q [<-|Hq].
      * destruct (pair_gt p cur); apply Hall; [right; left|left]; reflexivity.
      * apply Hall. right; right; exact Hq.
    + pose proof (Hall cur (or_introl eq_refl)) as Hc.
      pose proof (Hall p (or_intror (or_introl eq_refl))) as Hp.
      simpl in Hin. destruct Hin as [Hin|[Hin|Hin]].
      * destruct (string_dec (snd cur) n) as [_|]; [|contradiction].
        assert (pair_gt p cur = false) as ->; [|left; exact Hin].
        unfold pair_gt. destruct (string_dec (snd p) n) as [Hpn|Hpn].
        -- assert (Qeq_bool (fst p) (fst cur) = true) as ->.
           { apply Qeq_eq_bool. rewrite Hp, Hc. reflexivity. }
           rewrite Hpn, Hin. apply string_ltb_irrefl.
        -- assert (Qeq_bool (fst p) (fst cur) = false) as ->.
           { apply not_true_is_false. intros E. apply Qeq_bool_eq in E.
             rewrite E, Hc in Hp. apply Qlt_irrefl in Hp. exact Hp. }
           rewrite negb_false_iff. apply Qle_bool_iff.
           rewrite Hc. apply Qlt_le_weak. exact Hp.
      * destruct (string_dec (snd p) n) as [_|]; [|contradiction].
        destruct (pair_gt p cur) eqn:Hgt; [left; exact Hin|].
        destruct (string_dec (snd cur) n) as [Hcn|Hcn]; [left; exact Hcn|].
        exfalso. apply pair_gt_false in Hgt. rewrite Hp in Hgt.
        apply Qle_not_lt in Hgt. contradiction.
      * right. exact Hin.
Qed.

(** [get_close_matches(word, possibilities, 1, cutoff)] on a word that is
    one of the possibilities returns that word. *)
Theorem get_close_matches_exact (word : string) (poss : list string) (cutoff : Q) :
  In word poss -> (0 <= cutoff)%Q -> (cutoff <= 1)%Q ->
  get_close_matches word poss 1 cutoff = Ok [word].
Proof.
  intros Hin H0 H1. unfold get_close_matches. simpl (negb (0 <? 1)).
  apply Qle_bool_iff in H0, H1. rewrite H0, H1. simpl.
  apply Qle_bool_iff in H1.
  assert (Hw : In (ratio (chars word) (chars word), word) (scored word cutoff poss)).
  { apply in_scored. simpl. repeat split; auto.
    rewrite ratio_self. exact H1. }
  unfold nlargest. simpl (1 =? 1).
  destruct (scored word cutoff poss) as [|p l] eqn:E; [destruct Hw|].
  simpl. do 2 f_equal. apply max_from_top.
  - intros q Hq. rewrite <- E in Hq. apply in_scored in Hq.
    destruct Hq as (_ & _ & ->).
    destruct (string_dec (snd q) word) as [->|Hne].
    + apply ratio_self.
    + pose proof (ratio_le_1 (chars (snd q)) (chars word)) as HH.
      apply Qle_lt_or_eq in HH.
      destruct HH as [HH|HH]; [exact HH|].
      exfalso. apply Hne. apply chars_inj, ratio_1_eq. exact HH.
  - apply in_map_iff. exists (ratio (chars word) (chars word), word).
    split; [reflexivity|exact Hw].
Qed.

End RatioFacts.

(* ================================================================== *)
(** ** The engine: its table, its two matchers, its loop *)

Module EngineFacts.

Import Py Difflib Search Notions PyFacts RatioFacts.

(** *** The table built by [_load_data] *)

Lemma load_data_keys (rows : list Row) :
  NoDup (keys (_load_data rows)) /\
  forall k, In k (keys (_load_data rows)) -> lower k = k.
Proof.
  unfold _load_data.
  assert (G : forall (d : dict NutritionRecord),
             NoDup (keys d) /\ (forall k, In k (keys d) -> lower k = k) ->
             let d' := fold_left
               (fun ingredients row =>
                  dict_set ingredients (lower (name row))
                    {| calories := row_calories row;
                       fats := total_fat row;
                       proteins := protein row;
                       carbohydrates := carbohydrate row |}) rows d in
             NoDup (keys d') /\ (forall k, In k (keys d') -> lower k = k)).
  { induction rows as [|row rows IH]; intros d [Hnd Hlow]; simpl; [auto|].
    apply IH. split.
    - apply NoDup_keys_dict_set. exact Hnd.
    - intros k Hk. apply in_keys_dict_set in Hk. destruct Hk as [->|Hk].
      + apply lower_idem.
      + apply Hlow. exact Hk. }
  apply G. split; [constructor|]. intros k [].
Qed.

Lemma init_well_formed (rows : list Row) (model : SentenceTransformer)
  (self : IngredientNutritionSearch) :
  __init__ rows model = Ok self -> well_formed self /\ data self = _load_data rows.
Proof.
  unfold __init__.
  destruct (mapM (encode model) (keys (_load_data rows))) as [embs|e] eqn:E;
    simpl; [|discriminate].
  intros H; injection H as <-. simpl.
  destruct (load_data_keys rows) as [Hnd Hlow].
  split; [constructor; simpl; auto|reflexivity].
  eapply mapM_length; exact E.
Qed.

(** *** The lexical matcher *)

Lemma nlargest_1_in (l : list (Q * string)) (p : Q * string) :
  In p (nlargest 1 l) -> In p l.
Proof.
  unfold nlargest. simpl (1 =? 1).
  destruct l as [|p0 l]; simpl; [tauto|].
  intros [<-|[]]. apply (max_from_spec l p0).
Qed.

Lemma fuzzy_search_cases (self : IngredientNutritionSearch) (q : string) (thr : Q) :
  (0 <= thr)%Q -> (thr <= 1)%Q ->
  match Difflib.scored (lower q) thr (_ingredients self) with
  | [] => _fuzzy_search self q thr = Ok None
  | p :: l => _fuzzy_search self q thr = Ok (Some (snd (max_from p l)))
  end.
Proof.
  intros H0 H1. unfold _fuzzy_search, get_close_matches.
  simpl (negb (0 <? 1)).
  apply Qle_bool_iff in H0, H1. rewrite H0, H1. simpl.
  unfold nlargest. simpl (1 =? 1).
  destruct (scored (lower q) thr (_ingredients self)); reflexivity.
Qed.

(** What the lexical matcher returns, at a threshold in [0, 1]. *)
Lemma fuzzy_search_spec
  (self : IngredientNutritionSearch) (ingredient_name : string) (threshold : Q) :
  (0 <= threshold)%Q -> (threshold <= 1)%Q ->
  exists match_,
    _fuzzy_search self ingredient_name threshold = Ok match_ /\
    match match_ with
    | Some m =>
        In m (_ingredients self) /\
        (threshold <= ratio (chars m) (chars (lower ingredient_name)))%Q /\
        forall x, In x (_ingredients self) ->
                  (ratio (chars x) (chars (lower ingredient_name))
                   <= ratio (chars m) (chars (lower ingredient_name)))%Q
    | None =>
        forall x, In x (_ingredients self) ->
                  (ratio (chars x) (chars (lower ingredient_name)) < threshold)%Q
    end.
Proof.
  intros H0 H1.
  pose proof (fuzzy_search_cases self ingredient_name threshold H0 H1) as Hc.
  destruct (scored (lower ingredient_name) threshold (_ingredients self))
    as [|p l] eqn:E.
  - exists None. split; [exact Hc|]. apply scored_nil_iff. exact E.
  - exists (Some (snd (max_from p l))). split; [exact Hc|].
    destruct (max_from_spec l p) as [Hin Hmax].
    rewrite <- E in Hin. apply in_scored in Hin. destruct Hin as (Hi & Ht & Hs).
    repeat split; [exact Hi|exact Ht|].
    intros x Hx.
    destruct (Qlt_le_dec (ratio (chars x) (chars (lower ingredient_name))) threshold)
      as [Hlt|Hge].
    + eapply Qle_trans; [apply Qlt_le_weak; exact Hlt|exact Ht].
    + rewrite <- Hs.
      apply (Hmax (ratio (chars x) (chars (lower ingredient_name)), x)).
      rewrite <- E. apply in_scored. simpl. auto.
Qed.

Lemma fuzzy_search_in (self : IngredientNutritionSearch) (q : string) (thr : Q)
  (m : string) :
  _fuzzy_search self q thr = Ok (Some m) -> In m (_ingredients self).
Proof.
  unfold _fuzzy_search, get_close_matches.
  destruct (negb (0 <? 1)); [discriminate|].
  destruct (negb (Qle_bool 0 thr && Qle_bool thr 1)); [discriminate|].
  simpl.
  destruct (nlargest 1 (scored (lower q) thr (_ingredients self))) as [|p l] eqn:E;
    simpl; [discriminate|].
  intros H; injection H as <-.
  assert (Hin : In p (scored (lower q) thr (_ingredients self))).
  { apply nlargest_1_in. rewrite E. left; reflexivity. }
  apply in_scored in Hin. tauto.
Qed.

Lemma fuzzy_search_exact (self : IngredientNutritionSearch) (n : string) (thr : Q) :
  In n (_ingredients self) -> lower n = n ->
  (0 <= thr)%Q -> (thr <= 1)%Q ->
  _fuzzy_search self n thr = Ok (Some n).
Proof.
  intros Hin Hlow H0 H1. unfold _fuzzy_search.
  rewrite Hlow, (get_close_matches_exact n _ thr Hin H0 H1). reflexivity.
Qed.

Lemma default_threshold_range :
  (0 <= default_threshold)%Q /\ (default_threshold <= 1)%Q.
Proof. split; discriminate. Qed.

(** *** The semantic matcher *)

Lemma argmax_from_spec (l : list Q) :
  forall bi best i,
    bi < i ->
    let r := argmax_from bi best i l in
    r < i + length l /\ (r = bi \/ i <= r).
Proof.
  induction l as [|x l IH]; intros bi best i Hbi; simpl.
  - split; [lia|left; reflexivity].
  - destruct (Qle_bool x best).
    + destruct (IH bi best (S i) ltac:(lia)) as [H1 H2]. split; lia.
    + destruct (IH i x (S i) ltac:(lia)) as [H1 H2]. split; lia.
Qed.

Lemma argmax_lt (scores : list Q) (i : nat) :
  argmax scores = Ok i -> i < length scores.
Proof.
  destruct scores as [|x l]; simpl; [discriminate|].
  intros H; injection H as <-.
  destruct (argmax_from_spec l 0 x 1 ltac:(lia)). lia.
Qed.

Lemma semantic_search_in (self : IngredientNutritionSearch) (q : string) (thr : Q)
  (m : string) :
  _semantic_search self q thr = Ok (Some m) -> In m (_ingredients self).
Proof.
  unfold _semantic_search.
  destruct (encode (encoder self) (lower q)) as [t|e]; simpl; [|discriminate].
  destruct (argmax (map (cos_sim (encoder self) t) (_embeddings self)))
    as [i|e]; simpl; [|discriminate].
  destruct (Qle_bool thr _); [|discriminate].
  destruct (nth_error (_ingredients self) i) as [m'|] eqn:E; [|discriminate].
  intros H; injection H as <-. eapply nth_error_In; exact E.
Qed.

(** [argmax] returns the first position that holds the largest score. *)
Lemma argmax_from_stays (l : list Q) :
  forall bi best i,
    (forall x, In x l -> (x <= best)%Q) -> argmax_from bi best i l = bi.
Proof.
  induction l as [|x l IH]; intros bi best i H; simpl; [reflexivity|].
  assert (Qle_bool x best = true) as ->
      by (apply Qle_bool_iff, H; left; reflexivity).
  apply IH. intros y Hy. apply H. right; exact Hy.
Qed.

Lemma argmax_from_first (v : Q) (l2 : list Q) (l1 : list Q) :
  forall bi best i,
    (best < v)%Q ->
    (forall x, In x l1 -> (x < v)%Q) ->
    (forall x, In x l2 -> (x <= v)%Q) ->
    argmax_from bi best i (l1 ++ v :: l2) = i + length l1.
Proof.
  induction l1 as [|x l1 IH]; intros bi best i Hb H1 H2; simpl.
  - assert (Qle_bool v best = false) as ->.
    { apply not_true_is_false. intros E. apply Qle_bool_iff in E.
      apply Qle_not_lt in E. contradiction. }
    rewrite argmax_from_stays by exact H2. lia.
  - destruct (Qle_bool x best).
    + rewrite IH; [lia|exact Hb| |exact H2].
      intros y Hy. apply H1. right; exact Hy.
    + rewrite IH; [lia| | |exact H2].
      * apply H1. left; reflexivity.
      * intros y Hy. apply H1. right; exact Hy.
Qed.

Lemma argmax_first (scores : list Q) (i : nat) :
  i < length scores ->
  (forall j, j < i -> (nth j scores 0 < nth i scores 0)%Q) ->
  (forall j, j < length scores -> (nth j scores 0 <= nth i scores 0)%Q) ->
  argmax scores = Ok i.
Proof.
  intros Hi Hlt Hle. destruct scores as [|x l]; [simpl in Hi; lia|].
  simpl. f_equal. destruct i as [|i].
  - apply argmax_from_stays. intros y Hy.
    apply (In_nth _ _ 0%Q) in Hy. destruct Hy as (j & Hj & <-).
    apply (Hle (S j)). simpl. lia.
  - simpl in Hi.
    assert (Hsplit : l = firstn i l ++ nth i l 0%Q :: skipn (S i) l).
    { rewrite <- (firstn_skipn i l) at 1. f_equal.
      rewrite <- (firstn_skipn 1 (skipn i l)) at 1.
      rewrite skipn_skipn. simpl (1 + i). f_equal.
      destruct (skipn i l) as [|y l'] eqn:E.
      - exfalso. assert (length (skipn i l) = 0) by (rewrite E; reflexivity).
        rewrite length_skipn in H. lia.
      - simpl. f_equal.
        rewrite <- (Nat.add_0_r i), <- (nth_skipn i l 0 0%Q), E. reflexivity. }
    rewrite Hsplit at 1.
    rewrite (argmax_from_first (nth i l 0%Q)).
    + rewrite length_firstn. lia.
    + apply (Hlt 0). lia.
    + intros y Hy. apply (In_nth _ _ 0%Q) in Hy. destruct Hy as (j & Hj & <-).
      rewrite length_firstn in Hj. rewrite nth_firstn.
      destruct (Nat.ltb_spec j i); [|lia].
      apply (Hlt (S j)). lia.
    + intros y Hy. apply (In_nth _ _ 0%Q) in Hy. destruct Hy as (j & Hj & <-).
      rewrite length_skipn in Hj. rewrite nth_skipn.
      apply (Hle (S (S i + j))). simpl. lia.
Qed.

(** The semantic matcher returns whenever the encoder does, on a table
    that is not empty. *)
Lemma semantic_search_returns (self : IngredientNutritionSearch) (q : string)
  (thr : Q) (t : tensor (encoder self)) :
  well_formed self -> _ingredients self <> [] ->
  encode (encoder self) (lower q) = Ok t ->
  exists match_, _semantic_search self q thr = Ok match_.
Proof.
  intros Hwf Hne He. unfold _semantic_search. rewrite He. simpl.
  pose proof (wf_embeddings _ Hwf) as Hlen.
  destruct (argmax (map (cos_sim (encoder self) t) (_embeddings self)))
    as [i|e] eqn:Ha; simpl.
  - apply argmax_lt in Ha. rewrite length_map, Hlen in Ha.
    destruct (Qle_bool thr _); [|eauto].
    destruct (nth_error (_ingredients self) i) as [m|] eqn:E; [eauto|].
    apply nth_error_None in E. lia.
  - destruct (_embeddings self) as [|x l]; [|discriminate].
    destruct (_ingredients self); [congruence|discriminate].
Qed.

(** *** One turn of the loop *)

Lemma search_loop_cons (self : IngredientNutritionSearch) (search_type : string)
  (item : string * float) (items : list (string * float))
  (results : list (string * result_data)) :
  search_loop self search_type (item :: items) results =
  (entry <- turn self search_type item ;;
   search_loop self search_type items (results ++ entry)).
Proof.
  destruct item as [q w]. cbn [search_loop turn].
  destruct (0 <? w)%float; [|simpl; rewrite app_nil_r; reflexivity].
  destruct (dispatch self search_type q) as [[m|]|e]; simpl; try reflexivity.
  destruct (truthy m); [|reflexivity].
  destruct (dict_get (data self) m); reflexivity.
Qed.

Lemma search_loop_app (self : IngredientNutritionSearch) (search_type : string)
  (pre post : list (string * float)) :
  forall results,
    search_loop self search_type (pre ++ post) results =
    (r <- search_loop self search_type pre results ;;
     search_loop self search_type post r).
Proof.
  induction pre as [|item pre IH]; intros results.
  - reflexivity.
  - rewrite <- app_comm_cons, !search_loop_cons.
    destruct (turn self search_type item) as [entry|e]; simpl; [|reflexivity].
    apply IH.
Qed.

Lemma dispatch_in (self : IngredientNutritionSearch) (search_type q m : string) :
  dispatch self search_type q = Ok (Some m) -> In m (_ingredients self).
Proof.
  unfold dispatch.
  destruct (String.eqb search_type "fuzzy"); [apply fuzzy_search_in|].
  destruct (String.eqb search_type "semantic"); [apply semantic_search_in|].
  discriminate.
Qed.

(** A match of a well-formed instance is a key of its table. *)
Lemma dispatch_lookup (self : IngredientNutritionSearch) (search_type q m : string) :
  well_formed self ->
  dispatch self search_type q = Ok (Some m) ->
  exists d, dict_get (data self) m = Some d.
Proof.
  intros Hwf H. apply dispatch_in in H.
  rewrite (wf_ingredients _ Hwf) in H. apply dict_get_in. exact H.
Qed.

Lemma turn_ok (self : IngredientNutritionSearch) (search_type : string)
  (item : string * float) (entries : list (string * result_data)) :
  turn self search_type item = Ok entries ->
  ((0 <? snd item)%float = false /\ entries = []) \/
  (exists entry, entries = [entry] /\ entry_of self search_type item entry).
Proof.
  destruct item as [q w]. unfold turn, entry_of. cbn [fst snd].
  destruct (0 <? w)%float; [|intros H; injection H as <-; left; auto].
  destruct (dispatch self search_type q) as [[m|]|e]; simpl; [| |discriminate].
  - destruct (truthy m) eqn:Ht.
    + destruct (dict_get (data self) m) as [d|] eqn:Hd; [|discriminate].
      intros H; injection H as <-. right. eexists; split; [reflexivity|].
      simpl. repeat split. exists (Some m). split; [reflexivity|].
      repeat split; [apply truthy_iff; exact Ht|]. eauto.
    + intros H; injection H as <-. right. eexists; split; [reflexivity|].
      simpl. repeat split. exists (Some m). split; [reflexivity|]. right.
      f_equal. unfold truthy in Ht. apply negb_false_iff in Ht.
      apply String.eqb_eq in Ht. exact Ht.
  - intros H; injection H as <-. right. eexists; split; [reflexivity|].
    simpl. repeat split. exists None. auto.
Qed.

(** The loop returns, in order, one entry for each item of positive weight. *)
Lemma search_loop_ok (self : IngredientNutritionSearch) (search_type : string)
  (items : list (string * float)) :
  forall acc results,
    search_loop self search_type items acc = Ok results ->
    exists entries,
      results = acc ++ entries /\
      Forall2 (entry_of self search_type)
        (filter (fun item => (0 <? snd item)%float) items) entries.
Proof.
  induction items as [|item items IH]; intros acc results H.
  - simpl in H. injection H as <-. exists []. rewrite app_nil_r.
    split; [reflexivity|constructor].
  - rewrite search_loop_cons in H.
    destruct (turn self search_type item) as [entries|e] eqn:Ht; simpl in H;
      [|discriminate].
    destruct (IH _ _ H) as (rest & -> & Hrest).
    apply turn_ok in Ht. destruct Ht as [[Hw ->]|(entry & -> & He)].
    + exists rest. rewrite app_nil_r. split; [reflexivity|].
      simpl. rewrite Hw. exact Hrest.
    + exists (entry :: rest). rewrite <- app_assoc. split; [reflexivity|].
      simpl. destruct He as (He1 & He2 & He3). rewrite He2.
      constructor; [|exact Hrest]. unfold entry_of. auto.
Qed.

(** The loop returns as soon as no matcher call fails and no look-up
    misses. *)
Lemma search_loop_returns (self : IngredientNutritionSearch) (search_type : string)
  (items : list (string * float)) :
  well_formed self ->
  (forall q w, In (q, w) items -> (0 <? w)%float = true ->
               exists match_, dispatch self search_type q = Ok match_) ->
  forall acc, exists results, search_loop self search_type items acc = Ok results.
Proof.
  intros Hwf. induction items as [|[q w] items IH]; intros Hd acc.
  - simpl. eauto.
  - rewrite search_loop_cons.
    assert (Ht : exists entries, turn self search_type (q, w) = Ok entries).
    { unfold turn. destruct (0 <? w)%float eqn:Hw; [|eauto].
      destruct (Hd q w (or_introl eq_refl) Hw) as [match_ Hm].
      rewrite Hm. simpl. destruct match_ as [m|]; [|eauto].
      destruct (truthy m); [|eauto].
      destruct (dispatch_lookup self search_type q m Hwf Hm) as [d ->]. eauto. }
    destruct Ht as [entries ->]. simpl. apply IH.
    intros q' w' Hin. apply Hd. right; exact Hin.
Qed.

(** A request with a single item whose matcher call returns a key. *)
Lemma search_single (self : IngredientNutritionSearch) (search_type : string)
  (q m : string) (w : float) (d : NutritionRecord) :
  search_type = "fuzzy"%string \/ search_type = "semantic"%string ->
  (0 <? w)%float = true ->
  dispatch self search_type q = Ok (Some m) ->
  m <> EmptyString ->
  dict_get (data self) m = Some d ->
  search self [(q, w)] search_type = Ok [(q, Matched m w (scale_record w d))].
Proof.
  intros Hst Hw Hd Hm Hg.
  assert (Hloop : search_loop self search_type [(q, w)] [] =
                  Ok [(q, Matched m w (scale_record w d))]).
  { cbn [search_loop]. rewrite Hw, Hd. simpl.
    apply truthy_iff in Hm. rewrite Hm, Hg. reflexivity. }
  destruct Hst as [-> | ->]; exact Hloop.
Qed.

Lemma search_valid (self : IngredientNutritionSearch)
  (items : list (string * float)) (search_type : string) :
  search_type = "fuzzy"%string \/ search_type = "semantic"%string ->
  search self items search_type = search_loop self search_type items [].
Proof.
  intros [-> | ->]; reflexivity.
Qed.

Lemma dispatch_fuzzy (self : IngredientNutritionSearch) (q : string) :
  dispatch self "fuzzy" q = _fuzzy_search self q default_threshold.
Proof. reflexivity. Qed.

Lemma dispatch_semantic (self : IngredientNutritionSearch) (q : string) :
  dispatch self "semantic" q = _semantic_search self q default_threshold.
Proof. reflexivity. Qed.

Lemma fuzzy_search_returns (self : IngredientNutritionSearch) (q : string) :
  exists match_, _fuzzy_search self q default_threshold = Ok match_.
Proof.
  pose proof (fuzzy_search_cases self q default_threshold
                (proj1 default_threshold_range) (proj2 default_threshold_range)) as H.
  destruct (scored (lower q) default_threshold (_ingredients self)); eauto.
Qed.

End EngineFacts.

(* ================================================================== *)
(** ** [round(x, 0)]: nearest integer, ties to even, an integral float *)

Module RoundFacts.

Import Py Notions.

Local Open Scope Z_scope.

(** *** The integer rounding *)

Lemma round_half_even_cases (m p : Z) :
  0 <= m -> 0 < p ->
  let q := m / 2 ^ p in
  let r := m mod 2 ^ p in
  round_half_even m p =
  if 2 * r <? 2 ^ p then q
  else if 2 ^ p <? 2 * r then q + 1
  else if Z.even q then q else q + 1.
Proof.
  intros Hm Hp q r. unfold round_half_even.
  rewrite Z.shiftr_div_pow2, Z.land_ones, Z.shiftl_1_l by lia.
  fold q r.
  assert (H2 : 2 ^ p = 2 * 2 ^ (p - 1)).
  { rewrite <- Z.pow_succ_r by lia. f_equal. lia. }
  rewrite H2.
  destruct (Z.ltb_spec r (2 ^ (p - 1))); destruct (Z.ltb_spec (2 * r) (2 * 2 ^ (p - 1)));
    try lia; try reflexivity.
  destruct (Z.ltb_spec (2 ^ (p - 1)) r); destruct (Z.ltb_spec (2 * 2 ^ (p - 1)) (2 * r));
    try lia; reflexivity.
Qed.

(** [round_half_even m p] is an integer nearest to [m / 2^p], and the even
    one of the two when [m / 2^p] lies half-way. *)
Theorem round_half_even_nearest (m p : Z) :
  0 <= m -> 0 < p ->
  let z := round_half_even m p in
  2 * Z.abs (z * 2 ^ p - m) <= 2 ^ p /\
  (2 * Z.abs (z * 2 ^ p - m) = 2 ^ p -> Z.even z = true) /\
  0 <= z <= m / 2 ^ p + 1.
Proof.
  intros Hm Hp. cbv zeta. rewrite round_half_even_cases by assumption.
  assert (Hpow : 0 < 2 ^ p) by (apply Z.pow_pos_nonneg; lia).
  pose proof (Z.div_mod m (2 ^ p) ltac:(lia)) as Hdm.
  pose proof (Z.mod_pos_bound m (2 ^ p) Hpow) as Hr.
  pose proof (Z.div_pos m (2 ^ p) Hm Hpow) as Hq.
  set (q := m / 2 ^ p) in *. set (r := m mod 2 ^ p) in *.
  set (P := 2 ^ p) in *.
  destruct (Z.ltb_spec (2 * r) P) as [H1|H1].
  - repeat split; try lia.
  - destruct (Z.ltb_spec P (2 * r)) as [H2|H2].
    + repeat split; try lia.
    + destruct (Z.even q) eqn:He.
      * repeat split; try lia. intros _. exact He.
      * repeat split; try lia. intros _.
        rewrite Z.even_add, He. reflexivity.
Qed.

(** *** Integral floats *)

Lemma digits2_pos_bounds (p : positive) :
  2 ^ (Z.pos (digits2_pos p) - 1) <= Z.pos p < 2 ^ Z.pos (digits2_pos p).
Proof.
  induction p as [p IH|p IH|]; simpl digits2_pos.
  - rewrite Pos2Z.inj_succ.
    replace (Z.succ (Z.pos (digits2_pos p)) - 1) with (Z.succ (Z.pos (digits2_pos p) - 1)) by lia.
    rewrite !Z.pow_succ_r by lia. lia.
  - rewrite Pos2Z.inj_succ.
    replace (Z.succ (Z.pos (digits2_pos p)) - 1) with (Z.succ (Z.pos (digits2_pos p) - 1)) by lia.
    rewrite !Z.pow_succ_r by lia. lia.
  - simpl. lia.
Qed.

Lemma digits2_pos_iter_xO (p k : positive) :
  digits2_pos (Pos.iter xO p k) = (digits2_pos p + k)%positive.
Proof.
  induction k as [|k IH] using Pos.peano_ind.
  - simpl. rewrite Pos.add_1_r. reflexivity.
  - rewrite Pos.iter_succ. simpl. rewrite IH. lia.
Qed.

Lemma binary_round_aux_exact (s : bool) (mz : positive) (ez : Z) :
  Z.pos (digits2_pos mz) = 53 -> -1074 <= ez <= 971 ->
  binary_round_aux prec emax s (Z.pos mz) ez loc_Exact = S754_finite s mz ez.
Proof.
  intros Hd He. unfold binary_round_aux, shr_fexp.
  cbn [Zdigits2]. rewrite Hd.
  assert (Hf : fexp prec emax (53 + ez) - ez = 0).
  { unfold fexp, SpecFloat.emin, prec, emax. lia. }
  rewrite Hf. cbn [shr shr_record_of_loc shr_m loc_of_shr_record round_nearest_even].
  cbn [Zdigits2]. rewrite Hd, Hf.
  cbn [shr shr_record_of_loc shr_m].
  destruct (Z.leb_spec ez (emax - prec)) as [_|H]; [reflexivity|].
  unfold prec, emax in H. lia.
Qed.

(** The float of a positive integer below 2^53 holds that integer. *)
Lemma binary_normalize_small (p : positive) :
  Z.pos p < 2 ^ 53 ->
  exists m e,
    binary_normalize prec emax (Z.pos p) 0 false = S754_finite false m e /\
    e <= 0 /\ Z.pos m = Z.pos p * 2 ^ (- e).
Proof.
  intros Hp. unfold binary_normalize, binary_round.
  pose proof (digits2_pos_bounds p) as [Hlo Hhi].
  set (d := Z.pos (digits2_pos p)) in *.
  assert (Hd : 1 <= d <= 53).
  { split; [subst d; lia|].
    destruct (Z.le_gt_cases d 53) as [|Hgt]; [assumption|exfalso].
    assert (2 ^ 53 <= 2 ^ (d - 1)) by (apply Z.pow_le_mono_r; lia). lia. }
  assert (Hf : fexp prec emax (d + 0) = d - 53).
  { unfold fexp, SpecFloat.emin, prec, emax. lia. }
  rewrite Hf. unfold shl_align.
  destruct (d - 53 - 0) as [|k|k] eqn:Hk; try lia.
  - exists p, 0. split; [|split; [lia|simpl; lia]].
    apply binary_round_aux_exact; [fold d|]; lia.
  - exists (Pos.iter xO p k), (d - 53). split; [|split; [lia|]].
    + apply binary_round_aux_exact; [|lia].
      rewrite digits2_pos_iter_xO, Pos2Z.inj_add. fold d. lia.
    + change (Pos.iter xO p k) with (shift_pos k p).
      rewrite shift_pos_correct, Z.pow_pos_fold.
      replace (- (d - 53)) with (Z.pos k) by lia. lia.
Qed.

Lemma of_uint63_integral (z : Z) (s : bool) :
  0 <= z < 2 ^ 53 ->
  integral (if s then - of_uint63 (Uint63.of_Z z) else of_uint63 (Uint63.of_Z z))%float
  = true.
Proof.
  intros Hz. unfold integral.
  assert (Hspec : Prim2SF (of_uint63 (Uint63.of_Z z))
                  = binary_normalize prec emax z 0 false).
  { rewrite of_uint63_spec. f_equal.
    rewrite Uint63.of_Z_spec. apply Z.mod_small.
    change Uint63.wB with (2 ^ 63).
    assert (2 ^ 53 < 2 ^ 63) by (apply Z.pow_lt_mono_r; lia). lia. }
  destruct z as [|p|p]; [| |lia].
  - destruct s; [rewrite opp_spec|]; rewrite Hspec; reflexivity.
  - destruct (binary_normalize_small p ltac:(lia)) as (m & e & Hn & He & Hm).
    assert (Hint : ((0 <=? e) || (Z.pos m mod 2 ^ (- e) =? 0))%bool = true).
    { apply orb_true_iff. right. apply Z.eqb_eq.
      rewrite Hm. apply Z.mod_mul.
      apply Z.pow_nonzero; lia. }
    destruct s; [rewrite opp_spec|]; rewrite Hspec, Hn; simpl SFopp; exact Hint.
Qed.

(** A valid float has a mantissa below 2^53. *)
Lemma mantissa_bound (x : float) (s : bool) (m : positive) (e : Z) :
  Prim2SF x = S754_finite s m e -> Z.pos m < 2 ^ 53.
Proof.
  intros H. pose proof (Prim2SF_valid x) as Hv. rewrite H in Hv.
  unfold SpecFloat.valid_binary, bounded, canonical_mantissa in Hv.
  apply andb_true_iff in Hv. destruct Hv as [Hc _].
  apply Z.eqb_eq in Hc. unfold fexp, SpecFloat.emin, prec, emax in Hc.
  pose proof (digits2_pos_bounds m) as [_ Hhi].
  assert (Z.pos (digits2_pos m) <= 53) by lia.
  assert (2 ^ Z.pos (digits2_pos m) <= 2 ^ 53) by (apply Z.pow_le_mono_r; lia).
  lia.
Qed.

(** [round(x, 0)] of a finite float is an integral float; an infinity or
    a NaN is returned as it is. *)
Theorem round0_integral (x : float) :
  match Prim2SF x with
  | S754_infinity _ | S754_nan => round0 x = x
  | _ => integral (round0 x) = true
  end.
Proof.
  unfold round0. destruct (Prim2SF x) as [s|s| |s m e] eqn:Hx; try reflexivity.
  - unfold integral. rewrite Hx. reflexivity.
  - destruct (Z.leb_spec 0 e) as [He|He].
    + unfold integral. rewrite Hx.
      apply orb_true_iff. left. apply Z.leb_le. exact He.
    + apply of_uint63_integral.
      pose proof (mantissa_bound x s m e Hx) as Hm.
      destruct (round_half_even_nearest (Z.pos m) (- e) ltac:(lia) ltac:(lia))
        as (_ & _ & H0 & H1).
      split; [exact H0|].
      assert (2 ^ 1 <= 2 ^ (- e)) by (apply Z.pow_le_mono_r; lia).
      assert (Z.pos m / 2 ^ (- e) <= Z.pos m / 2 ^ 1).
      { apply Z.div_le_compat_l; lia. }
      assert (Z.pos m / 2 ^ 1 < 2 ^ 52).
      { apply Z.div_lt_upper_bound; [lia|].
        change (2 ^ 1 * 2 ^ 52) with (2 ^ 53). exact Hm. }
      assert (2 ^ 52 < 2 ^ 53) by (apply Z.pow_lt_mono_r; lia).
      lia.
Qed.

End RoundFacts.

(* ================================================================== *)
(** ** The claims *)

Module Claims.

Import Py Difflib Search Notions PyFacts RatioFacts EngineFacts RoundFacts Fixtures.

Local Open Scope string_scope.

Lemma fruit_engine_init : __init__ fruit_rows length_model = Ok fruit_engine.
Proof. reflexivity. Qed.

Lemma fragile_engine_init : __init__ fruit_rows fragile_model = Ok fragile_engine.
Proof. reflexivity. Qed.

Lemma grape_engine_init : __init__ grape_rows length_model = Ok grape_engine.
Proof. reflexivity. Qed.

Lemma ricotta_engine_init : __init__ ricotta_rows length_model = Ok ricotta_engine.
Proof. reflexivity. Qed.


Lemma Forall2_in_r {A B : Type} (R : A -> B -> Prop) (l : list A) (l' : list B) (y : B) :
  Forall2 R l l' -> In y l' -> exists x, In x l /\ R x y.
Proof.
  induction 1 as [|x y' l l' Hxy _ IH]; intros Hin; [destruct Hin|].
  destruct Hin as [<-|Hin].
  - exists x. split; [left; reflexivity|exact Hxy].
  - destruct (IH Hin) as (x' & H1 & H2). exists x'. split; [right|]; assumption.
Qed.

Lemma NoDup_keys_functional {A B : Type} (l : list (A * B)) (k : A) (v v' : B) :
  NoDup (map fst l) -> In (k, v) l -> In (k, v') l -> v = v'.
Proof.
  induction l as [|[k0 v0] l IH]; simpl; intros Hnd H1 H2; [destruct H1|].
  inversion Hnd as [|? ? Hnotin Hnd']; subst.
  destruct H1 as [H1|H1], H2 as [H2|H2].
  - congruence.
  - injection H1 as -> ->. exfalso. apply Hnotin.
    apply in_map_iff. exists (k, v'). auto.
  - injection H2 as -> ->. exfalso. apply Hnotin.
    apply in_map_iff. exists (k, v). auto.
  - eauto.
Qed.

Lemma search_ok_entries (self : IngredientNutritionSearch)
  (img_ingredients : list (string * float)) (search_type : string)
  (results : list (string * result_data)) :
  search self img_ingredients search_type = Ok results ->
  (search_type = "fuzzy" \/ search_type = "semantic") /\
  Forall2 (entry_of self search_type)
    (filter (fun item => (0 <? snd item)%float) img_ingredients) results.
Proof.
  intros H.
  assert (Hst : search_type = "fuzzy" \/ search_type = "semantic").
  { unfold search in H.
    destruct (String.eqb_spec search_type "fuzzy"); [left; assumption|].
    destruct (String.eqb_spec search_type "semantic"); [right; assumption|].
    discriminate. }
  split; [exact Hst|].
  rewrite (search_valid _ _ _ Hst) in H. apply search_loop_ok in H.
  destruct H as (entries & -> & HF). exact HF.
Qed.

(* ------------------------------------------------------------------ *)

(** C3.  With a [search_type] that is neither "fuzzy" nor "semantic",
    [search] raises [ValueError] whatever the engine and the request are:
    no entry is looked at and no result list exists. *)
Theorem search_rejects_unknown_strategy
  (self : IngredientNutritionSearch) (img_ingredients : list (string * float))
  (search_type : string) :
  search_type <> "fuzzy" -> search_type <> "semantic" ->
  search self img_ingredients search_type =
  Raise (ValueError "`search_type` must be either 'fuzzy' or 'semantic'").
Proof.
  intros Hf Hs. unfold search.
  destruct (String.eqb_spec search_type "fuzzy"); [contradiction|].
  destruct (String.eqb_spec search_type "semantic"); [contradiction|].
  reflexivity.
Qed.

Lemma search_rejects_unknown_strategy_witness :
  search fragile_engine [("kiwi", 50%float); ("apple", 100%float)] "phonetic" =
  Raise (ValueError "`search_type` must be either 'fuzzy' or 'semantic'").
Proof.
  apply search_rejects_unknown_strategy; discriminate.
Defined.

(* ------------------------------------------------------------------ *)

(** C2.  For an engine that [__init__] returned, a valid strategy and a
    request with distinct names (a dict), provided no call of the semantic
    matcher raises, [search] returns: its result lists, in the order of the
    request, exactly one entry for each item of weight [> 0], keyed by the
    raw name and holding either [{}] or the record of a key of the table
    scaled by the item's weight; and the name of an item of weight [<= 0]
    is the key of no entry. *)
Theorem search_one_entry_per_positive_item
  (rows : list Row) (model : SentenceTransformer)
  (self : IngredientNutritionSearch)
  (img_ingredients : list (string * float)) (search_type : string) :
  __init__ rows model = Ok self ->
  search_type = "fuzzy" \/ search_type = "semantic" ->
  NoDup (map fst img_ingredients) ->
  (search_type = "semantic" ->
   forall q w, In (q, w) img_ingredients -> (0 <? w)%float = true ->
               exists match_, _semantic_search self q default_threshold = Ok match_) ->
  exists results,
    search self img_ingredients search_type = Ok results /\
    Forall2
      (fun item entry =>
         fst entry = fst item /\
         (snd entry = NoMatch \/
          exists m d, dict_get (data self) m = Some d /\
                      snd entry = Matched m (snd item) (scale_record (snd item) d)))
      (filter (fun item => (0 <? snd item)%float) img_ingredients) results /\
    (forall q w, In (q, w) img_ingredients -> (w <=? 0)%float = true ->
                 ~ In q (map fst results)).
Proof.
  intros Hinit Hst Hnd Hsem.
  destruct (init_well_formed _ _ _ Hinit) as [Hwf _].
  rewrite (search_valid _ _ _ Hst).
  destruct (search_loop_returns self search_type img_ingredients Hwf) with (acc := @nil (string * result_data))
    as [results Hres].
  { intros q w Hin Hw. destruct Hst as [-> | ->].
    - rewrite dispatch_fuzzy. apply fuzzy_search_returns.
    - rewrite dispatch_semantic. eapply Hsem; eauto. }
  exists results. split; [exact Hres|].
  apply search_loop_ok in Hres. destruct Hres as (entries & -> & HF).
  simpl. split.
  - eapply Forall2_impl; [|exact HF].
    intros item entry (H1 & H2 & match_ & H3 & H4). split; [exact H1|].
    destruct (snd entry) as [|m w scaled]; [left; reflexivity|right].
    destruct H4 as (_ & _ & -> & d & Hd & ->). eauto.
  - intros q w Hin Hw Hq. apply in_map_iff in Hq.
    destruct Hq as ([q' e] & Hq' & He). simpl in Hq'. subst q'.
    destruct (Forall2_in_r _ _ _ _ HF He) as ([q' w'] & Hitem & Hentry).
    apply filter_In in Hitem. destruct Hitem as [Hitem Hpos].
    destruct Hentry as (Hfst & _). simpl in Hfst, Hpos. subst q'.
    rewrite (NoDup_keys_functional _ _ _ _ Hnd Hin Hitem) in Hw.
    apply leb_0_not_gt in Hw. congruence.
Qed.

Lemma search_one_entry_per_positive_item_witness :
  exists results,
    search fruit_engine
      [("aple", 150%float); ("durian", 50%float); ("apple", 0%float);
       ("banana", (-3)%float)] "semantic" = Ok results /\
    Forall2
      (fun item entry =>
         fst entry = fst item /\
         (snd entry = NoMatch \/
          exists m d, dict_get (data fruit_engine) m = Some d /\
                      snd entry = Matched m (snd item) (scale_record (snd item) d)))
      (filter (fun item => (0 <? snd item)%float)
         [("aple", 150%float); ("durian", 50%float); ("apple", 0%float);
          ("banana", (-3)%float)]) results /\
    (forall q w,
        In (q, w) [("aple", 150%float); ("durian", 50%float); ("apple", 0%float);
                   ("banana", (-3)%float)] ->
        (w <=? 0)%float = true -> ~ In q (map fst results)).
Proof.
  apply (search_one_entry_per_positive_item fruit_rows length_model).
  - reflexivity.
  - right; reflexivity.
  - repeat constructor; simpl; intuition discriminate.
  - intros _ q w Hin Hw.
    apply (semantic_search_returns fruit_engine q default_threshold
             (String.length (lower q))).
    + apply (init_well_formed fruit_rows length_model). reflexivity.
    + discriminate.
    + reflexivity.
Defined.

(* ------------------------------------------------------------------ *)

(** C4, as the code has it.  A matcher call that raises ends [search]: the
    exception of the first failing item of positive weight is the outcome
    of the whole call, whatever follows that item in the request. *)
Theorem search_aborts_on_matcher_failure
  (self : IngredientNutritionSearch) (search_type : string)
  (before after : list (string * float)) (q : string) (w : float) (e : exn)
  (partial : list (string * result_data)) :
  search self before search_type = Ok partial ->
  (0 <? w)%float = true ->
  dispatch self search_type q = Raise e ->
  search self (before ++ (q, w) :: after) search_type = Raise e.
Proof.
  unfold search. intros Hb Hw Hd.
  destruct (negb (String.eqb search_type "fuzzy"
                  || String.eqb search_type "semantic")); [discriminate|].
  rewrite search_loop_app, Hb. simpl. rewrite Hw, Hd. reflexivity.
Qed.

Lemma search_aborts_on_matcher_failure_witness :
  search fragile_engine
    ([("apple", 100%float)] ++ ("kiwi", 50%float) :: [("banana", 120%float)])
    "semantic" = Raise (RuntimeError "encoder failure").
Proof.
  apply (search_aborts_on_matcher_failure fragile_engine "semantic"
           [("apple", 100%float)] [("banana", 120%float)] "kiwi" 50%float
           (RuntimeError "encoder failure")
           [("apple", Matched "apple" 100%float (scale_record 100%float apple))]).
  - vm_compute. reflexivity.
  - vm_compute. reflexivity.
  - vm_compute. reflexivity.
Defined.

(** C4, as stated, fails: the encoder raises on "kiwi", and no result is
    returned although "apple" and "banana" would both have been matched. *)
Lemma matcher_failure_is_not_local :
  __init__ fruit_rows fragile_model = Ok fragile_engine /\
  _semantic_search fragile_engine "kiwi" default_threshold
  = Raise (RuntimeError "encoder failure") /\
  _semantic_search fragile_engine "apple" default_threshold = Ok (Some "apple") /\
  _semantic_search fragile_engine "banana" default_threshold = Ok (Some "banana") /\
  search fragile_engine
    [("apple", 100%float); ("kiwi", 50%float); ("banana", 120%float)] "semantic"
  = Raise (RuntimeError "encoder failure") /\
  ~ exists results,
      search fragile_engine
        [("apple", 100%float); ("kiwi", 50%float); ("banana", 120%float)]
        "semantic" = Ok results /\
      In "banana" (map fst results).
Proof.
  repeat split; try (vm_compute; reflexivity).
  intros (results & H & _). vm_compute in H. discriminate.
Qed.

(* ------------------------------------------------------------------ *)

(** C5.  For an engine that [__init__] returned, a match returned by
    either matcher is a key of the table, so [data.get(match)] finds a
    record.  The look-up therefore never fails inside [search]: when
    [search] raises, the exception is that of the strategy check or of a
    matcher call. *)
Theorem match_is_a_table_key
  (rows : list Row) (model : SentenceTransformer)
  (self : IngredientNutritionSearch) :
  __init__ rows model = Ok self ->
  (forall q threshold m,
      _fuzzy_search self q threshold = Ok (Some m) \/
      _semantic_search self q threshold = Ok (Some m) ->
      In m (keys (data self)) /\ exists d, dict_get (data self) m = Some d) /\
  (forall img_ingredients search_type e,
      search self img_ingredients search_type = Raise e ->
      (search_type <> "fuzzy" /\ search_type <> "semantic") \/
      exists q w, In (q, w) img_ingredients /\ (0 <? w)%float = true /\
                  dispatch self search_type q = Raise e).
Proof.
  intros Hinit. destruct (init_well_formed _ _ _ Hinit) as [Hwf _]. split.
  - intros q thr m H.
    assert (Hin : In m (_ingredients self)).
    { destruct H as [H|H]; [eapply fuzzy_search_in|eapply semantic_search_in];
        exact H. }
    rewrite (wf_ingredients _ Hwf) in Hin.
    split; [exact Hin|apply dict_get_in; exact Hin].
  - intros items st e. unfold search.
    destruct (String.eqb_spec st "fuzzy") as [Hf|Hf];
      destruct (String.eqb_spec st "semantic") as [Hs|Hs]; simpl;
      try (intros _; left; split; assumption).
    all: right; revert H; generalize (@nil (string * result_data)).
    all: induction items as [|[q w] items IH]; intros acc; [discriminate|].
    all: rewrite search_loop_cons; unfold turn.
    all: destruct (0 <? w)%float eqn:Hw;
      [|simpl; intros H; destruct (IH _ H) as (q' & w' & H1 & H2);
        exists q', w'; split; [right; exact H1|exact H2]].
    all: destruct (dispatch self st q) as [[m|]|e'] eqn:Hd; simpl.
    all: try (intros H; injection H as ->; exists q, w;
              split; [left; reflexivity|split; [exact Hw|exact Hd]]).
    all: try (destruct (truthy m);
              [destruct (dispatch_lookup self st q m Hwf Hd) as [d ->]; simpl|]).
    all: intros H; destruct (IH _ H) as (q' & w' & H1 & H2);
      exists q', w'; (split; [right; exact H1|exact H2]).
Qed.

Lemma match_is_a_table_key_witness :
  (forall q threshold m,
      _fuzzy_search fruit_engine q threshold = Ok (Some m) \/
      _semantic_search fruit_engine q threshold = Ok (Some m) ->
      In m (keys (data fruit_engine)) /\
      exists d, dict_get (data fruit_engine) m = Some d) /\
  (forall img_ingredients search_type e,
      search fruit_engine img_ingredients search_type = Raise e ->
      (search_type <> "fuzzy" /\ search_type <> "semantic") \/
      exists q w, In (q, w) img_ingredients /\ (0 <? w)%float = true /\
                  dispatch fruit_engine search_type q = Raise e).
Proof.
  apply (match_is_a_table_key fruit_rows length_model fruit_engine).
  reflexivity.
Defined.

(* ------------------------------------------------------------------ *)

(** C6.  For every query, every list of candidates and every threshold
    in [0, 1], [_fuzzy_search] returns: the query is lower-cased; a match
    is a candidate whose similarity ratio with the lower-cased query is at
    least the threshold and at least the ratio of every candidate; and
    nothing is returned exactly when every candidate scores below the
    threshold.  The default threshold is 0.6. *)
Theorem fuzzy_search_returns_best
  (self : IngredientNutritionSearch) (ingredient_name : string) (threshold : Q) :
  (0 <= threshold)%Q -> (threshold <= 1)%Q ->
  default_threshold = 0.6%Q /\
  exists match_,
    _fuzzy_search self ingredient_name threshold = Ok match_ /\
    match match_ with
    | Some m =>
        In m (_ingredients self) /\
        (threshold <= ratio (chars m) (chars (lower ingredient_name)))%Q /\
        forall x, In x (_ingredients self) ->
                  (ratio (chars x) (chars (lower ingredient_name))
                   <= ratio (chars m) (chars (lower ingredient_name)))%Q
    | None =>
        forall x, In x (_ingredients self) ->
                  (ratio (chars x) (chars (lower ingredient_name)) < threshold)%Q
    end.
Proof.
  intros H0 H1. split; [reflexivity|].
  apply fuzzy_search_spec; assumption.
Qed.

Lemma fuzzy_search_returns_best_witness :
  default_threshold = 0.6%Q /\
  exists match_,
    _fuzzy_search fruit_engine "Aple" 0.6%Q = Ok match_ /\
    match match_ with
    | Some m =>
        In m (_ingredients fruit_engine) /\
        (0.6 <= ratio (chars m) (chars (lower "Aple")))%Q /\
        forall x, In x (_ingredients fruit_engine) ->
                  (ratio (chars x) (chars (lower "Aple"))
                   <= ratio (chars m) (chars (lower "Aple")))%Q
    | None =>
        forall x, In x (_ingredients fruit_engine) ->
                  (ratio (chars x) (chars (lower "Aple")) < 0.6)%Q
    end.
Proof.
  apply (fuzzy_search_returns_best fruit_engine "Aple" 0.6%Q); discriminate.
Defined.

(* ------------------------------------------------------------------ *)

(** C9.  Every entry of a result of [search] comes from one matcher call
    made with the default threshold 0.6, the only threshold [search] ever
    passes: an entry keyed [q] belongs to an item [(q, w)] with [w > 0];
    under "fuzzy" it reflects [_fuzzy_search(q)] at 0.6, under "semantic"
    [_semantic_search(q)] at 0.6; and a lexical match scores at least 0.6
    against the lower-cased query. *)
Theorem search_uses_default_threshold
  (self : IngredientNutritionSearch) (img_ingredients : list (string * float))
  (search_type : string) (results : list (string * result_data)) :
  search self img_ingredients search_type = Ok results ->
  default_threshold = 0.6%Q /\
  forall q entry, In (q, entry) results ->
    exists w match_,
      In (q, w) img_ingredients /\ (0 <? w)%float = true /\
      ((search_type = "fuzzy" /\
        _fuzzy_search self q default_threshold = Ok match_) \/
       (search_type = "semantic" /\
        _semantic_search self q default_threshold = Ok match_)) /\
      match entry with
      | Matched m w' _ =>
          match_ = Some m /\ w' = w /\
          (search_type = "fuzzy" ->
           (0.6 <= ratio (chars m) (chars (lower q)))%Q)
      | NoMatch => match_ = None \/ match_ = Some ""
      end.
Proof.
  intros H. split; [reflexivity|]. intros q entry Hin.
  destruct (search_ok_entries _ _ _ _ H) as [Hst HF].
  destruct (Forall2_in_r _ _ _ _ HF Hin) as ([q' w] & Hitem & Hentry).
  apply filter_In in Hitem. destruct Hitem as [Hitem _].
  destruct Hentry as (Hq & Hw & match_ & Hd & He). simpl in Hq, Hw, Hd, He.
  subst q'. exists w, match_. repeat split; [exact Hitem|exact Hw| |].
  - destruct Hst as [-> | ->]; [left|right]; split; auto.
  - destruct entry as [|m w' scaled]; [exact He|].
    destruct He as (-> & _ & -> & _). repeat split.
    intros ->. rewrite dispatch_fuzzy in Hd.
    destruct (fuzzy_search_spec self q default_threshold
                (proj1 default_threshold_range) (proj2 default_threshold_range))
      as (r & Hr & Hspec).
    rewrite Hd in Hr. injection Hr as <-. apply Hspec.
Qed.

Lemma search_uses_default_threshold_witness :
  default_threshold = 0.6%Q /\
  forall q entry,
    In (q, entry)
      [("aple", Matched "apple" 150%float (scale_record 150%float apple));
       ("durian", NoMatch)] ->
    exists w match_,
      In (q, w) [("aple", 150%float); ("durian", 50%float)] /\
      (0 <? w)%float = true /\
      (("fuzzy" = "fuzzy" /\
        _fuzzy_search fruit_engine q default_threshold = Ok match_) \/
       ("fuzzy" = "semantic" /\
        _semantic_search fruit_engine q default_threshold = Ok match_)) /\
      match entry with
      | Matched m w' _ =>
          match_ = Some m /\ w' = w /\
          ("fuzzy" = "fuzzy" ->
           (0.6 <= ratio (chars m) (chars (lower q)))%Q)
      | NoMatch => match_ = None \/ match_ = Some ""
      end.
Proof.
  apply (search_uses_default_threshold fruit_engine
           [("aple", 150%float); ("durian", 50%float)] "fuzzy").
  vm_compute. reflexivity.
Defined.

(* ------------------------------------------------------------------ *)

(** C8.  The scenario of the specification: with the table of "apple" and
    "banana", the request [{"aple": 150, "banana": 120}] resolved under
    the lexical strategy (whose threshold is 0.6) gives exactly the two
    expected entries. *)
Theorem search_apple_banana_scenario
  (model : SentenceTransformer) (self : IngredientNutritionSearch) :
  __init__ fruit_rows model = Ok self ->
  default_threshold = 0.6%Q /\
  data self = [("apple", apple); ("banana", banana)] /\
  search self [("aple", 150%float); ("banana", 120%float)] "fuzzy" =
  Ok [("aple",
       Matched "apple" 150
         {| calories := 78; fats := 0; proteins := 0; carbohydrates := 21 |});
      ("banana",
       Matched "banana" 120
         {| calories := 107; fats := 0; proteins := 1; carbohydrates := 27 |})].
Proof.
  unfold __init__.
  destruct (mapM (encode model) (keys (_load_data fruit_rows))) as [embs|e];
    simpl; [|discriminate].
  intros H; injection H as <-.
  split; [reflexivity|split; [reflexivity|]].
  vm_compute. reflexivity.
Qed.

Lemma search_apple_banana_scenario_witness :
  default_threshold = 0.6%Q /\
  data fruit_engine = [("apple", apple); ("banana", banana)] /\
  search fruit_engine [("aple", 150%float); ("banana", 120%float)] "fuzzy" =
  Ok [("aple",
       Matched "apple" 150
         {| calories := 78; fats := 0; proteins := 0; carbohydrates := 21 |});
      ("banana",
       Matched "banana" 120
         {| calories := 107; fats := 0; proteins := 1; carbohydrates := 27 |})].
Proof.
  apply (search_apple_banana_scenario length_model fruit_engine).
  reflexivity.
Defined.

(* ------------------------------------------------------------------ *)

(** C7, as the code has it.  Let [n] be a non-empty key of the table of an
    engine that [__init__] returned, and [w > 0].  The lexical matcher
    returns [n] for the query [n] at every threshold in [0, 1], and
    [search] under "fuzzy" emits an entry whose match is [n].  The semantic
    matcher returns [n] when the embedding of [n] can be computed and the
    score at the position of [n] is the first largest one and reaches the
    threshold; [search] under "semantic" then emits an entry whose match
    is [n]. *)
Theorem exact_name_resolves_to_itself
  (rows : list Row) (model : SentenceTransformer)
  (self : IngredientNutritionSearch) (n : string) (w : float) :
  __init__ rows model = Ok self ->
  In n (keys (data self)) -> n <> "" -> (0 <? w)%float = true ->
  (forall threshold, (0 <= threshold)%Q -> (threshold <= 1)%Q ->
                     _fuzzy_search self n threshold = Ok (Some n)) /\
  (exists scaled, search self [(n, w)] "fuzzy" = Ok [(n, Matched n w scaled)]) /\
  (forall (t : tensor (encoder self)) (i : nat),
      encode (encoder self) n = Ok t ->
      nth_error (_ingredients self) i = Some n ->
      let scores := map (cos_sim (encoder self) t) (_embeddings self) in
      (forall j, j < i -> (nth j scores 0 < nth i scores 0)%Q) ->
      (forall j, j < length scores -> (nth j scores 0 <= nth i scores 0)%Q) ->
      (forall threshold, (threshold <= nth i scores 0)%Q ->
                         _semantic_search self n threshold = Ok (Some n)) /\
      ((default_threshold <= nth i scores 0)%Q ->
       exists scaled,
         search self [(n, w)] "semantic" = Ok [(n, Matched n w scaled)])).
Proof.
  intros Hinit Hin Hne Hw.
  destruct (init_well_formed _ _ _ Hinit) as [Hwf _].
  pose proof (wf_lower _ Hwf n Hin) as Hlow.
  destruct (dict_get_in _ _ Hin) as [d Hd].
  assert (Hing : In n (_ingredients self))
    by (rewrite (wf_ingredients _ Hwf); exact Hin).
  split; [|split].
  - intros thr H0 H1. apply fuzzy_search_exact; assumption.
  - exists (scale_record w d).
    apply search_single; auto.
    rewrite dispatch_fuzzy.
    apply fuzzy_search_exact; auto; apply default_threshold_range.
  - intros t i He Hnth scores Hlt Hle.
    assert (Hi : i < length scores).
    { subst scores. rewrite length_map, (wf_embeddings _ Hwf).
      apply nth_error_Some. congruence. }
    assert (Hsem : forall thr, (thr <= nth i scores 0)%Q ->
                               _semantic_search self n thr = Ok (Some n)).
    { intros thr Hthr. unfold _semantic_search. rewrite Hlow, He. simpl.
      fold scores. rewrite (argmax_first scores i Hi Hlt Hle). simpl.
      apply Qle_bool_iff in Hthr. rewrite Hthr, Hnth. reflexivity. }
    split; [exact Hsem|].
    intros Hthr. exists (scale_record w d).
    apply search_single; auto.
    rewrite dispatch_semantic. apply Hsem. exact Hthr.
Qed.

Lemma exact_name_resolves_to_itself_witness :
  (forall threshold, (0 <= threshold)%Q -> (threshold <= 1)%Q ->
                     _fuzzy_search fruit_engine "banana" threshold
                     = Ok (Some "banana")) /\
  (exists scaled,
      search fruit_engine [("banana", 120%float)] "fuzzy"
      = Ok [("banana", Matched "banana" 120%float scaled)]) /\
  (forall threshold, (threshold <= 1)%Q ->
                     _semantic_search fruit_engine "banana" threshold
                     = Ok (Some "banana")) /\
  (exists scaled,
      search fruit_engine [("banana", 120%float)] "semantic"
      = Ok [("banana", Matched "banana" 120%float scaled)]).
Proof.
  destruct (exact_name_resolves_to_itself fruit_rows length_model fruit_engine
              "banana" 120%float) as (Hfuzzy & Hsearch & Hsemantic).
  - reflexivity.
  - simpl. auto.
  - discriminate.
  - vm_compute. reflexivity.
  - destruct (Hsemantic 6 1 eq_refl eq_refl) as (Hmatch & Hentry).
    + intros j Hj. destruct j as [|j]; [reflexivity|lia].
    + intros j Hj. destruct j as [|[|j]]; [discriminate|discriminate|].
      simpl in Hj. lia.
    + repeat split; [exact Hfuzzy|exact Hsearch|exact Hmatch|].
      apply Hentry. discriminate.
Defined.

(** C7, as stated, fails under the semantic strategy: an encoder that
    gives "apple" and "grape" the same embedding resolves the exact name
    "grape" to "apple", the first of the two in the table. *)
Lemma exact_name_semantic_mismatch :
  __init__ grape_rows length_model = Ok grape_engine /\
  In "grape" (keys (data grape_engine)) /\
  search grape_engine [("grape", 100%float)] "semantic" =
  Ok [("grape", Matched "apple" 100 (scale_record 100 apple))] /\
  ~ exists scaled,
      search grape_engine [("grape", 100%float)] "semantic" =
      Ok [("grape", Matched "grape" 100 scaled)].
Proof.
  repeat split; try (vm_compute; reflexivity).
  - simpl. auto.
  - intros (scaled & H). vm_compute in H. discriminate.
Qed.

(** An empty name is a key like any other for [_fuzzy_search], but
    [search] tests the match for truth and reports the empty name as
    unmatched. *)
Lemma empty_name_is_reported_unmatched :
  forall self, __init__ nameless_rows length_model = Ok self ->
    In "" (keys (data self)) /\
    _fuzzy_search self "" default_threshold = Ok (Some "") /\
    search self [("", 100%float)] "fuzzy" = Ok [("", NoMatch)].
Proof.
  intros self H. vm_compute in H. injection H as <-.
  repeat split; try (vm_compute; reflexivity). simpl. auto.
Qed.

(* ------------------------------------------------------------------ *)

(** C1, as the code has it.  Let [n] be a non-empty key of the table of an
    engine that [__init__] returned, [r] its record and [w > 0].  Under the
    lexical strategy, [search] on the request [{n: w}] returns the single
    entry keyed [n] whose match is [n], whose weight is [w], and whose four
    fields are [round(r.field * (w / 100.0), 0)], evaluated in double
    precision with ties rounded to even. *)
Theorem search_scales_exact_name
  (rows : list Row) (model : SentenceTransformer)
  (self : IngredientNutritionSearch) (n : string) (r : NutritionRecord)
  (w : float) :
  __init__ rows model = Ok self ->
  dict_get (data self) n = Some r -> n <> "" -> (0 <? w)%float = true ->
  search self [(n, w)] default_search_type =
  Ok [(n, Matched n w
            {| calories := round0 (calories r * (w / 100))%float;
               fats := round0 (fats r * (w / 100))%float;
               proteins := round0 (proteins r * (w / 100))%float;
               carbohydrates := round0 (carbohydrates r * (w / 100))%float |})].
Proof.
  intros Hinit Hd Hne Hw.
  destruct (init_well_formed _ _ _ Hinit) as [Hwf _].
  pose proof (dict_get_some_in _ _ _ Hd) as Hin.
  apply (search_single self "fuzzy" n n w r); auto.
  rewrite dispatch_fuzzy. apply fuzzy_search_exact.
  - rewrite (wf_ingredients _ Hwf). exact Hin.
  - apply (wf_lower _ Hwf). exact Hin.
  - apply default_threshold_range.
  - apply default_threshold_range.
Qed.

Lemma search_scales_exact_name_witness :
  search ricotta_engine [("ricotta", 820%float)] default_search_type =
  Ok [("ricotta", Matched "ricotta" 820%float
         {| calories := round0 (calories ricotta * (820 / 100))%float;
            fats := round0 (fats ricotta * (820 / 100))%float;
            proteins := round0 (proteins ricotta * (820 / 100))%float;
            carbohydrates := round0 (carbohydrates ricotta * (820 / 100))%float |})].
Proof.
  apply (search_scales_exact_name ricotta_rows length_model ricotta_engine
           "ricotta" ricotta 820%float).
  - reflexivity.
  - reflexivity.
  - discriminate.
  - vm_compute. reflexivity.
Defined.

(** C1, as stated, fails.  With 7.5 g of protein per 100 g and a weight of
    820 g, every quantity of the stated formula is exact: 7.5 * 820 / 100
    is 61.5, and [round] makes 62 of it (so would rounding half up).
    [search] reports 61.0: it divides first, 820 / 100.0 is the double
    nearest to 8.2, which lies below 8.2, and 7.5 times that double is
    below 61.5. *)
Lemma scaled_value_differs_from_stated_formula :
  __init__ ricotta_rows length_model = Ok ricotta_engine /\
  dict_get (data ricotta_engine) "ricotta" = Some ricotta /\
  (0 <? 820)%float = true /\
  (proteins ricotta = 15 / 2)%float /\
  (proteins ricotta * 820 / 100 = 123 / 2)%float /\
  round0 (proteins ricotta * 820 / 100)%float = 62%float /\
  (proteins ricotta * (820 / 100) <? 123 / 2)%float = true /\
  exists scaled,
    search ricotta_engine [("ricotta", 820%float)] "fuzzy" =
    Ok [("ricotta", Matched "ricotta" 820 scaled)] /\
    proteins scaled = 61%float /\
    proteins scaled <> round0 (proteins ricotta * 820 / 100)%float.
Proof.
  repeat split; try (vm_compute; reflexivity).
  exists (scale_record 820%float ricotta).
  repeat split; try (vm_compute; reflexivity).
  intros H. apply (f_equal Prim2SF) in H. vm_compute in H. discriminate.
Qed.

(* ------------------------------------------------------------------ *)

Lemma round0_rounds_half_even (x : float) :
  Vocabulary.rounds_half_even x (round0 x).
Proof.
  unfold Vocabulary.rounds_half_even. split; [reflexivity|].
  pose proof (round0_integral x) as Hi.
  destruct (Prim2SF x) as [s|s| |s m e] eqn:Hx.
  - split; [|exact Hi]. unfold round0. rewrite Hx. reflexivity.
  - split; [exact Hi|]. rewrite Hi. unfold integral. rewrite Hx. reflexivity.
  - split; [exact Hi|]. rewrite Hi. unfold integral. rewrite Hx. reflexivity.
  - split; [exact Hi|]. split.
    + intros He. unfold round0. rewrite Hx.
      destruct (Z.leb_spec 0 e); [reflexivity|lia].
    + intros He. exists (round_half_even (Z.pos m) (- e)).
      destruct (round_half_even_nearest (Z.pos m) (- e)) as (H1 & H2 & _);
        [lia|lia|].
      split; [exact H1|]. split; [exact H2|].
      unfold round0. rewrite Hx.
      destruct (Z.leb_spec 0 e); [lia|reflexivity].
Qed.

(** C10, as the code has it.  Each field of a matched entry of a result of
    [search] is [round(value * (weight / 100.0), 0)] of the table value,
    computed on floats.  When the product is finite, the field is a float
    that holds an integer, never a Python [int]: the integer nearest to
    the exact value of the product and, half-way between two integers, the
    even one (0.5 gives 0.0, 1.5 gives 2.0, 2.5 gives 2.0, 3.5 gives 4.0).
    When the product is an infinity or a NaN, the field is that infinity
    or NaN, which holds no integer. *)
Theorem scaled_values_are_rounded_half_even
  (self : IngredientNutritionSearch)
  (img_ingredients : list (string * float)) (search_type : string)
  (results : list (string * result_data))
  (q m : string) (w : float) (scaled : NutritionRecord) :
  search self img_ingredients search_type = Ok results ->
  In (q, Matched m w scaled) results ->
  exists d,
    dict_get (data self) m = Some d /\
    Vocabulary.rounds_half_even (calories d * (w / 100))%float (calories scaled) /\
    Vocabulary.rounds_half_even (fats d * (w / 100))%float (fats scaled) /\
    Vocabulary.rounds_half_even (proteins d * (w / 100))%float (proteins scaled) /\
    Vocabulary.rounds_half_even (carbohydrates d * (w / 100))%float
      (carbohydrates scaled).
Proof.
  intros H Hin.
  destruct (search_ok_entries _ _ _ _ H) as [_ HF].
  destruct (Forall2_in_r _ _ _ _ HF Hin) as (item & _ & Hentry).
  destruct Hentry as (_ & _ & match_ & _ & He). simpl in He.
  destruct He as (_ & _ & _ & d & Hd & ->).
  exists d. split; [exact Hd|].
  cbn [scale_record calories fats proteins carbohydrates]. unfold scale.
  repeat split; apply round0_rounds_half_even.
Qed.

Lemma scaled_values_are_rounded_half_even_witness :
  exists d,
    dict_get (data Vocabulary.halves_engine) "halves" = Some d /\
    Vocabulary.rounds_half_even (calories d * (100 / 100))%float 0%float /\
    Vocabulary.rounds_half_even (fats d * (100 / 100))%float 2%float /\
    Vocabulary.rounds_half_even (proteins d * (100 / 100))%float 2%float /\
    Vocabulary.rounds_half_even (carbohydrates d * (100 / 100))%float 4%float.
Proof.
  apply (scaled_values_are_rounded_half_even Vocabulary.halves_engine
           [("halves", 100%float)] "fuzzy"
           [("halves",
             Matched "halves" 100%float
               {| calories := 0; fats := 2; proteins := 2;
                  carbohydrates := 4 |})]
           "halves" "halves" 100%float
           {| calories := 0; fats := 2; proteins := 2; carbohydrates := 4 |}).
  - vm_compute. reflexivity.
  - left. reflexivity.
Defined.

(** C10, as stated, fails: not every emitted value is whole-valued.  With
    1e308 kcal per 100 g and a weight of 2000 g the product overflows, and
    [search] reports an infinity, which holds no integer. *)
Lemma overflowing_value_is_emitted_as_infinity :
  search Vocabulary.dense_engine [("dense", 2000%float)] "fuzzy" =
  Ok [("dense",
       Matched "dense" 2000%float
         {| calories := infinity; fats := 0; proteins := 0;
            carbohydrates := 0 |})]
  /\ integral infinity = false.
Proof. split; vm_compute; reflexivity. Qed.

End Claims.

(* ================================================================== *)
(** ** The table: [_load_data] and [__init__] *)

Module TableFacts.

Import Py Search Notions Vocabulary Fixtures PyFacts EngineFacts.

Local Open Scope string_scope.
Local Open Scope list_scope.

Lemma dict_get_set_same {V : Type} (d : dict V) (k : string) (v : V) :
  dict_get (dict_set d k v) k = Some v.
Proof.
  induction d as [|[k' v'] d IH]; simpl.
  - rewrite String.eqb_refl. reflexivity.
  - destruct (String.eqb k' k) eqn:E; simpl; rewrite E; [reflexivity|exact IH].
Qed.

Lemma dict_get_set_other {V : Type} (d : dict V) (k k' : string) (v : V) :
  k' <> k -> dict_get (dict_set d k v) k' = dict_get d k'.
Proof.
  intros Hne. induction d as [|[k0 v0] d IH]; simpl.
  - destruct (String.eqb_spec k k'); [congruence|reflexivity].
  - destruct (String.eqb_spec k0 k) as [->|Hk]; simpl.
    + destruct (String.eqb_spec k k'); [congruence|reflexivity].
    + destruct (String.eqb k0 k'); [reflexivity|exact IH].
Qed.

Lemma dict_set_fresh {V : Type} (d : dict V) (k : string) (v : V) :
  ~ In k (keys d) -> dict_set d k v = d ++ [(k, v)].
Proof.
  induction d as [|[k' v'] d IH]; simpl; intros Hnotin; [reflexivity|].
  destruct (String.eqb_spec k' k) as [->|Hk].
  - exfalso. apply Hnotin. left. reflexivity.
  - f_equal. apply IH. intros Hin. apply Hnotin. right. exact Hin.
Qed.

Lemma load_data_snoc (rows : list Row) (r : Row) :
  _load_data (rows ++ [r]) = dict_set (_load_data rows) (key_of r) (record_of r).
Proof. unfold _load_data. rewrite fold_left_app. reflexivity. Qed.

Lemma twice_engine_init : __init__ twice_rows length_model = Ok twice_engine.
Proof. reflexivity. Qed.

(** X1.  The keys of the table that [_load_data] builds are exactly the
    lower-cased names of the rows: every row is reachable under its
    lower-cased name, nothing else is a key, no key comes twice and every
    key is its own lower-case form. *)
Theorem load_data_keys_are_lowered_names (rows : list Row) :
  NoDup (keys (_load_data rows)) /\
  (forall k, In k (keys (_load_data rows)) <->
             exists r, In r rows /\ k = lower (name r)) /\
  (forall k, In k (keys (_load_data rows)) -> lower k = k).
Proof.
  destruct (load_data_keys rows) as [Hnd Hlow].
  split; [exact Hnd|]. split; [|exact Hlow].
  induction rows as [|r rows IH] using rev_ind; intros k.
  - simpl. split; [intros []|intros (r & [] & _)].
  - rewrite load_data_snoc, in_keys_dict_set.
    destruct (load_data_keys rows) as [Hnd' Hlow'].
    specialize (IH Hnd' Hlow' k). split.
    + intros [->|Hin].
      * exists r. split; [apply in_or_app; right; left; reflexivity|reflexivity].
      * apply IH in Hin. destruct Hin as (r0 & Hin & ->).
        exists r0. split; [apply in_or_app; left; exact Hin|reflexivity].
    + intros (r0 & Hin & ->). apply in_app_or in Hin.
      destruct Hin as [Hin|[<-|[]]].
      * right. apply IH. exists r0. split; [exact Hin|reflexivity].
      * left. reflexivity.
Qed.

(** X2.  Looking a key up in the table gives the values of the last row
    whose lower-cased name is that key: when several rows bear the same
    name up to letter case, the later row overwrites the earlier one, and
    a key that no row bears is absent. *)
Theorem load_data_last_row_wins (rows : list Row) (k : string)
  (d : NutritionRecord) :
  dict_get (_load_data rows) k = Some d <->
  exists pre r post,
    rows = pre ++ r :: post /\ lower (name r) = k /\ d = record_of r /\
    forall r', In r' post -> lower (name r') <> k.
Proof.
  split.
  - revert d. induction rows as [|r rows IH] using rev_ind; intros d H.
    + discriminate.
    + rewrite load_data_snoc in H.
      destruct (string_dec (key_of r) k) as [E|E].
      * rewrite <- E, dict_get_set_same in H. injection H as <-.
        exists rows, r, []. repeat split; try assumption. intros r' [].
      * rewrite dict_get_set_other in H by congruence.
        destruct (IH d H) as (pre & r0 & post & -> & Hk & Hd & Hpost).
        exists pre, r0, (post ++ [r]). split.
        { rewrite <- app_assoc. reflexivity. }
        split; [exact Hk|]. split; [exact Hd|].
        intros r' Hin. apply in_app_or in Hin.
        destruct Hin as [Hin|[<-|[]]]; [apply Hpost; exact Hin|exact E].
  - intros (pre & r & post & -> & Hk & -> & Hpost).
    induction post as [|r' post IH] using rev_ind.
    + rewrite load_data_snoc. unfold key_of. rewrite Hk.
      apply dict_get_set_same.
    + change (pre ++ r :: post ++ [r']) with (pre ++ (r :: post) ++ [r']).
      rewrite app_assoc, load_data_snoc.
      rewrite dict_get_set_other.
      * apply IH. intros r0 Hin. apply Hpost. apply in_or_app. left. exact Hin.
      * intros E. apply (Hpost r'); [apply in_or_app; right; left; reflexivity|].
        symmetry. exact E.
Qed.

(** X3.  When no two rows bear the same name up to letter case, the table
    has one entry per row, in the order of the file: the lower-cased name
    with the four values of the row. *)
Theorem load_data_row_for_row (rows : list Row) :
  NoDup (map (fun r => lower (name r)) rows) ->
  _load_data rows = map (fun r => (lower (name r), record_of r)) rows.
Proof.
  induction rows as [|r rows IH] using rev_ind; intros Hnd; [reflexivity|].
  rewrite map_app in Hnd. simpl in Hnd.
  apply NoDup_remove in Hnd. rewrite app_nil_r in Hnd.
  destruct Hnd as [Hnd Hnotin].
  rewrite load_data_snoc, (IH Hnd), map_app. simpl.
  apply dict_set_fresh. unfold keys. rewrite map_map. simpl. exact Hnotin.
Qed.

Lemma load_data_row_for_row_witness :
  _load_data fruit_rows =
  map (fun r => (lower (name r), record_of r)) fruit_rows.
Proof.
  apply (load_data_row_for_row fruit_rows).
  repeat constructor; simpl; intuition discriminate.
Defined.

End TableFacts.

(* ================================================================== *)
(** ** Reading the CSV file *)

Module CsvFacts.

Import Py Search Csv Notions Vocabulary Fixtures PyFacts EngineFacts
  TableFacts.

Local Open Scope string_scope.
Local Open Scope list_scope.

Section Loader.

Variable float_of_str : string -> option float.

Lemma comprehension_spec (rows : list csv_row) :
  forall acc t,
    comprehension float_of_str rows acc = Returns t <->
    exists parsed,
      Forall2 (fun row r => read_row float_of_str row = Returns r) rows parsed /\
      t = fold_left
            (fun ingredients r => dict_set ingredients (key_of r) (record_of r))
            parsed acc.
Proof.
  induction rows as [|row rows IH]; intros acc t; simpl.
  - split.
    + intros H. injection H as <-. exists []. split; [constructor|reflexivity].
    + intros (parsed & HF & ->). inversion HF. reflexivity.
  - destruct (read_row float_of_str row) as [r|e] eqn:Er; simpl.
    + rewrite IH. split.
      * intros (parsed & HF & ->). exists (r :: parsed).
        split; [constructor; assumption|reflexivity].
      * intros (parsed & HF & ->). inversion HF as [|? r' ? parsed' Hr HF']; subst.
        rewrite Er in Hr. injection Hr as <-.
        exists parsed'. split; [exact HF'|reflexivity].
    + split; [discriminate|].
      intros (parsed & HF & _). inversion HF as [|? r' ? parsed' Hr HF']; subst.
      rewrite Er in Hr. discriminate.
Qed.

Lemma comprehension_raises (rows : list csv_row) :
  forall acc e,
    comprehension float_of_str rows acc = Raises e ->
    exists row, In row rows /\ read_row float_of_str row = Raises e.
Proof.
  induction rows as [|row rows IH]; intros acc e; simpl; [discriminate|].
  destruct (read_row float_of_str row) as [r|e'] eqn:Er; simpl.
  - intros H. destruct (IH _ _ H) as (row' & Hin & Hr).
    exists row'. split; [right; exact Hin|exact Hr].
  - intros H. injection H as <-. exists row. split; [left; reflexivity|exact Er].
Qed.

Ltac cell column :=
  let E := fresh "E" in
  unfold getitem at 1;
  destruct (dict_get _ column) as [[?|]|] eqn:E; cbn [and_then text];
  [ | intros H; injection H as <-; split; [simpl; tauto|exact E]
    | intros H; injection H as <-; split; [simpl; tauto|exact E] ].

Ltac number column :=
  let F := fresh "F" in
  unfold to_float at 1;
  match goal with
  | |- context [float_of_str ?s] =>
      destruct (float_of_str s) eqn:F; cbn [and_then];
      [ | intros H; injection H as <-; split; [exact F|];
          eexists column, _; split; [simpl; tauto|];
          split; [eassumption|reflexivity] ]
  end.

Lemma read_row_raises (row : csv_row) (e : raised) :
  read_row float_of_str row = Raises e -> explains float_of_str row e.
Proof.
  unfold read_row.
  cell "name". cell "calories". number "calories".
  cell "total_fat". number "total_fat".
  cell "protein". number "protein".
  cell "carbohydrate". number "carbohydrate".
  discriminate.
Qed.

Lemma read_row_needs_columns (row : csv_row) (column : string) :
  In column columns -> dict_get row column = None ->
  exists e, read_row float_of_str row = Raises e.
Proof.
  intros Hin Hnone. unfold read_row, getitem, text, to_float.
  repeat match goal with
  | |- context [dict_get row ?c] =>
      destruct (dict_get row c) as [[?|]|] eqn:?; cbn [and_then];
      try (eexists; reflexivity)
  | |- context [float_of_str ?s] =>
      destruct (float_of_str s) eqn:?; cbn [and_then];
      try (eexists; reflexivity)
  end.
  exfalso. simpl in Hin.
  destruct Hin as [<-|[<-|[<-|[<-|[<-|[]]]]]]; congruence.
Qed.

Lemma among_g (c : ascii) : among "g" c = Ascii.eqb c "g".
Proof. unfold among. simpl. apply orb_false_r. Qed.

Lemma rstrip_snoc (chars : string) (c : ascii) (s : string) :
  among chars c = true ->
  rstrip chars (s ++ String c EmptyString)%string = rstrip chars s.
Proof.
  intros Hc. induction s as [|x s IH]; simpl.
  - rewrite Hc. reflexivity.
  - rewrite IH. reflexivity.
Qed.

Lemma strip_snoc (chars : string) (c : ascii) (s : string) :
  among chars c = true ->
  strip chars (s ++ String c EmptyString)%string = strip chars s.
Proof.
  intros Hc. unfold strip. induction s as [|x s IH]; simpl.
  - rewrite Hc. reflexivity.
  - destruct (among chars x); [exact IH|].
    apply (rstrip_snoc chars c (String x s) Hc).
Qed.

Lemma dict_get_with_unit (row : csv_row) (column : string) :
  dict_get (with_unit row) column =
  if String.eqb column "total_fat" || String.eqb column "protein"
     || String.eqb column "carbohydrate"
  then option_map (option_map (fun s => (s ++ "g")%string)) (dict_get row column)
  else dict_get row column.
Proof.
  induction row as [|[k v] row IH]; simpl.
  - destruct (_ || _); reflexivity.
  - destruct (String.eqb_spec k column) as [->|Hk].
    + destruct (String.eqb column "total_fat" || String.eqb column "protein"
                || String.eqb column "carbohydrate") eqn:E;
        simpl; rewrite String.eqb_refl; reflexivity.
    + destruct (String.eqb k "total_fat" || String.eqb k "protein"
                || String.eqb k "carbohydrate");
        simpl; destruct (String.eqb_spec k column); try congruence; exact IH.
Qed.

Lemma read_row_with_unit (row : csv_row) :
  read_row float_of_str (with_unit row) = read_row float_of_str row.
Proof.
  unfold read_row, getitem. rewrite !dict_get_with_unit. simpl.
  destruct (dict_get row "name") as [[n|]|]; cbn [and_then text]; try reflexivity.
  destruct (dict_get row "calories") as [[c|]|]; cbn [and_then text];
    try reflexivity.
  destruct (to_float float_of_str c); cbn [and_then]; try reflexivity.
  destruct (dict_get row "total_fat") as [[f|]|];
    cbn [and_then text option_map]; try reflexivity.
  rewrite (strip_snoc "g" "g" f eq_refl).
  destruct (to_float float_of_str (strip "g" f)); cbn [and_then]; try reflexivity.
  destruct (dict_get row "protein") as [[p|]|];
    cbn [and_then text option_map]; try reflexivity.
  rewrite (strip_snoc "g" "g" p eq_refl).
  destruct (to_float float_of_str (strip "g" p)); cbn [and_then]; try reflexivity.
  destruct (dict_get row "carbohydrate") as [[h|]|];
    cbn [and_then text option_map]; try reflexivity.
  rewrite (strip_snoc "g" "g" h eq_refl). reflexivity.
Qed.

Lemma comprehension_with_unit (rows : list csv_row) :
  forall acc,
    comprehension float_of_str (map with_unit rows) acc =
    comprehension float_of_str rows acc.
Proof.
  induction rows as [|row rows IH]; intros acc; simpl; [reflexivity|].
  rewrite read_row_with_unit.
  destruct (read_row float_of_str row); simpl; [apply IH|reflexivity].
Qed.

End Loader.

(** X5.  [_load_data] returns a table exactly when the file exists and
    every one of its rows can be read, and the table is then the one built
    from the rows as read, in the order of the file; one row that cannot be
    read leaves no table at all. *)
Theorem load_data_file_reads_every_row (float_of_str : string -> option float)
  (source : file) (table : dict NutritionRecord) :
  _load_data_file float_of_str source = Returns table <->
  exists rows parsed,
    source = Opened rows None /\
    Forall2 (fun row r => read_row float_of_str row = Returns r) rows parsed /\
    table = _load_data parsed.
Proof.
  unfold _load_data_file. split.
  - destruct source as [|what|rows failure]; try discriminate.
    destruct (comprehension float_of_str rows []) as [t|e] eqn:E; cbn [and_then].
    + destruct failure as [what|]; [discriminate|].
      intros H. injection H as <-.
      apply comprehension_spec in E. destruct E as (parsed & HF & ->).
      exists rows, parsed. repeat split. exact HF.
    + destruct e; discriminate.
  - intros (rows & parsed & -> & HF & ->).
    assert (E : comprehension float_of_str rows [] = Returns (_load_data parsed)).
    { apply comprehension_spec. exists parsed. split; [exact HF|reflexivity]. }
    rewrite E. reflexivity.
Qed.

(** X6.  Every failure of [_load_data] has its cause in the file.
    [FileNotFoundError] means that there is no file.  [KeyError] names one
    of the five columns read, and some row lacks that column.  [Exception]
    is what every other failure is turned into: [open] raised something
    else than [FileNotFoundError]; or the reader raised after yielding
    rows that could all be read; or a row has an empty ([None]) cell in
    one of the five columns, as a line with too few cells has; or a cell
    is rejected by [float] (after the "g" is stripped, for the three gram
    columns).  It is never raised for a missing column. *)
Theorem load_data_file_failure_has_cause (float_of_str : string -> option float)
  (source : file) (e : load_exn) :
  _load_data_file float_of_str source = Raises e ->
  match e with
  | FileNotFoundError => source = Absent
  | KeyError column =>
      exists rows failure row,
        source = Opened rows failure /\ In row rows /\
        explains float_of_str row (MissingKey column)
  | Exception cause =>
      match cause with
      | FileNotFound | MissingKey _ => False
      | OpenError what => source = Refused what
      | ReaderError what =>
          exists rows parsed,
            source = Opened rows (Some what) /\
            Forall2 (fun row r => read_row float_of_str row = Returns r)
              rows parsed
      | NoneCell _ | BadFloat _ =>
          exists rows failure row,
            source = Opened rows failure /\ In row rows /\
            explains float_of_str row cause
      end
  end.
Proof.
  unfold _load_data_file. destruct source as [|what|rows failure].
  - intros H. injection H as <-. reflexivity.
  - intros H. injection H as <-. reflexivity.
  - destruct (comprehension float_of_str rows []) as [t|c] eqn:E; cbn [and_then].
    + destruct failure as [what|]; [|discriminate].
      intros H. injection H as <-.
      apply comprehension_spec in E. destruct E as (parsed & HF & _).
      exists rows, parsed. split; [reflexivity|exact HF].
    + apply comprehension_raises in E. destruct E as (row & Hin & Hr).
      apply read_row_raises in Hr.
      destruct c; intros H; injection H as <-; try (destruct Hr; fail);
        exists rows, failure, row; auto.
Qed.

Lemma load_data_file_failure_has_cause_witness :
  exists rows failure row,
    Opened [apple_line; short_line] None = Opened rows failure /\
    In row rows /\
    explains float_of_digits row (NoneCell "protein").
Proof.
  apply (load_data_file_failure_has_cause float_of_digits
           (Opened [apple_line; short_line] None) (Exception (NoneCell "protein"))).
  vm_compute. reflexivity.
Defined.

(** X7.  The unit after a gram value is optional: writing "g" after the
    cells of the columns [total_fat], [protein] and [carbohydrate] of
    every row changes nothing of what [_load_data] returns or raises. *)
Theorem load_data_file_unit_is_optional (float_of_str : string -> option float)
  (rows : list csv_row) (failure : option string) :
  _load_data_file float_of_str (Opened (map with_unit rows) failure) =
  _load_data_file float_of_str (Opened rows failure).
Proof.
  unfold _load_data_file. rewrite comprehension_with_unit. reflexivity.
Qed.

(** X8.  A file without rows loads as the empty table, whatever its
    header is.  A file whose first row lacks one of the five columns read
    never loads: [_load_data] raises, and what it raises is not
    [FileNotFoundError]. *)
Theorem load_data_file_needs_columns (float_of_str : string -> option float) :
  _load_data_file float_of_str (Opened [] None) = Returns [] /\
  forall row rows failure column,
    In column columns -> dict_get row column = None ->
    exists e,
      _load_data_file float_of_str (Opened (row :: rows) failure) = Raises e /\
      e <> FileNotFoundError.
Proof.
  split; [reflexivity|].
  intros row rows failure column Hin Hnone.
  destruct (read_row_needs_columns float_of_str row column Hin Hnone) as [e He].
  unfold _load_data_file. cbn [comprehension]. rewrite He. cbn [and_then].
  pose proof (read_row_raises float_of_str row e He) as Hx.
  destruct e; try (destruct Hx; fail); eexists; split;
    try reflexivity; discriminate.
Qed.

End CsvFacts.

(* ================================================================== *)
(** ** The lexical matcher: which candidate wins *)

Module MatcherFacts.

Import Py Difflib Search Notions Vocabulary Fixtures PyFacts RatioFacts
  EngineFacts TableFacts.

Local Open Scope string_scope.
Local Open Scope list_scope.

(** *** The order of [str] *)

Lemma string_ltb_lt (a b : string) :
  String.ltb a b = true <-> OrderedTypeEx.String_as_OT.lt a b.
Proof.
  rewrite <- OrderedTypeEx.String_as_OT.cmp_lt.
  unfold String.ltb, OrderedTypeEx.String_as_OT.cmp.
  destruct (String.compare a b); split; congruence.
Qed.

Lemma string_ltb_trans (a b c : string) :
  String.ltb a b = true -> String.ltb b c = true -> String.ltb a c = true.
Proof.
  rewrite !string_ltb_lt. apply OrderedTypeEx.String_as_OT.lt_trans.
Qed.

Lemma string_ltb_asym (a b : string) :
  String.ltb a b = true -> String.ltb b a = false.
Proof.
  unfold String.ltb.
  pose proof (OrderedTypeEx.String_as_OT.cmp_antisym b a) as H.
  unfold OrderedTypeEx.String_as_OT.cmp in H. rewrite H.
  destruct (String.compare a b); simpl; congruence.
Qed.

Lemma string_ltb_total (a b : string) :
  String.ltb a b = false -> String.ltb b a = false -> a = b.
Proof.
  unfold String.ltb. intros H1 H2.
  apply OrderedTypeEx.String_as_OT.cmp_eq.
  pose proof (OrderedTypeEx.String_as_OT.cmp_antisym b a) as H.
  unfold OrderedTypeEx.String_as_OT.cmp in *. rewrite H in H2.
  destruct (String.compare a b); simpl in *; congruence.
Qed.

(** *** The order of the pairs [(score, x)] *)

Lemma pair_gt_cases (p q : Q * string) :
  pair_gt p q = true <->
  (fst q < fst p)%Q \/
  ((fst p == fst q)%Q /\ String.ltb (snd q) (snd p) = true).
Proof.
  unfold pair_gt. destruct (Qeq_bool (fst p) (fst q)) eqn:E.
  - apply Qeq_bool_iff in E. split.
    + intros H. right. split; assumption.
    + intros [H|[_ H]]; [lra|exact H].
  - assert (Hne : ~ (fst p == fst q)%Q).
    { intros H. apply Qeq_bool_iff in H. congruence. }
    rewrite negb_true_iff. split.
    + intros H. left. apply Qnot_le_lt. intros Hle.
      apply Qle_bool_iff in Hle. congruence.
    + intros [H|[H _]]; [|contradiction].
      destruct (Qle_bool (fst p) (fst q)) eqn:L; [|reflexivity].
      apply Qle_bool_iff in L. lra.
Qed.

Lemma pair_le_cases (p q : Q * string) :
  pair_gt p q = false <->
  (fst p < fst q)%Q \/
  ((fst p == fst q)%Q /\ String.ltb (snd q) (snd p) = false).
Proof.
  rewrite <- not_true_iff_false, pair_gt_cases. split.
  - intros H. destruct (Qlt_le_dec (fst p) (fst q)) as [Hlt|Hle]; [left; exact Hlt|].
    right. assert (Heq : (fst p == fst q)%Q).
    { destruct (Qlt_le_dec (fst q) (fst p)) as [Hlt|Hle'];
        [exfalso; apply H; left; exact Hlt|lra]. }
    split; [exact Heq|].
    destruct (String.ltb (snd q) (snd p)) eqn:E; [|reflexivity].
    exfalso. apply H. right. split; [exact Heq|reflexivity].
  - intros [H|[H1 H2]] [H'|[H1' H2']]; try lra. congruence.
Qed.

Lemma pair_gt_irrefl (p : Q * string) : pair_gt p p = false.
Proof.
  apply pair_le_cases. right. split; [reflexivity|apply string_ltb_irrefl].
Qed.

Lemma pair_gt_asym (p q : Q * string) : pair_gt p q = true -> pair_gt q p = false.
Proof.
  rewrite pair_gt_cases, pair_le_cases.
  intros [H|[H1 H2]]; [left; exact H|].
  right. split; [symmetry; exact H1|apply string_ltb_asym; exact H2].
Qed.

Lemma pair_le_trans (x y z : Q * string) :
  pair_gt x y = false -> pair_gt y z = false -> pair_gt x z = false.
Proof.
  rewrite !pair_le_cases.
  intros [H1|[H1 S1]] [H2|[H2 S2]]; try (left; lra).
  right. split; [lra|].
  destruct (String.ltb (snd z) (snd x)) eqn:E; [|reflexivity].
  destruct (String.ltb (snd y) (snd z)) eqn:F.
  - rewrite (string_ltb_trans _ _ _ F E) in S1. discriminate.
  - rewrite (string_ltb_total _ _ S2 F) in E. congruence.
Qed.

Lemma pair_le_antisym (p q : Q * string) :
  pair_gt p q = false -> pair_gt q p = false ->
  (fst p == fst q)%Q /\ snd p = snd q.
Proof.
  rewrite !pair_le_cases.
  intros [H1|[H1 S1]] [H2|[H2 S2]]; try lra.
  split; [exact H1|]. apply string_ltb_total; assumption.
Qed.

(** [max] returns an item that no item of the list exceeds. *)
Lemma max_from_greatest (l : list (Q * string)) :
  forall cur q, In q (cur :: l) -> pair_gt q (max_from cur l) = false.
Proof.
  induction l as [|p l IH]; intros cur q Hin.
  - destruct Hin as [<-|[]]. apply pair_gt_irrefl.
  - cbn [max_from].
    destruct (pair_gt p cur) eqn:E.
    + destruct Hin as [<-|[<-|Hin]].
      * apply (pair_le_trans _ p); [apply pair_gt_asym; exact E|].
        apply IH. left. reflexivity.
      * apply IH. left. reflexivity.
      * apply IH. right. exact Hin.
    + destruct Hin as [<-|[<-|Hin]].
      * apply IH. left. reflexivity.
      * apply (pair_le_trans _ cur); [exact E|]. apply IH. left. reflexivity.
      * apply IH. right. exact Hin.
Qed.

Lemma max_from_in (l : list (Q * string)) (cur : Q * string) :
  In (max_from cur l) (cur :: l).
Proof. apply max_from_spec. Qed.

(** The item [max] returns is determined, up to the value of the score,
    by the items of the list: their order plays no part. *)
Lemma max_from_unique (l : list (Q * string)) (cur p : Q * string) :
  In p (cur :: l) ->
  (forall q, In q (cur :: l) -> pair_gt q p = false) ->
  snd (max_from cur l) = snd p.
Proof.
  intros Hin Hmax.
  apply pair_le_antisym.
  - apply Hmax. apply max_from_in.
  - apply max_from_greatest. exact Hin.
Qed.

Lemma fuzzy_search_greatest (self : IngredientNutritionSearch) (q : string)
  (thr : Q) (p : Q * string) :
  (0 <= thr)%Q -> (thr <= 1)%Q ->
  In p (scored (lower q) thr (_ingredients self)) ->
  (forall x, In x (scored (lower q) thr (_ingredients self)) ->
             pair_gt x p = false) ->
  _fuzzy_search self q thr = Ok (Some (snd p)).
Proof.
  intros H0 H1 Hin Hmax.
  pose proof (fuzzy_search_cases self q thr H0 H1) as Hc.
  destruct (scored (lower q) thr (_ingredients self)) as [|p0 l]; [destruct Hin|].
  rewrite Hc. rewrite (max_from_unique l p0 p Hin Hmax). reflexivity.
Qed.

Lemma fuzzy_search_some (self : IngredientNutritionSearch) (q : string)
  (thr : Q) (m : string) :
  (0 <= thr)%Q -> (thr <= 1)%Q ->
  _fuzzy_search self q thr = Ok (Some m) ->
  exists p,
    snd p = m /\
    In p (scored (lower q) thr (_ingredients self)) /\
    forall x, In x (scored (lower q) thr (_ingredients self)) ->
              pair_gt x p = false.
Proof.
  intros H0 H1 H.
  pose proof (fuzzy_search_cases self q thr H0 H1) as Hc.
  destruct (scored (lower q) thr (_ingredients self)) as [|p0 l] eqn:E.
  - rewrite Hc in H. discriminate.
  - rewrite Hc in H. injection H as <-.
    exists (max_from p0 l). split; [reflexivity|].
    split; [apply max_from_in|]. intros x Hx. apply max_from_greatest. exact Hx.
Qed.

Lemma fuzzy_search_range (self : IngredientNutritionSearch) (q : string)
  (thr : Q) (m : option string) :
  _fuzzy_search self q thr = Ok m -> (0 <= thr)%Q /\ (thr <= 1)%Q.
Proof.
  unfold _fuzzy_search, get_close_matches. simpl (negb (0 <? 1)%nat).
  destruct (Qle_bool 0 thr) eqn:A; [|discriminate].
  destruct (Qle_bool thr 1) eqn:B; [|discriminate].
  intros _. split; apply Qle_bool_iff; assumption.
Qed.

Lemma Permutation_filter {A : Type} (f : A -> bool) (l l' : list A) :
  Permutation l l' -> Permutation (filter f l) (filter f l').
Proof.
  induction 1 as [|x l l' _ IH|x y l|l l' l'' _ IH1 _ IH2]; simpl.
  - constructor.
  - destruct (f x); [constructor|]; exact IH.
  - destruct (f x), (f y); try apply Permutation_refl. constructor.
  - eapply Permutation_trans; eassumption.
Qed.

Lemma Permutation_scored (word : string) (cutoff : Q) (l l' : list string) :
  Permutation l l' ->
  Permutation (scored word cutoff l) (scored word cutoff l').
Proof.
  intros H. unfold scored. apply Permutation_map, Permutation_filter. exact H.
Qed.

(** X10.  What [_fuzzy_search] returns does not depend on the order of the
    candidates: two engines whose ingredient lists hold the same names,
    in whatever order, give the same answer to every query at every
    threshold. *)
Theorem fuzzy_search_order_independent (self self' : IngredientNutritionSearch)
  (ingredient_name : string) (threshold : Q) :
  Permutation (_ingredients self) (_ingredients self') ->
  _fuzzy_search self ingredient_name threshold =
  _fuzzy_search self' ingredient_name threshold.
Proof.
  intros Hperm.
  destruct (Qle_bool 0 threshold && Qle_bool threshold 1) eqn:R.
  - apply andb_true_iff in R. destruct R as [H0 H1].
    apply Qle_bool_iff in H0, H1.
    pose proof (Permutation_scored (lower ingredient_name) threshold _ _ Hperm)
      as Hs.
    pose proof (fuzzy_search_cases self ingredient_name threshold H0 H1) as Hc.
    destruct (scored (lower ingredient_name) threshold (_ingredients self))
      as [|p0 l] eqn:E.
    + apply Permutation_nil in Hs.
      pose proof (fuzzy_search_cases self' ingredient_name threshold H0 H1) as Hc'.
      rewrite Hs in Hc'. congruence.
    + rewrite Hc. symmetry.
      apply (fuzzy_search_greatest self' ingredient_name threshold
               (max_from p0 l) H0 H1).
      * apply (Permutation_in _ Hs). apply max_from_in.
      * intros x Hx. apply max_from_greatest.
        apply (Permutation_in _ (Permutation_sym Hs)). exact Hx.
  - unfold _fuzzy_search, get_close_matches. simpl (negb (0 <? 1)%nat).
    rewrite R. reflexivity.
Qed.

Lemma fuzzy_search_order_independent_witness :
  _fuzzy_search fruit_engine "bananna" 0.6%Q =
  _fuzzy_search reversed_fruit_engine "bananna" 0.6%Q.
Proof.
  apply (fuzzy_search_order_independent fruit_engine reversed_fruit_engine).
  apply perm_swap.
Defined.

(** X11.  Lowering the threshold never changes a match: when
    [_fuzzy_search] finds [m] at some threshold, it finds the same [m] at
    every threshold from 0 up to that one. *)
Theorem fuzzy_search_lower_threshold (self : IngredientNutritionSearch)
  (ingredient_name : string) (threshold threshold' : Q) (m : string) :
  _fuzzy_search self ingredient_name threshold = Ok (Some m) ->
  (0 <= threshold')%Q -> (threshold' <= threshold)%Q ->
  _fuzzy_search self ingredient_name threshold' = Ok (Some m).
Proof.
  intros H H0' Hle.
  destruct (fuzzy_search_range _ _ _ _ H) as [H0 H1].
  destruct (fuzzy_search_some _ _ _ _ H0 H1 H) as (p & <- & Hin & Hmax).
  assert (H1' : (threshold' <= 1)%Q) by lra.
  apply (fuzzy_search_greatest self ingredient_name threshold' p H0' H1').
  - apply in_scored. apply in_scored in Hin.
    destruct Hin as (Hp & Hthr & Hfst). repeat split; try assumption. lra.
  - intros x Hx. apply in_scored in Hx. destruct Hx as (Hx & Hthr & Hfst).
    destruct (Qlt_le_dec (fst x) threshold) as [Hlt|Hge].
    + apply pair_le_cases. left. apply in_scored in Hin.
      destruct Hin as (_ & Hthrp & Hfstp). rewrite Hfstp. lra.
    + apply Hmax. apply in_scored. repeat split; try assumption.
      rewrite <- Hfst. exact Hge.
Qed.

Lemma fuzzy_search_lower_threshold_witness :
  _fuzzy_search fruit_engine "aple" 0.3%Q = Ok (Some "apple").
Proof.
  apply (fuzzy_search_lower_threshold fruit_engine "aple" 0.8%Q 0.3%Q "apple").
  - vm_compute. reflexivity.
  - vm_compute. discriminate.
  - vm_compute. discriminate.
Defined.

(** X12.  Among the candidates that are equally similar to the query,
    [_fuzzy_search] returns the one that is greatest in the order of
    strings: no candidate with the score of the match comes after the
    match in that order, wherever it stands in the table. *)
Theorem fuzzy_search_tie_goes_to_greatest_name
  (self : IngredientNutritionSearch) (ingredient_name : string) (threshold : Q)
  (m x : string) :
  _fuzzy_search self ingredient_name threshold = Ok (Some m) ->
  In x (_ingredients self) ->
  (similarity ingredient_name x == similarity ingredient_name m)%Q ->
  String.ltb m x = false.
Proof.
  unfold similarity. intros H Hx Heq.
  destruct (fuzzy_search_range _ _ _ _ H) as [H0 H1].
  destruct (fuzzy_search_some _ _ _ _ H0 H1 H) as (p & <- & Hin & Hmax).
  apply in_scored in Hin. destruct Hin as (Hp & Hthr & Hfst).
  specialize (Hmax (ratio (chars x) (chars (lower ingredient_name)), x)).
  apply pair_le_cases in Hmax.
  - cbn [fst snd] in Hmax. destruct Hmax as [Hlt|[_ Hs]]; [|exact Hs].
    rewrite Hfst in Hlt. lra.
  - apply in_scored. cbn [fst snd]. repeat split; try assumption. lra.
Qed.

Lemma fuzzy_search_tie_goes_to_greatest_name_witness :
  String.ltb "grape" "apple" = false.
Proof.
  apply (fuzzy_search_tie_goes_to_greatest_name grape_engine "ape" 0.6%Q
           "grape" "apple").
  - vm_compute. reflexivity.
  - left. reflexivity.
  - vm_compute. reflexivity.
Defined.

(** X13.  The two ends of the threshold range.  At threshold 1
    [_fuzzy_search] only finds the query itself: a match is the
    lower-cased query, letter for letter.  At threshold 0 it finds a match
    for every query as soon as the table is not empty. *)
Theorem fuzzy_search_threshold_ends (self : IngredientNutritionSearch)
  (ingredient_name : string) :
  (forall m, _fuzzy_search self ingredient_name 1 = Ok (Some m) ->
             m = lower ingredient_name) /\
  (_ingredients self <> [] ->
   exists m, _fuzzy_search self ingredient_name 0 = Ok (Some m)).
Proof.
  split.
  - intros m H.
    destruct (fuzzy_search_spec self ingredient_name 1) as (r & Hr & Hspec);
      try lra.
    rewrite H in Hr. injection Hr as <-.
    destruct Hspec as (_ & Hge & _).
    apply chars_inj, ratio_1_eq.
    pose proof (ratio_le_1 (chars m) (chars (lower ingredient_name))). lra.
  - intros Hne.
    destruct (fuzzy_search_spec self ingredient_name 0) as (r & Hr & Hspec);
      try lra.
    destruct r as [m|]; [exists m; exact Hr|].
    destruct (_ingredients self) as [|x l]; [congruence|].
    specialize (Hspec x (or_introl eq_refl)).
    pose proof (ratio_nonneg (chars x) (chars (lower ingredient_name))). lra.
Qed.

End MatcherFacts.

(* ================================================================== *)
(** ** The arithmetic of the scaled values *)

Module ScaleFacts.

Import Py Search Notions Vocabulary Fixtures PyFacts EngineFacts RoundFacts.

Local Open Scope Z_scope.

Lemma not_negative_sf (x : float) :
  not_negative x = sf_not_negative (Prim2SF x).
Proof.
  unfold not_negative. rewrite ltb_spec.
  change (Prim2SF 0) with (S754_zero false).
  destruct (Prim2SF x) as [[]|[]| |[] m e]; reflexivity.
Qed.

Lemma positive_sf (w : float) :
  (0 <? w)%float = true ->
  Prim2SF w = S754_infinity false \/
  exists m e, Prim2SF w = S754_finite false m e.
Proof.
  rewrite ltb_spec. change (Prim2SF 0) with (S754_zero false).
  destruct (Prim2SF w) as [[]|[]| |[] m e]; try discriminate.
  - left. reflexivity.
  - right. exists m, e. reflexivity.
Qed.

Lemma sf_signed_not_negative (r : spec_float) :
  sf_signed false r = true -> sf_not_negative r = true.
Proof. destruct r as [[]|[]| |[] m e]; simpl; congruence. Qed.

Lemma binary_round_aux_signed (s : bool) (m e : Z) (l : location) :
  sf_signed s (binary_round_aux prec emax s m e l) = true.
Proof.
  unfold binary_round_aux.
  destruct (shr_fexp prec emax m e l) as [mrs' e'].
  destruct (shr_fexp prec emax _ e' loc_Exact) as [mrs'' e''].
  destruct (shr_m mrs''); [| |reflexivity]; simpl.
  - apply Bool.eqb_reflx.
  - destruct (e'' <=? 971); simpl; apply Bool.eqb_reflx.
Qed.

Lemma div_100_signed (w : float) :
  (0 <? w)%float = true -> sf_signed false (Prim2SF (w / 100)) = true.
Proof.
  intros Hw. rewrite div_spec.
  change (Prim2SF 100) with (S754_finite false 7036874417766400 (-46)).
  destruct (positive_sf w Hw) as [->|(m & e & ->)]; [reflexivity|].
  unfold SF64div, SFdiv.
  destruct (SFdiv_core_binary prec emax (Z.pos m) e (Z.pos 7036874417766400) (-46))
    as [[mz ez] lz].
  apply binary_round_aux_signed.
Qed.

Lemma mul_not_negative (v q : float) :
  not_negative v = true -> sf_signed false (Prim2SF q) = true ->
  sf_not_negative (Prim2SF (v * q)) = true.
Proof.
  rewrite not_negative_sf, mul_spec.
  destruct (Prim2SF v) as [sv|[]| |[] mv ev]; try discriminate; intros _;
    destruct (Prim2SF q) as [[]|[]| |[] mq eq]; try discriminate; intros _;
    try reflexivity; try (destruct sv; reflexivity).
  unfold SF64mul, SFmul. apply sf_signed_not_negative.
  apply binary_round_aux_signed.
Qed.

Lemma of_uint63_signed (n : Uint63.int) :
  sf_signed false (Prim2SF (of_uint63 n)) = true.
Proof.
  rewrite of_uint63_spec. unfold binary_normalize.
  pose proof (Uint63.to_Z_bounded n) as [Hn _].
  destruct (Uint63.to_Z n) as [|p|p]; [reflexivity| |lia].
  unfold binary_round.
  destruct (shl_align p 0 (fexp prec emax (Z.pos (digits2_pos p) + 0))) as [mz ez].
  apply binary_round_aux_signed.
Qed.

Lemma round0_not_negative (x : float) :
  sf_not_negative (Prim2SF x) = true ->
  sf_not_negative (Prim2SF (round0 x)) = true.
Proof.
  unfold round0. intros H.
  destruct (Prim2SF x) as [s|s| |s m e] eqn:Hx; try (rewrite Hx; exact H).
  destruct (0 <=? e); [rewrite Hx; exact H|].
  destruct s; [discriminate|].
  apply sf_signed_not_negative, of_uint63_signed.
Qed.

Lemma scale_not_negative (w v : float) :
  (0 <? w)%float = true -> not_negative v = true ->
  not_negative (scale w v) = true.
Proof.
  intros Hw Hv. rewrite not_negative_sf. unfold scale.
  apply round0_not_negative, mul_not_negative; [exact Hv|].
  apply div_100_signed. exact Hw.
Qed.

(** *** Multiplying by one *)

Lemma pos_mul_shift (m : positive) :
  (m * 4503599627370496)%positive = Pos.iter xO m 52.
Proof.
  apply Pos2Z.inj.
  change (Pos.iter xO m 52) with (shift_pos 52 m).
  rewrite shift_pos_correct, Pos2Z.inj_mul. rewrite Z.mul_comm. reflexivity.
Qed.

Lemma binary_round_aux_shifted (s : bool) (m : positive) (e : Z) :
  valid_binary (S754_finite s m e) = true ->
  binary_round_aux prec emax s (Z.pos (Pos.iter xO m 52)) (e + -52) loc_Exact
  = S754_finite s m e.
Proof.
  unfold valid_binary, bounded, canonical_mantissa. intros Hv.
  apply andb_true_iff in Hv. destruct Hv as [Hc Hb].
  apply Z.eqb_eq in Hc.
  assert (Hc' : fexp prec emax (Z.pos (digits2_pos m) + e) = e) by exact Hc.
  assert (Hb' : (e <=? emax - prec) = true) by exact Hb.
  unfold binary_round_aux, shr_fexp.
  cbn [Zdigits2]. rewrite digits2_pos_iter_xO.
  replace (Z.pos (digits2_pos m + 52) + (e + -52))
    with (Z.pos (digits2_pos m) + e) by lia.
  rewrite Hc'.
  replace (e - (e + -52)) with 52 by lia.
  unfold shr.
  change (iter_pos shr_1 52
            (shr_record_of_loc (Z.pos (Pos.iter xO m 52)) loc_Exact))
    with {| shr_m := Z.pos m; shr_r := false; shr_s := false |}.
  cbn [shr_m loc_of_shr_record round_nearest_even Zdigits2 shr_r shr_s].
  replace (e + -52 + 52) with e by lia.
  first [rewrite Hc|rewrite Hc'].
  rewrite Z.sub_diag. cbn [shr_record_of_loc shr_m].
  first [rewrite Hb|rewrite Hb']. reflexivity.
Qed.

Lemma mul_one (v : float) : (v * 1)%float = v.
Proof.
  apply Prim2SF_inj. rewrite mul_spec.
  change (Prim2SF 1) with (S754_finite false 4503599627370496 (-52)).
  pose proof (Prim2SF_valid v) as Hv.
  destruct (Prim2SF v) as [s|s| |s m e]; try reflexivity.
  - simpl. rewrite xorb_false_r. reflexivity.
  - simpl. rewrite xorb_false_r. reflexivity.
  - unfold SF64mul, SFmul. rewrite xorb_false_r, pos_mul_shift.
    apply binary_round_aux_shifted. exact Hv.
Qed.

Lemma scale_100 (v : float) : scale 100 v = round0 v.
Proof.
  unfold scale. change (100 / 100)%float with 1%float.
  rewrite mul_one. reflexivity.
Qed.

End ScaleFacts.

(* ================================================================== *)
(** ** The semantic matcher *)

Module SemanticFacts.

Import Py Difflib Search Notions Vocabulary Fixtures PyFacts RatioFacts
  EngineFacts TableFacts.

Local Open Scope string_scope.
Local Open Scope list_scope.

(** [argmax] scans to the first of the largest scores. *)
Lemma argmax_from_first_max (l : list Q) :
  forall pre bi best,
    bi < length pre -> nth bi pre 0%Q = best ->
    (forall j, j < length pre -> (nth j pre 0 <= best)%Q) ->
    (forall j, j < bi -> (nth j pre 0 < best)%Q) ->
    let r := argmax_from bi best (length pre) l in
    r < length (pre ++ l) /\
    (forall j, j < length (pre ++ l) ->
               (nth j (pre ++ l) 0 <= nth r (pre ++ l) 0)%Q) /\
    (forall j, j < r -> (nth j (pre ++ l) 0 < nth r (pre ++ l) 0)%Q).
Proof.
  induction l as [|x l IH]; intros pre bi best Hbi Hnth Hle Hlt.
  - simpl. rewrite app_nil_r, Hnth. auto.
  - cbn [argmax_from].
    assert (Hlen : length (pre ++ [x]) = S (length pre)).
    { rewrite length_app. simpl. lia. }
    replace (pre ++ x :: l) with ((pre ++ [x]) ++ l)
      by (rewrite <- app_assoc; reflexivity).
    rewrite <- Hlen.
    destruct (Qle_bool x best) eqn:E.
    + apply Qle_bool_iff in E. apply IH.
      * lia.
      * rewrite app_nth1 by lia. exact Hnth.
      * intros j Hj. destruct (Nat.eq_dec j (length pre)) as [->|Hne].
        -- rewrite app_nth2, Nat.sub_diag by lia. exact E.
        -- rewrite app_nth1 by lia. apply Hle. lia.
      * intros j Hj. rewrite app_nth1 by lia. apply Hlt. exact Hj.
    + assert (Hx : (best < x)%Q).
      { apply Qnot_le_lt. intros H. apply Qle_bool_iff in H. congruence. }
      apply IH.
      * lia.
      * rewrite app_nth2, Nat.sub_diag by lia. reflexivity.
      * intros j Hj. destruct (Nat.eq_dec j (length pre)) as [->|Hne].
        -- rewrite app_nth2, Nat.sub_diag by lia. simpl. lra.
        -- rewrite app_nth1 by lia.
           assert (nth j pre 0 <= best)%Q by (apply Hle; lia). lra.
      * intros j Hj. rewrite app_nth1 by lia.
        assert (nth j pre 0 <= best)%Q by (apply Hle; lia). lra.
Qed.

(** X14.  On an engine that [__init__] returned for a table that is not
    empty, and for a query that the encoder accepts, [_semantic_search]
    returns without an error.  It looks at the first ingredient among
    those with the largest cosine score: that ingredient is the match
    when its score reaches the threshold, and there is no match
    otherwise. *)
Theorem semantic_search_first_best (rows : list Row)
  (model : SentenceTransformer) (self : IngredientNutritionSearch)
  (ingredient_name : string) (threshold : Q)
  (embedding : tensor (encoder self)) :
  __init__ rows model = Ok self ->
  _ingredients self <> [] ->
  encode (encoder self) (lower ingredient_name) = Ok embedding ->
  exists i m,
    nth_error (_ingredients self) i = Some m /\
    (forall j, j < length (_ingredients self) ->
       (nth j (cosine_scores self embedding) 0
        <= nth i (cosine_scores self embedding) 0)%Q) /\
    (forall j, j < i ->
       (nth j (cosine_scores self embedding) 0
        < nth i (cosine_scores self embedding) 0)%Q) /\
    ((threshold <= nth i (cosine_scores self embedding) 0)%Q ->
     _semantic_search self ingredient_name threshold = Ok (Some m)) /\
    ((nth i (cosine_scores self embedding) 0 < threshold)%Q ->
     _semantic_search self ingredient_name threshold = Ok None).
Proof.
  intros Hinit Hne Henc.
  destruct (init_well_formed _ _ _ Hinit) as [Hwf _].
  pose proof (wf_embeddings self Hwf) as Hlen.
  unfold _semantic_search. rewrite Henc. cbn [bind].
  fold (cosine_scores self embedding).
  assert (Hsl : length (cosine_scores self embedding)
                = length (_ingredients self)).
  { unfold cosine_scores. rewrite length_map. exact Hlen. }
  destruct (cosine_scores self embedding) as [|x l] eqn:Es.
  - destruct (_ingredients self); [congruence|discriminate].
  - cbn [argmax bind].
    assert (H1 : 0 < length [x]) by (simpl; lia).
    assert (H2 : nth 0 [x] 0%Q = x) by reflexivity.
    assert (H3 : forall j, j < length [x] -> (nth j [x] 0 <= x)%Q).
    { intros j Hj. simpl in Hj. assert (j = 0) as -> by lia. simpl. lra. }
    assert (H4 : forall j, j < 0 -> (nth j [x] 0 < x)%Q) by (intros j Hj; lia).
    destruct (argmax_from_first_max l [x] 0 x H1 H2 H3 H4) as (Hr & Hmax & Hfirst).
    change (length [x]) with 1 in Hr, Hmax, Hfirst.
    change ([x] ++ l) with (x :: l) in Hr, Hmax, Hfirst.
    set (r := argmax_from 0 x 1 l) in *.
    destruct (nth_error (_ingredients self) r) as [m|] eqn:Em.
    + exists r, m. split; [exact Em|].
      split; [intros j Hj; apply Hmax; rewrite Hsl; exact Hj|].
      split; [exact Hfirst|]. split.
      * intros Hthr. apply Qle_bool_iff in Hthr. rewrite Hthr. reflexivity.
      * intros Hthr.
        destruct (Qle_bool threshold (nth r (x :: l) 0%Q)) eqn:E; [|reflexivity].
        apply Qle_bool_iff in E. lra.
    + apply nth_error_None in Em. rewrite Hsl in Hr. lia.
Qed.

Lemma semantic_search_first_best_witness :
  exists i m,
    nth_error (_ingredients fruit_engine) i = Some m /\
    (forall j, j < length (_ingredients fruit_engine) ->
       (nth j (cosine_scores fruit_engine (6%nat : tensor (encoder fruit_engine))) 0
        <= nth i (cosine_scores fruit_engine (6%nat : tensor (encoder fruit_engine))) 0)%Q) /\
    (forall j, j < i ->
       (nth j (cosine_scores fruit_engine (6%nat : tensor (encoder fruit_engine))) 0
        < nth i (cosine_scores fruit_engine (6%nat : tensor (encoder fruit_engine))) 0)%Q) /\
    ((0.6 <= nth i (cosine_scores fruit_engine (6%nat : tensor (encoder fruit_engine))) 0)%Q ->
     _semantic_search fruit_engine "cherry" 0.6%Q = Ok (Some m)) /\
    ((nth i (cosine_scores fruit_engine (6%nat : tensor (encoder fruit_engine))) 0 < 0.6)%Q ->
     _semantic_search fruit_engine "cherry" 0.6%Q = Ok None).
Proof.
  apply (semantic_search_first_best fruit_rows length_model fruit_engine
           "cherry" 0.6%Q (6%nat : tensor (encoder fruit_engine))).
  - reflexivity.
  - discriminate.
  - reflexivity.
Defined.

End SemanticFacts.

(* ================================================================== *)
(** ** [search]: from the file to the scaled values *)

Module SearchFacts.

Import Py Difflib Search Notions Vocabulary Fixtures PyFacts RatioFacts
  EngineFacts RoundFacts TableFacts ScaleFacts.

Local Open Scope string_scope.
Local Open Scope list_scope.

Lemma lower_empty (s : string) : lower s = EmptyString -> s = EmptyString.
Proof. destruct s; simpl; [reflexivity|discriminate]. Qed.

Lemma fuzzy_search_lower (self : IngredientNutritionSearch) (q q' : string)
  (thr : Q) :
  lower q = lower q' -> _fuzzy_search self q thr = _fuzzy_search self q' thr.
Proof. unfold _fuzzy_search. intros ->. reflexivity. Qed.

Lemma load_data_lookup_last (pre post : list Row) (r : Row) :
  (forall r', In r' post -> lower (name r') <> lower (name r)) ->
  dict_get (_load_data (pre ++ r :: post)) (lower (name r)) = Some (record_of r).
Proof.
  intros Hpost. induction post as [|r' post IH] using rev_ind.
  - rewrite load_data_snoc. apply dict_get_set_same.
  - change (pre ++ r :: post ++ [r']) with (pre ++ (r :: post) ++ [r']).
    rewrite app_assoc, load_data_snoc, dict_get_set_other.
    + apply IH. intros r0 Hin. apply Hpost. apply in_or_app. left. exact Hin.
    + intros E. apply (Hpost r'); [apply in_or_app; right; left; reflexivity|].
      symmetry. exact E.
Qed.

Lemma load_data_key_in (rows : list Row) (r : Row) :
  In r rows -> In (lower (name r)) (keys (_load_data rows)).
Proof.
  induction rows as [|r' rows IH] using rev_ind; intros Hin; [destruct Hin|].
  rewrite load_data_snoc, in_keys_dict_set.
  apply in_app_or in Hin. destruct Hin as [Hin|[<-|[]]].
  - right. apply IH. exact Hin.
  - left. reflexivity.
Qed.

Lemma search_loop_filter (self : IngredientNutritionSearch) (search_type : string)
  (items : list (string * float)) :
  forall results,
    search_loop self search_type items results =
    search_loop self search_type (filter positive_weight items) results.
Proof.
  induction items as [|[q w] items IH]; intros results; [reflexivity|].
  cbn [filter]. unfold positive_weight at 1. cbn [snd].
  destruct (0 <? w)%float eqn:Hw.
  - rewrite !search_loop_cons.
    destruct (turn self search_type (q, w)); cbn [bind]; [apply IH|reflexivity].
  - rewrite search_loop_cons. unfold turn. rewrite Hw. cbn [bind].
    rewrite app_nil_r. apply IH.
Qed.

Lemma SFcompare_refl_finite (s : bool) (m : positive) (e : Z) :
  SFcompare (S754_finite s m e) (S754_finite s m e) = Some Eq.
Proof.
  unfold SFcompare. destruct s; rewrite Z.compare_refl;
    rewrite Pos.compare_cont_refl; reflexivity.
Qed.

Lemma positive_not_nan (w : float) :
  (0 <? w)%float = true -> PrimFloat.is_nan w = false.
Proof.
  intros Hw. unfold PrimFloat.is_nan. rewrite FloatAxioms.eqb_spec.
  destruct (positive_sf w Hw) as [->|(m & e & ->)]; [reflexivity|].
  unfold SFeqb. rewrite SFcompare_refl_finite. reflexivity.
Qed.

(** X15.  [search] never looks up an item whose weight is not above
    zero: leaving such items out of the request changes neither the
    result nor the error.  A weight of zero, a negative weight and a NaN
    weight are all of this kind. *)
Theorem search_ignores_weights_not_above_zero
  (self : IngredientNutritionSearch) (img_ingredients : list (string * float))
  (search_type : string) :
  search self img_ingredients search_type =
  search self (filter positive_weight img_ingredients) search_type
  /\
  forall item,
    (snd item <=? 0)%float = true \/ PrimFloat.is_nan (snd item) = true ->
    positive_weight item = false.
Proof.
  split.
  - unfold search.
    destruct (negb (String.eqb search_type "fuzzy"
                    || String.eqb search_type "semantic")); [reflexivity|].
    apply search_loop_filter.
  - intros [q w] [H|H]; unfold positive_weight; cbn [snd] in *.
    + apply leb_0_not_gt. exact H.
    + destruct (0 <? w)%float eqn:Hw; [|reflexivity].
      rewrite (positive_not_nan w Hw) in H. discriminate.
Qed.

(** X16.  With the "fuzzy" strategy, [search] on an engine that
    [__init__] returned never fails: for every request it returns a
    result, with one entry for each item whose weight is above zero. *)
Theorem search_fuzzy_always_returns (rows : list Row)
  (model : SentenceTransformer) (self : IngredientNutritionSearch)
  (img_ingredients : list (string * float)) :
  __init__ rows model = Ok self ->
  exists results,
    search self img_ingredients "fuzzy" = Ok results /\
    length results = length (filter positive_weight img_ingredients).
Proof.
  intros Hinit.
  destruct (init_well_formed _ _ _ Hinit) as [Hwf _].
  assert (Htotal : forall q w, In (q, w) img_ingredients ->
                     (0 <? w)%float = true ->
                     exists match_, dispatch self "fuzzy" q = Ok match_).
  { intros q w _ _. destruct (fuzzy_search_returns self q) as [m Hm].
    exists m. rewrite dispatch_fuzzy. exact Hm. }
  destruct (search_loop_returns self "fuzzy" img_ingredients Hwf Htotal [])
    as [results Hr].
  exists results.
  rewrite (search_valid self img_ingredients "fuzzy") by (left; reflexivity).
  split; [exact Hr|].
  apply search_loop_ok in Hr. destruct Hr as (entries & -> & HF).
  simpl. symmetry. apply (Forall2_length HF).
Qed.

Lemma search_fuzzy_always_returns_witness :
  exists results,
    search fruit_engine [("aple", 150%float); ("kiwi", 80%float);
                         ("banana", 0%float)] "fuzzy" = Ok results /\
    length results =
    length (filter positive_weight
              [("aple", 150%float); ("kiwi", 80%float); ("banana", 0%float)]).
Proof.
  apply (search_fuzzy_always_returns fruit_rows length_model fruit_engine).
  reflexivity.
Defined.

(** X17.  With the "semantic" strategy, the encoder is the only thing
    that can make [search] fail on an engine that [__init__] returned for
    a table that is not empty: when the encoder accepts the lower-cased
    name of every item whose weight is above zero, [search] returns, with
    one entry for each of these items. *)
Theorem search_semantic_returns (rows : list Row)
  (model : SentenceTransformer) (self : IngredientNutritionSearch)
  (img_ingredients : list (string * float)) :
  __init__ rows model = Ok self ->
  rows <> [] ->
  (forall q w, In (q, w) img_ingredients -> (0 <? w)%float = true ->
               exists t, encode (encoder self) (lower q) = Ok t) ->
  exists results,
    search self img_ingredients "semantic" = Ok results /\
    length results = length (filter positive_weight img_ingredients).
Proof.
  intros Hinit Hrows Henc.
  destruct (init_well_formed _ _ _ Hinit) as [Hwf Hdata].
  assert (Hne : _ingredients self <> []).
  { rewrite (wf_ingredients self Hwf), Hdata.
    destruct rows as [|r rows]; [congruence|].
    intros E. pose proof (load_data_key_in (r :: rows) r (or_introl eq_refl)) as Hin.
    rewrite E in Hin. destruct Hin. }
  assert (Htotal : forall q w, In (q, w) img_ingredients ->
                     (0 <? w)%float = true ->
                     exists match_, dispatch self "semantic" q = Ok match_).
  { intros q w Hin Hw. destruct (Henc q w Hin Hw) as [t Ht].
    destruct (semantic_search_returns self q default_threshold t Hwf Hne Ht)
      as [m Hm].
    exists m. rewrite dispatch_semantic. exact Hm. }
  destruct (search_loop_returns self "semantic" img_ingredients Hwf Htotal [])
    as [results Hr].
  exists results.
  rewrite (search_valid self img_ingredients "semantic") by (right; reflexivity).
  split; [exact Hr|].
  apply search_loop_ok in Hr. destruct Hr as (entries & -> & HF).
  simpl. symmetry. apply (Forall2_length HF).
Qed.

Lemma search_semantic_returns_witness :
  exists results,
    search fragile_engine [("pear", 120%float); ("kiwi", 0%float)] "semantic"
    = Ok results /\
    length results =
    length (filter positive_weight [("pear", 120%float); ("kiwi", 0%float)]).
Proof.
  apply (search_semantic_returns fruit_rows fragile_model fragile_engine).
  - reflexivity.
  - discriminate.
  - intros q w [H|[H|[]]] Hw; injection H as <- <-.
    + exists 4. reflexivity.
    + discriminate.
Defined.

(** X18.  From the file to the answer: let a row be the last of the table
    that bears its name, up to letter case, and let the name not be
    empty.  Then a request for that name in any spelling of upper and
    lower case, "fuzzy" strategy, is answered with the lower-cased name
    of the row as the match and with the values of that row, scaled. *)
Theorem search_finds_any_spelling (pre post : list Row) (r : Row)
  (model : SentenceTransformer) (self : IngredientNutritionSearch)
  (ingredient_name : string) (ingredient_weight : float) :
  __init__ (pre ++ r :: post) model = Ok self ->
  (forall r', In r' post -> lower (name r') <> lower (name r)) ->
  name r <> EmptyString ->
  lower ingredient_name = lower (name r) ->
  (0 <? ingredient_weight)%float = true ->
  search self [(ingredient_name, ingredient_weight)] "fuzzy" =
  Ok [(ingredient_name,
       Matched (lower (name r)) ingredient_weight
         (scale_record ingredient_weight (record_of r)))].
Proof.
  intros Hinit Hlast Hname Hq Hw.
  destruct (init_well_formed _ _ _ Hinit) as [Hwf Hdata].
  apply search_single.
  - left. reflexivity.
  - exact Hw.
  - rewrite dispatch_fuzzy.
    rewrite (fuzzy_search_lower self ingredient_name (lower (name r)))
      by (rewrite lower_idem; exact Hq).
    destruct default_threshold_range as [H0 H1].
    apply fuzzy_search_exact; try assumption.
    + rewrite (wf_ingredients self Hwf), Hdata.
      apply load_data_key_in. apply in_or_app. right. left. reflexivity.
    + apply lower_idem.
  - intros E. apply Hname. apply lower_empty. exact E.
  - rewrite Hdata. apply load_data_lookup_last. exact Hlast.
Qed.

Lemma search_finds_any_spelling_witness :
  search twice_engine [("aPPle", 200%float)] "fuzzy" =
  Ok [("aPPle",
       Matched (lower (name last_apple)) 200%float
         (scale_record 200%float (record_of last_apple)))].
Proof.
  apply (search_finds_any_spelling
           [ {| name := "Apple"; row_calories := 52; total_fat := 0.2;
                protein := 0.3; carbohydrate := 13.8 |};
             {| name := "banana"; row_calories := 89; total_fat := 0.3;
                protein := 1.1; carbohydrate := 22.8 |} ]
           [] last_apple length_model twice_engine "aPPle" 200%float).
  - reflexivity.
  - intros r' [].
  - discriminate.
  - reflexivity.
  - reflexivity.
Defined.

Lemma matched_entry (self : IngredientNutritionSearch)
  (img_ingredients : list (string * float)) (search_type : string)
  (results : list (string * result_data))
  (raw m : string) (w : float) (scaled : NutritionRecord) :
  search self img_ingredients search_type = Ok results ->
  In (raw, Matched m w scaled) results ->
  (0 <? w)%float = true /\
  exists d, dict_get (data self) m = Some d /\ scaled = scale_record w d.
Proof.
  intros Hs Hin.
  unfold search in Hs.
  destruct (negb (String.eqb search_type "fuzzy"
                  || String.eqb search_type "semantic")); [discriminate|].
  apply search_loop_ok in Hs. destruct Hs as (entries & -> & HF).
  simpl in Hin. revert Hin.
  induction HF as [|item entry items entries He _ IH]; intros Hin;
    [destruct Hin|].
  destruct Hin as [->|Hin]; [|exact (IH Hin)].
  destruct He as (_ & Hw & match_ & _ & Hm). cbn [snd] in Hm.
  destruct Hm as (_ & _ & -> & d & Hd & ->).
  split; [exact Hw|]. exists d. split; [exact Hd|reflexivity].
Qed.

(** X19.  When no value of the table is below zero, no value that
    [search] reports is below zero, whatever the weights are: among the
    items that [search] looks up there is no negative weight, and
    neither the product nor the rounding turns the sign. *)
Theorem search_values_not_negative (self : IngredientNutritionSearch)
  (img_ingredients : list (string * float)) (search_type : string)
  (results : list (string * result_data))
  (raw m : string) (w : float) (scaled : NutritionRecord) :
  (forall k d, dict_get (data self) k = Some d -> not_negative_record d = true) ->
  search self img_ingredients search_type = Ok results ->
  In (raw, Matched m w scaled) results ->
  not_negative_record scaled = true.
Proof.
  intros Htable Hs Hin.
  destruct (matched_entry _ _ _ _ _ _ _ _ Hs Hin) as (Hw & d & Hd & ->).
  specialize (Htable m d Hd). unfold not_negative_record in *.
  apply andb_true_iff in Htable. destruct Htable as [Htable H4].
  apply andb_true_iff in Htable. destruct Htable as [Htable H3].
  apply andb_true_iff in Htable. destruct Htable as [H1 H2].
  cbn [scale_record calories fats proteins carbohydrates].
  rewrite !scale_not_negative by assumption. reflexivity.
Qed.

Lemma search_values_not_negative_witness :
  not_negative_record (scale_record 150%float apple) = true.
Proof.
  apply (search_values_not_negative fruit_engine
           [("aple", 150%float); ("kiwi", 80%float)] "fuzzy"
           [("aple", Matched "apple" 150%float (scale_record 150%float apple));
            ("kiwi", NoMatch)]
           "aple" "apple" 150%float (scale_record 150%float apple)).
  - intros k d. cbn [fruit_engine data dict_get].
    destruct (String.eqb "apple" k); [intros H; injection H as <-; reflexivity|].
    destruct (String.eqb "banana" k); [intros H; injection H as <-; reflexivity|].
    discriminate.
  - vm_compute. reflexivity.
  - left. reflexivity.
Defined.

(** X20.  A weight of exactly 100 reports the values of the table
    themselves, each rounded to an integral float: the factor
    [100 / 100.0] is 1 and the product with 1 is exact. *)
Theorem search_weight_100_reports_table_values
  (self : IngredientNutritionSearch)
  (img_ingredients : list (string * float)) (search_type : string)
  (results : list (string * result_data))
  (raw m : string) (scaled : NutritionRecord) :
  search self img_ingredients search_type = Ok results ->
  In (raw, Matched m 100%float scaled) results ->
  exists d, dict_get (data self) m = Some d /\ scaled = round_record d.
Proof.
  intros Hs Hin.
  destruct (matched_entry _ _ _ _ _ _ _ _ Hs Hin) as (_ & d & Hd & ->).
  exists d. split; [exact Hd|].
  unfold scale_record, round_record. rewrite !scale_100. reflexivity.
Qed.

Lemma search_weight_100_reports_table_values_witness :
  exists d,
    dict_get (data fruit_engine) "banana" = Some d /\
    scale_record 100%float banana = round_record d.
Proof.
  apply (search_weight_100_reports_table_values fruit_engine
           [("banana", 100%float)] "fuzzy"
           [("banana", Matched "banana" 100%float (scale_record 100%float banana))]
           "banana" "banana" (scale_record 100%float banana)).
  - vm_compute. reflexivity.
  - left. reflexivity.
Defined.

End SearchFacts.

(* ================================================================== *)
(** ** The totals of the chart *)

Module PlotFacts.

Import Py Search Utils Notions Vocabulary Fixtures ScaleFacts.

Local Open Scope string_scope.
Local Open Scope list_scope.

Section Plot.

Variable str_of_weight : float -> string.

Local Abbreviation add_ingredient := (Utils.add_ingredient str_of_weight).

Lemma fold_filter_matched (nutritional_info : list (string * result_data)) :
  forall t,
    fold_left add_ingredient (filter matched nutritional_info) t =
    fold_left add_ingredient nutritional_info t.
Proof.
  induction nutritional_info as [|[raw [|m w d]] l IH]; intros t.
  - reflexivity.
  - cbn [filter matched snd fold_left Utils.add_ingredient]. apply IH.
  - cbn [filter matched snd fold_left]. apply IH.
Qed.

Lemma fold_details_length (nutritional_info : list (string * result_data)) :
  forall t,
    length (ingredient_details (fold_left add_ingredient nutritional_info t)) =
    length (ingredient_details t) + length (filter matched nutritional_info).
Proof.
  induction nutritional_info as [|[raw [|m w d]] l IH]; intros t.
  - simpl. lia.
  - cbn [filter matched snd fold_left Utils.add_ingredient]. apply IH.
  - cbn [filter matched snd fold_left]. rewrite IH.
    cbn [Utils.add_ingredient ingredient_details length].
    rewrite length_app. simpl. lia.
Qed.

Lemma add_not_negative (a b : float) :
  not_negative a = true -> not_negative b = true -> not_negative (a + b) = true.
Proof.
  rewrite !not_negative_sf, add_spec. unfold SF64add, SFadd.
  destruct (Prim2SF a) as [[]|[]| |[] ma ea]; try discriminate; intros _;
    destruct (Prim2SF b) as [[]|[]| |[] mb eb]; try discriminate; intros _;
    try reflexivity.
  cbn [cond_Zopp].
  change (Z.pos (fst (shl_align ma ea (IntDef.Z.min ea eb))) +
          Z.pos (fst (shl_align mb eb (IntDef.Z.min ea eb))))%Z
    with (Z.pos (fst (shl_align ma ea (IntDef.Z.min ea eb)) +
                 fst (shl_align mb eb (IntDef.Z.min ea eb)))).
  cbn [binary_normalize]. unfold binary_round.
  destruct (shl_align _ _ _) as [mz ez].
  apply sf_signed_not_negative, binary_round_aux_signed.
Qed.

Lemma fold_not_negative (nutritional_info : list (string * result_data)) :
  forall t,
    totals_not_negative t = true ->
    (forall ingredient, In ingredient nutritional_info ->
                        not_negative_entry ingredient = true) ->
    totals_not_negative (fold_left add_ingredient nutritional_info t) = true.
Proof.
  induction nutritional_info as [|[raw [|m w d]] l IH]; intros t Ht Hall.
  - exact Ht.
  - cbn [fold_left Utils.add_ingredient]. apply IH; [exact Ht|].
    intros i Hi. apply Hall. right. exact Hi.
  - cbn [fold_left]. apply IH.
    + pose proof (Hall _ (or_introl eq_refl)) as Hd.
      unfold not_negative_entry, not_negative_record in Hd. cbn [snd] in Hd.
      unfold totals_not_negative in *.
      repeat (apply andb_true_iff in Hd; destruct Hd as [Hd ?]).
      repeat (apply andb_true_iff in Ht; destruct Ht as [Ht ?]).
      cbn [Utils.add_ingredient total_proteins total_fats total_carbohydrates
           total_calories].
      rewrite !add_not_negative by assumption. reflexivity.
    + intros i Hi. apply Hall. right. exact Hi.
Qed.

End Plot.

(** X21.  [plot_nutritional_info] passes over the entries without a
    match: they add nothing to the totals and nothing to the ingredient
    list, which holds one line for each entry with a match. *)
Theorem plot_skips_unmatched (str_of_weight : float -> string)
  (nutritional_info : list (string * result_data)) :
  plot_nutritional_info str_of_weight (filter matched nutritional_info) =
  plot_nutritional_info str_of_weight nutritional_info /\
  length (ingredient_details
            (plot_nutritional_info str_of_weight nutritional_info)) =
  length (filter matched nutritional_info).
Proof.
  unfold plot_nutritional_info. split.
  - apply fold_filter_matched.
  - rewrite fold_details_length. reflexivity.
Qed.

(** X22.  When no reported value of any entry is below zero, none of the
    four totals of [plot_nutritional_info] is below zero, however many
    entries there are and in whatever order they are added. *)
Theorem plot_totals_not_negative (str_of_weight : float -> string)
  (nutritional_info : list (string * result_data)) :
  (forall ingredient, In ingredient nutritional_info ->
                      not_negative_entry ingredient = true) ->
  totals_not_negative (plot_nutritional_info str_of_weight nutritional_info)
  = true.
Proof.
  intros Hall. unfold plot_nutritional_info.
  apply fold_not_negative; [reflexivity|exact Hall].
Qed.

Lemma plot_totals_not_negative_witness :
  totals_not_negative
    (plot_nutritional_info (fun _ => "150")
       [("aple", Matched "apple" 150%float (scale_record 150%float apple));
        ("kiwi", NoMatch)])
  = true.
Proof.
  apply (plot_totals_not_negative (fun _ => "150")
           [("aple", Matched "apple" 150%float (scale_record 150%float apple));
            ("kiwi", NoMatch)]).
  intros ingredient [<-|[<-|[]]]; reflexivity.
Defined.

End PlotFacts.
